(** * Adobe Auto Checkout: a shallow embedding of the automation core

    The development follows the extension's sources:
    - [CCGenerator]  the BIN based card generator (lib/cc-generator.js),
    - [Waiter]       [waitForElement] in its MutationObserver and its
                     polling variant, and [waitForCondition] (content
                     script),
    - [Content]      [runAutomation], the message listener, the persisted
                     settings and results (content script, settings page,
                     background),
    - [Step3]        [stepFillPayment] of the content script,
    - [Bridge]       the debugger based iframe fill of the background
                     service worker.

    JavaScript strings are lists of characters, each character a code
    unit below 256 (the Latin-1 range, which holds the no-break space
    U+00A0); characters outside this range occur only inside fixed status
    texts, which are compared as a whole.  Numbers that can be NaN are
    [option nat], thrown exceptions are the [Throw] case of [Exc], and
    [Math.random], [Date], the page and the [chrome] API are explicit
    inputs.  The definitions come first, the facts about them after. *)

From stdpp Require Import base list gmap strings.
From Stdlib Require Import ZArith Ascii DecimalString.

Set Warnings "-register-all".
Local Open Scope nat_scope.

(** ** JavaScript strings *)

Abbreviation jsstring := (list ascii).

Definition str (s : string) : jsstring := String.list_ascii_of_string s.

(** [Number.prototype.toString] on a non-negative integer. *)
Definition nat_toString (n : nat) : jsstring :=
  str (NilZero.string_of_uint (Nat.to_uint n)).

(** A JavaScript number that may be [NaN] ([None]). *)
Definition jsnum_toString (n : option nat) : jsstring :=
  match n with
  | Some k => nat_toString k
  | None => str "NaN"
  end.

(** [a === b] on numbers: [NaN] is not equal to anything. *)
Definition js_strict_eq (a b : option nat) : bool :=
  match a, b with
  | Some x, Some y => x =? y
  | _, _ => false
  end.

Definition is_digit (c : ascii) : bool :=
  (48 <=? nat_of_ascii c) && (nat_of_ascii c <=? 57).

Definition digit_char (d : nat) : ascii := ascii_of_nat (48 + d).

(** [parseInt(c, 10)] on a one character string. *)
Definition parseInt_char (c : ascii) : option nat :=
  if is_digit c then Some (nat_of_ascii c - 48) else None.

(** [parseInt(s, 10)] on a string that is empty or a single character, the
    only way the generator calls it on a slice. *)
Definition parseInt_last (s : jsstring) : option nat :=
  match s with
  | [c] => parseInt_char c
  | _ => None
  end.

(** [s.slice(b, e)] with JavaScript's treatment of negative indices. *)
Definition js_index (len : nat) (i : Z) : nat :=
  if (i <? 0)%Z then Z.to_nat (Z.max 0 (Z.of_nat len + i))
  else Nat.min len (Z.to_nat i).

Definition js_slice (s : jsstring) (b e : Z) : jsstring :=
  let from := js_index (length s) b in
  let to := js_index (length s) e in
  take (to - from) (drop from s).

(** [s.slice(b)]. *)
Definition js_slice_from (s : jsstring) (b : Z) : jsstring :=
  drop (js_index (length s) b) s.

(** [toLowerCase] on the code units below 256: A to Z, and the capital
    letters U+00C0 to U+00DE without the multiplication sign U+00D7. *)
Definition toLowerCase_char (c : ascii) : ascii :=
  let n := nat_of_ascii c in
  if ((65 <=? n) && (n <=? 90)) ||
     ((192 <=? n) && (n <=? 222) && negb (n =? 215))
  then ascii_of_nat (n + 32) else c.

Definition toLowerCase (s : jsstring) : jsstring := map toLowerCase_char s.

(** White space and line terminators removed by [trim], as far as they
    are below 256: U+0009 to U+000D, the space and the no-break space
    U+00A0. *)
Definition is_space (c : ascii) : bool :=
  let n := nat_of_ascii c in
  ((9 <=? n) && (n <=? 13)) || (n =? 32) || (n =? 160).

Fixpoint trimStart (s : jsstring) : jsstring :=
  match s with
  | c :: rest => if is_space c then trimStart rest else s
  | [] => []
  end.

Definition trim (s : jsstring) : jsstring :=
  rev (trimStart (rev (trimStart s))).

(** [s.split(sep)] for a one character separator: always at least one
    part. *)
Fixpoint split_on (sep : ascii) (s : jsstring) : list jsstring :=
  match s with
  | [] => [[]]
  | c :: rest =>
      if Ascii.eqb c sep then [] :: split_on sep rest
      else match split_on sep rest with
           | p :: ps => (c :: p) :: ps
           | [] => [[c]]
           end
  end.

(** [s.padStart(n, '0')]. *)
Definition padStart0 (n : nat) (s : jsstring) : jsstring :=
  replicate (n - length s) "0"%char ++ s.

(** Truthiness of a string: only the empty string is falsy. *)
Definition truthy (s : jsstring) : bool :=
  match s with [] => false | _ => true end.

(** ** Math.random

    The [i]-th call of [Math.random()] returns [(tape i mod 2^53) / 2^53],
    a number of [[0, 1)]; the state counts the calls made so far. *)

Record RandState := { tape : nat → Z; calls : nat }.

Definition Gen (A : Type) : Type := RandState → A * RandState.

Definition gret {A} (a : A) : Gen A := λ r, (a, r).

Definition gbind {A B} (m : Gen A) (k : A → Gen B) : Gen B :=
  λ r, let '(a, r') := m r in k a r'.

Notation "'let*' x ':=' m 'in' k" := (gbind m (λ x, k))
  (at level 10, x name, m at level 100, k at level 200).

Definition two53 : Z := 9007199254740992%Z.

(** The double nearest to [p / 2^53], given as its multiple of [2^-53]:
    [p] rounded to 53 significant bits, a tie going to the even
    significand.  For [p = t * k] this is the product of the doubles
    [t / 2^53] and [k], which is their exact product rounded. *)
Definition round53 (p : Z) : Z :=
  let e := (Z.log2 p - 52)%Z in
  if (e <=? 0)%Z then p
  else
    let q := (p / 2 ^ e)%Z in
    let r := (p mod 2 ^ e)%Z in
    let half := (2 ^ (e - 1))%Z in
    let m := if (r <? half)%Z then q
             else if (half <? r)%Z then (q + 1)%Z
             else if Z.even q then q else (q + 1)%Z in
    (m * 2 ^ e)%Z.

(** [Math.floor(Math.random() * k)], for an integer [k] below [2^53]. *)
Definition random_floor (k : nat) : Gen nat :=
  λ r, (Z.to_nat (round53 ((tape r (calls r) mod two53) * Z.of_nat k) / two53),
        {| tape := tape r; calls := S (calls r) |}).

Module CCGenerator.

(** The body of the [for] loop, walking the string from its last
    character to its first. *)
Fixpoint luhn_loop (rev_chars : jsstring) (isOdd : bool) (sum : option nat)
  : option nat :=
  match rev_chars with
  | [] => sum
  | c :: rest =>
      let digit := parseInt_char c in
      let digit :=
        if isOdd then
          match digit with
          | Some d => let d2 := d * 2 in Some (if 9 <? d2 then d2 - 9 else d2)
          | None => None
          end
        else digit in
      let sum := match sum, digit with
                 | Some s, Some d => Some (s + d)
                 | _, _ => None
                 end in
      luhn_loop rest (negb isOdd) sum
  end.

Definition calculateLuhnCheckDigit (cardNumberWithoutCheck : jsstring)
  : option nat :=
  match luhn_loop (rev cardNumberWithoutCheck) true (Some 0) with
  | Some sum => Some ((10 - sum mod 10) mod 10)
  | None => None
  end.

Definition validateLuhn (cardNumber : jsstring) : bool :=
  let digits := List.filter is_digit cardNumber in
  if (length digits <? 13) || (19 <? length digits) then false
  else
    let withoutCheck := js_slice digits 0 (-1) in
    let checkDigit := parseInt_last (js_slice_from digits (-1)) in
    js_strict_eq (calculateLuhnCheckDigit withoutCheck) checkDigit.

Definition randomDigit : Gen jsstring :=
  let* d := random_floor 10 in gret (nat_toString d).

Record ParsedBin := {
  bin : jsstring;
  month : option jsstring;
  year : option jsstring
}.

Definition part_trim (p : option jsstring) : option jsstring :=
  match p with
  | Some s => if truthy s then Some (trim s) else None
  | None => None
  end.

Definition parseBinInput (binInput : jsstring) : ParsedBin :=
  let parts := split_on "|"%char binInput in
  {| bin := trim (default [] (parts !! 0));
     month := part_trim (parts !! 1);
     year := part_trim (parts !! 2) |}.

(** [s.replace(/x/g, () => this.randomDigit())]: one draw per match,
    left to right. *)
Fixpoint replace_x (s : jsstring) : Gen jsstring :=
  match s with
  | [] => gret []
  | c :: rest =>
      if Ascii.eqb c "x"%char then
        let* d := randomDigit in
        let* t := replace_x rest in
        gret (d ++ t)
      else
        let* t := replace_x rest in
        gret (c :: t)
  end.

(** The padding [while] loop; [fuel] bounds the iterations. *)
Fixpoint pad_loop (fuel : nat) (len : Z) (cardDigits : jsstring)
  : Gen jsstring :=
  match fuel with
  | 0 => gret cardDigits
  | S fuel' =>
      if (Z.of_nat (length cardDigits) <? len - 1)%Z then
        let* d := randomDigit in pad_loop fuel' len (cardDigits ++ d)
      else gret cardDigits
  end.

Definition generateCardNumber (binPattern : jsstring) (len : Z)
  : Gen jsstring :=
  let* cardDigits := replace_x (toLowerCase binPattern) in
  let* cardDigits := pad_loop (Z.to_nat len) len cardDigits in
  let cardDigits := js_slice cardDigits 0 (len - 1) in
  let checkDigit := calculateLuhnCheckDigit cardDigits in
  gret (cardDigits ++ jsnum_toString checkDigit).

Record Expiry := { exp_month : jsstring; exp_year : jsstring }.

(** [now.getFullYear()] and [now.getMonth() + 1] are the two inputs
    [currentYear] and [currentMonth]. *)
Definition generateExpiry (currentYear currentMonth : nat) : Gen Expiry :=
  let* r := random_floor 4 in
  let futureYears := r + 1 in
  let year := currentYear + futureYears in
  let* r := random_floor 12 in
  let month := r + 1 in
  let* month :=
    if (year =? currentYear) && (month <=? currentMonth) then
      let* r := random_floor (12 - currentMonth) in
      gret (currentMonth + r + 1)
    else gret month in
  gret {| exp_month := padStart0 2 (nat_toString month);
          exp_year := js_slice_from (nat_toString year) (-2) |}.

(** The [for] loop of [generateCVV]. *)
Fixpoint cvv_loop (n : nat) (cvv : jsstring) : Gen jsstring :=
  match n with
  | 0 => gret cvv
  | S n' => let* d := randomDigit in cvv_loop n' (cvv ++ d)
  end.

Definition generateCVV (len : nat) : Gen jsstring := cvv_loop len [].

Inductive CardType :=
  VISA | MASTERCARD | AMEX | DISCOVER | JCB | UNIONPAY | UNKNOWN.

Definition char_in (lo hi : ascii) (c : ascii) : bool :=
  (nat_of_ascii lo <=? nat_of_ascii c) && (nat_of_ascii c <=? nat_of_ascii hi).

Definition detectCardType (cardNumber : jsstring) : CardType :=
  let bin := js_slice (List.filter is_digit cardNumber) 0 6 in
  match bin with
  | "4"%char :: _ => VISA
  | _ =>
  if match bin with "5"%char :: c :: _ => char_in "1" "5" c | _ => false end
  then MASTERCARD else
  if match bin with
     | "3"%char :: c :: _ => Ascii.eqb c "4" || Ascii.eqb c "7"
     | _ => false end
  then AMEX else
  if match bin with
     | "6"%char :: "0"%char :: "1"%char :: "1"%char :: _ => true
     | "6"%char :: "5"%char :: _ => true
     | _ => false end
  then DISCOVER else
  if match bin with
     | "3"%char :: "5"%char :: "2"%char :: c :: _ =>
         Ascii.eqb c "8" || Ascii.eqb c "9"
     | "3"%char :: "5"%char :: c :: _ => char_in "3" "8" c
     | _ => false end
  then JCB else
  if match bin with "6"%char :: "2"%char :: _ => true | _ => false end
  then UNIONPAY else UNKNOWN
  end.

(** [s.replace(/(\d{4})/g, '$1 ')]: every run of four digits, scanned
    left to right without overlap, gets a space after it. *)
Fixpoint group4 (fuel : nat) (s : jsstring) : jsstring :=
  match fuel with
  | 0 => s
  | S fuel' =>
      match s with
      | a :: b :: c :: d :: rest =>
          if is_digit a && is_digit b && is_digit c && is_digit d
          then a :: b :: c :: d :: " "%char :: group4 fuel' rest
          else a :: group4 fuel' (b :: c :: d :: rest)
      | _ => s
      end
  end.

Record Formatted := { fmt_cardNumber : jsstring; fmt_expiry : jsstring }.

Record Card := {
  cardNumber : jsstring;
  cardType : CardType;
  expiry : Expiry;
  cvv : jsstring;
  formatted : Formatted
}.

Definition generate (currentYear currentMonth : nat) (binInput : jsstring)
  : Gen Card :=
  let parsed := parseBinInput binInput in
  let* cardNumber := generateCardNumber (bin parsed) 16 in
  let cardType := detectCardType cardNumber in
  let* expiry :=
    match month parsed, year parsed with
    | Some m, Some y =>
        if truthy m && truthy y then
          gret {| exp_month := padStart0 2 m;
                  exp_year := if length y =? 4 then js_slice_from y (-2)
                              else y |}
        else generateExpiry currentYear currentMonth
    | _, _ => generateExpiry currentYear currentMonth
    end in
  let cvvLength := match cardType with AMEX => 4 | _ => 3 end in
  let* cvv := generateCVV cvvLength in
  gret {| cardNumber := cardNumber;
          cardType := cardType;
          expiry := expiry;
          cvv := cvv;
          formatted :=
            {| fmt_cardNumber := trim (group4 (length cardNumber) cardNumber);
               fmt_expiry := exp_month expiry ++ str "/" ++ exp_year expiry |}
       |}.

End CCGenerator.

(** A sample run of [Math.random]. *)
Definition tape0 : RandState :=
  {| tape := λ i, (Z.of_nat i * 1234567890123457 + 77)%Z; calls := 0 |}.

(** [Math.random] returning the same number at every call. *)
Definition const_tape (z : Z) (n : nat) : RandState :=
  {| tape := λ _, z; calls := n |}.

(** A computation that only advances the call counter of a constant
    tape. *)
Definition const_closed {A} (m : Gen A) : Prop :=
  ∀ z n, ∃ n', snd (m (const_tape z n)) = const_tape z n'.

(** A string of decimal digits. *)
Definition all_digits (s : jsstring) : Prop :=
  Forall (λ c, is_digit c = true) s.

(** The characters of a BIN pattern: decimal digits and the wildcard. *)
Definition is_pattern_char (c : ascii) : bool :=
  is_digit c || Ascii.eqb c "x" || Ascii.eqb c "X".


(** ** The Luhn formula

    The formula as it is defined for card numbers, written down without
    looking at the code, to measure the code against: counting from the
    rightmost digit, which is the check digit, every second digit is
    doubled, and of a doubled digit that has two digits the two are
    added; the number is valid when the sum of all these is a multiple
    of 10.  The check digit of a number that lacks its last digit is the
    digit that makes the completed number valid. *)

Module LuhnSpec.

Definition digit_value (c : ascii) : nat := nat_of_ascii c - 48.

(** The digits of twice [d] added up. *)
Definition doubled (d : nat) : nat := (2 * d) / 10 + (2 * d) mod 10.

(** The sum over the digits read from the right: the first, third, ...
    as they are, the second, fourth, ... doubled. *)
Fixpoint sum_from_right (digits : list nat) : nat :=
  match digits with
  | [] => 0
  | [d] => d
  | d1 :: d2 :: rest => d1 + doubled d2 + sum_from_right rest
  end.

Definition valid (number : jsstring) : Prop :=
  Forall (λ c, is_digit c = true) number ∧
  sum_from_right (rev (map digit_value number)) mod 10 = 0.

Definition check_digit (payload : jsstring) (c : nat) : Prop :=
  c < 10 ∧ valid (payload ++ [digit_char c]).

End LuhnSpec.
(** ** Exceptions and state

    A computation over a state [S] that returns or throws; the state
    reached is kept in both cases, as side effects are in JavaScript. *)

Inductive Exc (A : Type) : Type :=
| Return (a : A)
| Throw (message : jsstring).
Arguments Return {A} a.
Arguments Throw {A} message.

Definition SE (S A : Type) : Type := S → Exc A * S.

Definition se_ret {S A} (a : A) : SE S A := λ s, (Return a, s).

Definition se_throw {S A} (message : jsstring) : SE S A :=
  λ s, (Throw message, s).

Definition se_bind {S A B} (m : SE S A) (k : A → SE S B) : SE S B :=
  λ s, match m s with
       | (Return a, s') => k a s'
       | (Throw e, s') => (Throw e, s')
       end.

(** [try { m } catch (e) { handler(e) }]. *)
Definition se_try {S A} (m : SE S A) (handler : jsstring → SE S A) : SE S A :=
  λ s, match m s with
       | (Return a, s') => (Return a, s')
       | (Throw e, s') => handler e s'
       end.

(** An awaited call whose outcome the environment decides. *)
Definition se_lift {S A} (r : Exc A) : SE S A := λ s, (r, s).

Definition se_modify {S} (f : S → S) : SE S unit := λ s, (Return tt, f s).

Definition se_get {S} : SE S S := λ s, (Return s, s).

Notation "'let!' x ':=' m 'in' k" := (se_bind m (λ x, k))
  (at level 10, x name, m at level 100, k at level 200).

Notation "m ';;' k" := (se_bind m (λ _, k))
  (at level 100, k at level 200, right associativity).

(** ** The Waiter: [waitForElement] and [waitForCondition]

    A document is the list of its elements in document order; an element
    carries the selectors it matches and its [offsetParent], which is
    [null] ([None]) when the element takes no part in the layout. *)

Module Waiter.

Record Element := {
  el_name : jsstring;
  el_matches : jsstring → bool;
  offsetParent : option jsstring
}.

Definition DOM : Type := list Element.

(** [document.querySelector(selector)]: the first match in document
    order. *)
Definition querySelector (selector : jsstring) (document : DOM)
  : option Element :=
  List.find (λ el, el_matches el selector) document.

(** [element && element.offsetParent !== null]. *)
Definition visible (selector : jsstring) (document : DOM) : option Element :=
  match querySelector selector document with
  | Some element =>
      match offsetParent element with
      | Some _ => Some element
      | None => None
      end
  | None => None
  end.

(** *** The MutationObserver variant *)

Inductive Target :=
| ForElement (selector : jsstring)
| ForCondition (conditionFn : DOM → bool).

Inductive Outcome :=
| Resolved (element : Element)
| ResolvedTrue
| Rejected (message : jsstring).

(** The promise: pending with its observer and timer, or settled. *)
Inductive Wait :=
| Pending (target : Target)
| Settled (outcome : Outcome).

(** The test made at the call and in every observer callback. *)
Definition check (target : Target) (document : DOM) : option Outcome :=
  match target with
  | ForElement selector => Resolved <$> visible selector document
  | ForCondition conditionFn =>
      if conditionFn document then Some ResolvedTrue else None
  end.

Definition timeout_error (target : Target) : jsstring :=
  match target with
  | ForElement selector => str "Element not found: " ++ selector
  | ForCondition _ => str "Timeout waiting for condition"
  end.

Definition start (target : Target) (document : DOM) : Wait :=
  match check target document with
  | Some outcome => Settled outcome
  | None => Pending target
  end.

Definition waitForElement (selector : jsstring) (document : DOM) : Wait :=
  start (ForElement selector) document.

Definition waitForCondition (conditionFn : DOM → bool) (document : DOM)
  : Wait :=
  start (ForCondition conditionFn) document.

(** The observer callback. *)
Definition on_mutation (document : DOM) (w : Wait) : Wait :=
  match w with
  | Pending target =>
      match check target document with
      | Some outcome => Settled outcome
      | None => w
      end
  | Settled _ => w
  end.

(** The [setTimeout] callback. *)
Definition on_timeout (w : Wait) : Wait :=
  match w with
  | Pending target => Settled (Rejected (timeout_error target))
  | Settled _ => w
  end.

(** What the host delivers to a wait. *)
Inductive Signal := Mutation (document : DOM) | Timeout.

Definition react (w : Wait) (sg : Signal) : Wait :=
  match sg with
  | Mutation document => on_mutation document w
  | Timeout => on_timeout w
  end.

Definition run_wait (w : Wait) (signals : list Signal) : Wait :=
  fold_left react signals w.

(** *** The polling variant

    [document_at t] is the document at time [t] (in ms); a timer set at
    time [t] for 200 ms fires at [t + 200 + late t]. *)

Record Clock := { document_at : nat → DOM; late : nat → nat }.

Fixpoint poll_loop (fuel : nat) (clock : Clock) (selector : jsstring)
    (timeout startTime now : nat) : option Outcome :=
  match fuel with
  | 0 => None
  | S fuel' =>
      if now - startTime <? timeout then
        match visible selector (document_at clock now) with
        | Some element => Some (Resolved element)
        | None =>
            poll_loop fuel' clock selector timeout startTime
              (now + 200 + late clock now)
        end
      else Some (Rejected (str "Element not found: " ++ selector))
  end.

Definition waitForElement_polling (clock : Clock) (selector : jsstring)
    (timeout startTime : nat) : option Outcome :=
  poll_loop (timeout / 200 + 2) clock selector timeout startTime startTime.

(** No element of these documents matches the selector and is laid
    out. *)
Definition none_ready (selector : jsstring) (documents : list DOM) : Prop :=
  ∀ document element,
    document ∈ documents → element ∈ document →
    el_matches element selector = true → offsetParent element = None.

Definition documents_of (signals : list Signal) : list DOM :=
  omap (λ sg, match sg with Mutation d => Some d | Timeout => None end)
       signals.

End Waiter.

(** ** The content script: [runAutomation] and the message listener

    [runAutomation] is an async function: between its suspension points
    other messages are handled.  An invocation is a [Task] that records
    where it is suspended together with the locals it has captured, and the
    host delivers [Event]s.  The three steps are awaited as one block,
    [StepsDone]: they read nothing of the shared state, their results come
    from the page. *)

Module Content.
Import CCGenerator.

(** The value of [success]: [true], [false], or ['partial'] as the
    MutationObserver variant of [stepFillPayment] returns it. *)
Inductive StepResult := RTrue | RFalse | RPartial.

Definition result_truthy (r : StepResult) : bool :=
  match r with RFalse => false | _ => true end.

Definition of_bool (b : bool) : StepResult := if b then RTrue else RFalse.

Record RunResult := {
  email : jsstring;
  res_cardNumber : jsstring;
  timestamp : jsstring;
  success : StepResult
}.

(** [adobeAutoSettings]; an absent property is [None].  The properties
    hold what the settings page and [runAutomation] write: strings, and
    for [currentEmailIndex] a non-negative integer, taken to stay below
    2^53, where [+ 1] and [%] on it are exact. *)
Record Settings := {
  s_bin : option jsstring;
  emailList : option jsstring;
  firstName : option jsstring;
  lastName : option jsstring;
  postalCode : option jsstring;
  currentEmailIndex : option nat
}.

Definition empty_settings : Settings :=
  {| s_bin := None; emailList := None; firstName := None;
     lastName := None; postalCode := None; currentEmailIndex := None |}.

(** [chrome.storage.local]. *)
Record Storage := {
  adobeAutoSettings : option Settings;
  adobeAutoResults : option (list RunResult)
}.

(** The [state] object of the content script. *)
Record Session := {
  isRunning : bool;
  currentStep : nat;
  currentEmail : option jsstring
}.

Inductive Step := StepFillEmail | StepClickContinue | StepFillPayment.

(** What the page lets the steps of one run do. *)
Record Page := {
  emailPanel : bool;
  paymentPanel : bool;
  fillEmail : bool;
  clickContinue : bool;
  fillPayment : StepResult
}.

(** [Math.random] and the date at card generation. *)
Record Env := {
  rand : RandState;
  nowYear : nat;
  nowMonth : nat
}.

Record FormData := {
  fd_firstName : jsstring; fd_lastName : jsstring; fd_postalCode : jsstring
}.

Inductive Task :=
| AwaitSettings
| InSteps (settings : Settings) (currentEmailIndex : nat)
          (email : jsstring) (cardData : Card) (formData : FormData)
| AwaitResults (settings : Settings) (currentEmailIndex : nat)
               (result : RunResult)
| Finished.

Record Status := { st_step : nat; st_message : jsstring; st_isError : bool }.

Record World := {
  session : Session;
  storage : Storage;
  tasks : list Task;
  (** instrumentation: the steps called and the statuses sent, in order *)
  steps_run : list Step;
  statuses : list Status;
  (** the promises of [waitForElement] and [waitForCondition] that the
      steps have created *)
  waits : list Waiter.Wait
}.

(** [x || d] on an optional string. *)
Definition or_str (x : option jsstring) (d : jsstring) : jsstring :=
  match x with
  | Some s => if truthy s then s else d
  | None => d
  end.

(** [(settings.emailList || '').split('\n').filter(e => e.trim())]. *)
Definition emails_of (settings : Settings) : list jsstring :=
  List.filter (λ e, truthy (trim e))
    (split_on "010"%char (or_str (emailList settings) [])).

(** [results.unshift(result); results.slice(0, 100)]. *)
Definition record (result : RunResult) (results : option (list RunResult))
  : list RunResult :=
  take 100 (result :: default [] results).

Definition updateStatus (step : nat) (message : jsstring) (isError : bool)
    (w : World) : World :=
  {| session := {| isRunning := isRunning (session w);
                   currentStep := step;
                   currentEmail := currentEmail (session w) |};
     storage := storage w;
     tasks := tasks w;
     steps_run := steps_run w;
     statuses := statuses w ++
       [{| st_step := step; st_message := message; st_isError := isError |}];
     waits := waits w |}.

Definition set_isRunning (b : bool) (w : World) : World :=
  {| session := {| isRunning := b;
                   currentStep := currentStep (session w);
                   currentEmail := currentEmail (session w) |};
     storage := storage w; tasks := tasks w;
     steps_run := steps_run w; statuses := statuses w;
     waits := waits w |}.

Definition set_currentEmail (e : jsstring) (w : World) : World :=
  {| session := {| isRunning := isRunning (session w);
                   currentStep := currentStep (session w);
                   currentEmail := Some e |};
     storage := storage w; tasks := tasks w;
     steps_run := steps_run w; statuses := statuses w;
     waits := waits w |}.

Definition set_task (i : nat) (t : Task) (w : World) : World :=
  {| session := session w; storage := storage w;
     tasks := <[i := t]> (tasks w);
     steps_run := steps_run w; statuses := statuses w;
     waits := waits w |}.

Definition spawn (t : Task) (w : World) : World :=
  {| session := session w; storage := storage w;
     tasks := tasks w ++ [t];
     steps_run := steps_run w; statuses := statuses w;
     waits := waits w |}.

Definition set_storage (st : Storage) (w : World) : World :=
  {| session := session w; storage := st; tasks := tasks w;
     steps_run := steps_run w; statuses := statuses w;
     waits := waits w |}.

(** A step is called: it reports under its own number. *)
Definition call_step (s : Step) (w : World) : World :=
  let n := match s with
           | StepFillEmail => 1 | StepClickContinue => 2
           | StepFillPayment => 3 end in
  {| session := {| isRunning := isRunning (session w);
                   currentStep := n;
                   currentEmail := currentEmail (session w) |};
     storage := storage w; tasks := tasks w;
     steps_run := steps_run w ++ [s]; statuses := statuses w;
     waits := waits w |}.

Definition set_waits (ws : list Waiter.Wait) (w : World) : World :=
  {| session := session w; storage := storage w; tasks := tasks w;
     steps_run := steps_run w; statuses := statuses w; waits := ws |}.

(** [runAutomation] up to its first [await]. *)
Definition runAutomation_start (w : World) : World :=
  if isRunning (session w) then w
  else spawn AwaitSettings (set_isRunning true w).

(** From the loaded settings to the first step. *)
Definition runAutomation_loaded (i : nat) (env : Env) (w : World) : World :=
  let settings := default empty_settings (adobeAutoSettings (storage w)) in
  let emails := emails_of settings in
  let bin := or_str (s_bin settings) (str "4537890000000000") in
  let formData :=
    {| fd_firstName := or_str (firstName settings) (str "John");
       fd_lastName := or_str (lastName settings) (str "Smith");
       fd_postalCode := or_str (postalCode settings) (str "SW1A 1AA") |} in
  if length emails =? 0 then
    set_task i Finished
      (set_isRunning false
         (updateStatus 0 (str "No emails configured!") true w))
  else
    let currentEmailIndex := default 0 (currentEmailIndex settings) in
    let email := default [] (emails !! (currentEmailIndex mod length emails)) in
    let cardData := fst (generate (nowYear env) (nowMonth env) bin (rand env)) in
    set_task i (InSteps settings currentEmailIndex email cardData formData)
      (set_currentEmail email w).

(** The steps, the result, and the call of [storage.local.get]. *)
Definition runAutomation_steps (i : nat) (page : Page) (iso : jsstring)
    (settings : Settings) (currentEmailIndex : nat) (email : jsstring)
    (cardData : Card) (w : World) : World :=
  let '(success, w) :=
    if emailPanel page then
      let w := call_step StepFillEmail w in
      if fillEmail page then
        (of_bool (clickContinue page), call_step StepClickContinue w)
      else (RFalse, w)
    else (RTrue, w) in
  let '(success, w) :=
    if paymentPanel page || result_truthy success then
      let w := call_step StepFillPayment w in
      let success := fillPayment page in
      if result_truthy success then
        (success,
         updateStatus 4 (str "Ready - Click Start Trial manually") false w)
      else (success, w)
    else (success, w) in
  let result :=
    {| email := email;
       res_cardNumber := js_slice_from (cardNumber cardData) (-4);
       timestamp := iso;
       success := success |} in
  set_isRunning false
    (set_task i (AwaitResults settings currentEmailIndex result) w).

(** The callback of [storage.local.get(['adobeAutoResults'])]. *)
Definition runAutomation_save (i : nat) (settings : Settings)
    (currentEmailIndex : nat) (result : RunResult) (w : World) : World :=
  let results := adobeAutoResults (storage w) in
  set_task i Finished
    (set_storage
       {| adobeAutoResults := Some (record result results);
          adobeAutoSettings :=
            Some {| s_bin := s_bin settings;
                    emailList := emailList settings;
                    firstName := firstName settings;
                    lastName := lastName settings;
                    postalCode := postalCode settings;
                    currentEmailIndex := Some (currentEmailIndex + 1) |} |}
       w).

Inductive Event :=
| Start                                   (* START_AUTOMATION, or the Start button *)
| Stop                                    (* STOP_AUTOMATION *)
| SettingsLoaded (i : nat) (env : Env)    (* task [i] gets its settings *)
| StepsDone (i : nat) (page : Page) (iso : jsstring)
| ResultsLoaded (i : nat)
| WaitStarted (target : Waiter.Target) (document : Waiter.DOM)
                                          (* a step calls the Waiter *)
| DomMutated (document : Waiter.DOM)      (* the observer callbacks run *)
| TimerFired (j : nat)                    (* the timeout of wait [j] *)
| SaveSettings (s : Settings)             (* settings page: save or import *)
| ClearResults                            (* settings page *)
| Installed.                              (* background: onInstalled *)

Definition handle (ev : Event) (w : World) : World :=
  match ev with
  | Start => runAutomation_start w
  | Stop => updateStatus 0 (str "Stopped") false (set_isRunning false w)
  | SettingsLoaded i env =>
      match tasks w !! i with
      | Some AwaitSettings => runAutomation_loaded i env w
      | _ => w
      end
  | StepsDone i page iso =>
      match tasks w !! i with
      | Some (InSteps settings idx email cardData _) =>
          runAutomation_steps i page iso settings idx email cardData w
      | _ => w
      end
  | ResultsLoaded i =>
      match tasks w !! i with
      | Some (AwaitResults settings idx result) =>
          runAutomation_save i settings idx result w
      | _ => w
      end
  | WaitStarted target document =>
      set_waits (waits w ++ [Waiter.start target document]) w
  | DomMutated document =>
      set_waits (Waiter.on_mutation document <$> waits w) w
  | TimerFired j =>
      set_waits (alter Waiter.on_timeout j (waits w)) w
  | SaveSettings s =>
      set_storage {| adobeAutoSettings := Some s;
                     adobeAutoResults := adobeAutoResults (storage w) |} w
  | ClearResults =>
      set_storage {| adobeAutoSettings := adobeAutoSettings (storage w);
                     adobeAutoResults := Some [] |} w
  | Installed =>
      match adobeAutoSettings (storage w) with
      | Some _ => w
      | None =>
          set_storage
            {| adobeAutoSettings :=
                 Some {| s_bin := Some (str "4537890000000xxx");
                         emailList := Some [];
                         firstName := Some (str "John");
                         lastName := Some (str "Smith");
                         postalCode := Some (str "SW1A 1AA");
                         currentEmailIndex := Some 0 |};
               adobeAutoResults := Some [] |} w
      end
  end.

Definition run_events (evs : list Event) (w : World) : World :=
  fold_left (λ w ev, handle ev w) evs w.

(** One run from start to the saved result, nothing else in between. *)
Definition complete_run (env : Env) (page : Page) (iso : jsstring)
    (w : World) : World :=
  let i := length (tasks w) in
  run_events [Start; SettingsLoaded i env; StepsDone i page iso;
              ResultsLoaded i] w.

Definition complete_runs (runs : list (Env * Page * jsstring)) (w : World)
  : World :=
  fold_left (λ w '(env, page, iso), complete_run env page iso w) runs w.

(** The persisted cursor and ledger. *)
Definition cursor (w : World) : nat :=
  default 0 (currentEmailIndex
               (default empty_settings (adobeAutoSettings (storage w)))).

Definition ledger (w : World) : list RunResult :=
  default [] (adobeAutoResults (storage w)).

Definition identifiers (w : World) : list jsstring :=
  emails_of (default empty_settings (adobeAutoSettings (storage w))).

Definition idle (w : World) : Prop :=
  isRunning (session w) = false.

(** The waits evolve on their own: no handler reads anything else to
    update them. *)
Definition waits_after (ev : Event) (ws : list Waiter.Wait)
  : list Waiter.Wait :=
  match ev with
  | WaitStarted target document => ws ++ [Waiter.start target document]
  | DomMutated document => Waiter.on_mutation document <$> ws
  | TimerFired j => alter Waiter.on_timeout j ws
  | _ => ws
  end.

(** What one run records, read off the page and the stored settings. *)
Definition run_success (page : Page) : StepResult :=
  let s1 := if emailPanel page then
              if fillEmail page then of_bool (clickContinue page) else RFalse
            else RTrue in
  if paymentPanel page || result_truthy s1 then fillPayment page else s1.

Definition run_email (w : World) : jsstring :=
  default [] (identifiers w !! (cursor w mod length (identifiers w))).

Definition run_result (env : Env) (page : Page) (iso : jsstring) (w : World)
  : RunResult :=
  let settings := default empty_settings (adobeAutoSettings (storage w)) in
  let bin := or_str (s_bin settings) (str "4537890000000000") in
  {| email := run_email w;
     res_cardNumber :=
       js_slice_from
         (cardNumber (fst (generate (nowYear env) (nowMonth env) bin (rand env))))
         (-4);
     timestamp := iso;
     success := run_success page |}.

End Content.
(** ** Step 3 of the content script: [stepFillPayment]

    The page decides what each lookup and each injection does; the step
    is a computation over its two locals and the statuses it reports. *)

Module Step3.
Import Content.

(** [typeText] / [setInputValue] on a located control: the value is there
    afterwards, or the control is left empty, or the call throws. *)
Inductive Fill := FillOk | FillEmpty | FillThrows (message : jsstring).

(** The card number control: found in the document; or an iframe whose
    document is reachable, with or without the control inside; or no
    reachable iframe document; or the lookup throws. *)
Inductive CardAccess :=
| CardDirect (f : Fill)
| CardIframe (inner : option Fill)
| CardBlocked
| CardThrows (message : jsstring).

(** [await waitForElement(selector, 5000).catch(() => null)]. *)
Inductive Located := Missing | Present (f : Fill).

Record PaymentPage := {
  panelActive : bool;
  card : CardAccess;
  expiryField : Located;
  firstNameField : Located;
  lastNameField : Located;
  postalCodeField : Located
}.

Inductive Field := CardNumber | Expiry | FirstName | LastName | PostalCode.

Record Locals := {
  failedFields : list jsstring;
  allFieldsFilled : bool;
  (** instrumentation: the statuses reported and the fields looked up *)
  reported : list Status;
  attempts : list Field
}.

Definition updateStatus (step : nat) (message : jsstring) (isError : bool)
  : SE Locals unit :=
  se_modify (λ l, {| failedFields := failedFields l;
                     allFieldsFilled := allFieldsFilled l;
                     reported := reported l ++
                       [{| st_step := step; st_message := message;
                           st_isError := isError |}];
                     attempts := attempts l |}).

(** [failedFields.push(name); allFieldsFilled = false]. *)
Definition fail (name : jsstring) : SE Locals unit :=
  se_modify (λ l, {| failedFields := failedFields l ++ [name];
                     allFieldsFilled := false;
                     reported := reported l;
                     attempts := attempts l |}).

Definition lookup_field (f : Field) : SE Locals unit :=
  se_modify (λ l, {| failedFields := failedFields l;
                     allFieldsFilled := allFieldsFilled l;
                     reported := reported l;
                     attempts := attempts l ++ [f] |}).

(** The boolean [typeText] and [setInputValue] return. *)
Definition inject (f : Fill) : SE Locals bool :=
  match f with
  | FillOk => se_ret true
  | FillEmpty => se_ret false
  | FillThrows e => se_throw e
  end.

(** [xs.join(sep)]. *)
Fixpoint join (sep : jsstring) (xs : list jsstring) : jsstring :=
  match xs with
  | [] => []
  | [x] => x
  | x :: rest => x ++ sep ++ join sep rest
  end.

(** One of the four blocks after the card number. *)
Definition fill_located (field : Field) (name : jsstring) (l : Located)
  : SE Locals unit :=
  lookup_field field ;;
  match l with
  | Present f =>
      let! success := inject f in
      if success then se_ret tt else fail name
  | Missing => se_ret tt
  end.

(** [SELECTORS.paymentPanel + '.CheckoutWizardStep__active__YuSs3']. *)
Definition paymentPanelSelector : jsstring :=
  str "[data-testid=" ++ ["034"%char] ++
  str "checkout-wizard-step-panel-payment" ++ ["034"%char] ++
  str "].CheckoutWizardStep__active__YuSs3".

Definition stepFillPayment_body (page : PaymentPage) (cardNumber : jsstring)
  : SE Locals bool :=
  updateStatus 3 (str "Waiting for payment form...") false ;;
  se_try
    ((if panelActive page then se_ret tt
      else se_throw (str "Element not found: " ++ paymentPanelSelector)) ;;
     se_try
       (updateStatus 3 (str "Filling card number...") false ;;
        lookup_field CardNumber ;;
        match card page with
        | CardDirect f =>
            let! success := inject f in
            if success then se_ret tt else fail (str "Card number")
        | CardIframe (Some f) =>
            let! success := inject f in
            if success then se_ret tt else fail (str "Card number (iframe)")
        | CardIframe None => se_ret tt
        | CardBlocked =>
            updateStatus 3 (str "Card in iframe - copy: " ++ cardNumber) false ;;
            fail (str "Card number (iframe blocked)")
        | CardThrows e => se_throw e
        end)
       (λ e, fail (str "Card number")) ;;
     updateStatus 3 (str "Filling expiry date...") false ;;
     fill_located Expiry (str "Expiry") (expiryField page) ;;
     updateStatus 3 (str "Filling first name...") false ;;
     fill_located FirstName (str "First name") (firstNameField page) ;;
     updateStatus 3 (str "Filling last name...") false ;;
     fill_located LastName (str "Last name") (lastNameField page) ;;
     updateStatus 3 (str "Filling postal code...") false ;;
     fill_located PostalCode (str "Postal code") (postalCodeField page) ;;
     let! l := se_get in
     if negb (allFieldsFilled l) then
       updateStatus 3 (str "Failed: " ++ join (str ", ") (failedFields l)) true ;;
       se_ret false
     else
       updateStatus 3 (str "Payment info filled ✓") false ;;
       se_ret true)
    (λ error,
       updateStatus 3 (str "Error: " ++ error) true ;;
       se_ret false).

Definition stepFillPayment (page : PaymentPage) (cardNumber : jsstring)
  : Exc bool * Locals :=
  stepFillPayment_body page cardNumber
    {| failedFields := []; allFieldsFilled := true;
       reported := []; attempts := [] |}.

(** *** What the page says about each field *)

Definition throws (l : Located) : bool :=
  match l with Present (FillThrows _) => true | _ => false end.

(** The fields looked up after the card number: a block is reached
    unless an earlier injection has thrown. *)
Definition later_attempts (page : PaymentPage) : list Field :=
  Expiry ::
  if throws (expiryField page) then [] else
  FirstName ::
  if throws (firstNameField page) then [] else
  LastName ::
  if throws (lastNameField page) then [] else
  [PostalCode].

Definition no_later_throw (page : PaymentPage) : bool :=
  negb (throws (expiryField page)) && negb (throws (firstNameField page)) &&
  negb (throws (lastNameField page)) && negb (throws (postalCodeField page)).

(** The name under which the card number is reported, if it is. *)
Definition card_failure (c : CardAccess) : list jsstring :=
  match c with
  | CardDirect FillOk => []
  | CardDirect _ => [str "Card number"]
  | CardIframe (Some FillOk) => []
  | CardIframe (Some FillEmpty) => [str "Card number (iframe)"]
  | CardIframe (Some (FillThrows _)) => [str "Card number"]
  | CardIframe None => []
  | CardBlocked => [str "Card number (iframe blocked)"]
  | CardThrows _ => [str "Card number"]
  end.

(** A located control whose value is empty after the injection. *)
Definition left_empty (name : jsstring) (l : Located) : list jsstring :=
  match l with Present FillEmpty => [name] | _ => [] end.

Definition reported_failures (page : PaymentPage) : list jsstring :=
  card_failure (card page) ++
  left_empty (str "Expiry") (expiryField page) ++
  left_empty (str "First name") (firstNameField page) ++
  left_empty (str "Last name") (lastNameField page) ++
  left_empty (str "Postal code") (postalCodeField page).

(** The field holds its value when the step is over. *)
Definition filled (page : PaymentPage) (f : Field) : bool :=
  let located l := match l with Present FillOk => true | _ => false end in
  match f with
  | CardNumber =>
      match card page with
      | CardDirect FillOk | CardIframe (Some FillOk) => true
      | _ => false
      end
  | Expiry => located (expiryField page)
  | FirstName => located (firstNameField page)
  | LastName => located (lastNameField page)
  | PostalCode => located (postalCodeField page)
  end.

Definition with_card (c : CardAccess) (page : PaymentPage) : PaymentPage :=
  {| panelActive := panelActive page; card := c;
     expiryField := expiryField page;
     firstNameField := firstNameField page;
     lastNameField := lastNameField page;
     postalCodeField := postalCodeField page |}.

End Step3.
(** ** The background service worker: the debugger bridge *)

Module Bridge.

Record Frame := {
  id : jsstring;
  parentId : option jsstring;
  url : jsstring
}.

(** [Page.getFrameTree]: a frame and its [childFrames] (absent when
    there are none). *)
Inductive FrameTree := Node (frame : Frame) (childFrames : list FrameTree).

(** [frames.push(...getAllFrames(child))] for each child in turn. *)
Fixpoint getAllFrames (frameTree : FrameTree) : list Frame :=
  match frameTree with
  | Node frame childFrames =>
      fold_left (λ frames child, frames ++ getAllFrames child)
                childFrames [frame]
  end.

(** What the injected script returns by value: [{found: true, value}],
    [{found: false}], or nothing usable. *)
Inductive EvalValue :=
| Found (value : jsstring)
| NotFound
| NoValue.

(** The script built from the selector and the value. *)
Record Script := { sc_selector : jsstring; sc_value : jsstring }.

(** The answers of the [chrome.debugger] API. *)
Record Chrome := {
  attach : nat → Exc unit;
  getFrameTree : nat → Exc FrameTree;
  createIsolatedWorld : nat → jsstring → Exc nat;
  evaluate : nat → nat → Script → Exc EvalValue
}.

(** Instrumentation: the API calls made, in order. *)
Inductive Call :=
| CallAttach (tabId : nat) (attached : bool)
| CallDetach (tabId : nat)
| CallGetFrameTree (tabId : nat)
| CallCreateIsolatedWorld (tabId : nat) (frameId : jsstring)
| CallEvaluate (tabId : nat) (contextId : nat)
| DetachedEvent (tabId : nat).

Record State := {
  debuggerSessions : gmap nat bool;
  calls : list Call
}.

Definition log (c : Call) : SE State unit :=
  se_modify (λ s, {| debuggerSessions := debuggerSessions s;
                     calls := calls s ++ [c] |}).

Definition has (tabId : nat) : SE State bool :=
  λ s, (Return (bool_decide (is_Some (debuggerSessions s !! tabId))), s).

Definition set_session (tabId : nat) : SE State unit :=
  se_modify (λ s, {| debuggerSessions := <[tabId := true]> (debuggerSessions s);
                     calls := calls s |}).

Definition delete_session (tabId : nat) : SE State unit :=
  se_modify (λ s, {| debuggerSessions := delete tabId (debuggerSessions s);
                     calls := calls s |}).

Definition is_return {A} (r : Exc A) : bool :=
  match r with Return _ => true | Throw _ => false end.

Definition attachDebugger (chrome : Chrome) (tabId : nat) : SE State bool :=
  let! attached := has tabId in
  if attached then se_ret true
  else
    se_try
      (log (CallAttach tabId (is_return (attach chrome tabId))) ;;
       se_lift (attach chrome tabId) ;;
       set_session tabId ;;
       se_ret true)
      (λ err, se_throw err).

Definition detachDebugger (tabId : nat) : SE State unit :=
  let! attached := has tabId in
  if attached then
    log (CallDetach tabId) ;;
    delete_session tabId
  else se_ret tt.

(** [chrome.debugger.onDetach]: a tab id of 0 is falsy. *)
Definition onDetach (tabId : nat) : SE State unit :=
  log (DetachedEvent tabId) ;;
  if tabId =? 0 then se_ret tt else delete_session tabId.

Definition sendDebuggerCommand {A} (c : Call) (answer : Exc A) : SE State A :=
  se_try (log c ;; se_lift answer) (λ err, se_throw err).

Inductive Response :=
| Success (frameId : jsstring) (value : jsstring)
| Failure (error : jsstring).

(** The body of the [for] loop over the frames: [Some] is the [return]
    out of the loop. *)
Definition try_frame (chrome : Chrome) (tabId : nat) (script : Script)
    (frame : Frame) : SE State (option Response) :=
  se_try
    (let! executionContextId :=
       sendDebuggerCommand (CallCreateIsolatedWorld tabId (id frame))
         (createIsolatedWorld chrome tabId (id frame)) in
     let! result :=
       sendDebuggerCommand (CallEvaluate tabId executionContextId)
         (evaluate chrome tabId executionContextId script) in
     match result with
     | Found value => se_ret (Some (Success (id frame) value))
     | _ => se_ret None
     end)
    (λ frameErr, se_ret None).

Fixpoint frames_loop (chrome : Chrome) (tabId : nat) (script : Script)
    (frames : list Frame) : SE State (option Response) :=
  match frames with
  | [] => se_ret None
  | frame :: rest =>
      let! r := try_frame chrome tabId script frame in
      match r with
      | Some response => se_ret (Some response)
      | None => frames_loop chrome tabId script rest
      end
  end.

Definition fillIframeField (chrome : Chrome) (tabId : nat)
    (selector value : jsstring) : SE State Response :=
  se_try
    (attachDebugger chrome tabId ;;
     let! frameTree :=
       sendDebuggerCommand (CallGetFrameTree tabId)
         (getFrameTree chrome tabId) in
     let frames := getAllFrames frameTree in
     let! r := frames_loop chrome tabId
                 {| sc_selector := selector; sc_value := value |} frames in
     match r with
     | Some response => se_ret response
     | None => se_ret (Failure (str "Input not found in any frame"))
     end)
    (λ err, se_ret (Failure err)).

(** The frame ids the fill has tried, read off the calls. *)
Definition attempted (cs : list Call) : list jsstring :=
  omap (λ c, match c with
             | CallCreateIsolatedWorld _ frameId => Some frameId
             | _ => None
             end) cs.

(** Depth-first, root first, as the specification words it. *)
Fixpoint preorder (t : FrameTree) : list Frame :=
  match t with
  | Node frame children => frame :: concat (map preorder children)
  end.

(** The value a frame yields when its world is created and the script
    finds the control. *)
Definition yields (chrome : Chrome) (tabId : nat) (script : Script)
    (frame : Frame) : option jsstring :=
  match createIsolatedWorld chrome tabId (id frame) with
  | Return ctx =>
      match evaluate chrome tabId ctx script with
      | Return (Found value) => Some value
      | _ => None
      end
  | Throw _ => None
  end.

(** The sessions Chrome holds for a tab according to the calls made: a
    successful attach opens one, a detach or a detached event closes
    it. *)
Fixpoint live (cs : list Call) (tabId : nat) (n : nat) : nat :=
  match cs with
  | [] => n
  | CallAttach t true :: rest =>
      live rest tabId (if t =? tabId then S n else n)
  | CallDetach t :: rest | DetachedEvent t :: rest =>
      live rest tabId (if t =? tabId then 0 else n)
  | _ :: rest => live rest tabId n
  end.

(** The outcome of the loop over an ordered list of frames. *)
Inductive loop_outcome (chrome : Chrome) (tabId : nat) (script : Script)
    (frames : list Frame) : option Response → list jsstring → Prop :=
| loop_found k frame value :
    frames !! k = Some frame →
    yields chrome tabId script frame = Some value →
    (∀ j g, j < k → frames !! j = Some g →
            yields chrome tabId script g = None) →
    loop_outcome chrome tabId script frames
      (Some (Success (id frame) value)) (id <$> take (S k) frames)
| loop_exhausted :
    (∀ j g, frames !! j = Some g → yields chrome tabId script g = None) →
    loop_outcome chrome tabId script frames None (id <$> frames).

(** Chrome holds at most one session for a tab, and only for a tab the
    bookkeeping knows. *)
Definition sessions_ok (s : State) : Prop :=
  ∀ tabId, live (calls s) tabId 0 ≤ 1 ∧
           (live (calls s) tabId 0 = 1 → is_Some (debuggerSessions s !! tabId)).

Definition preserves {A} (m : SE State A) : Prop :=
  ∀ s, sessions_ok s → sessions_ok (snd (m s)).

(** The operations of the bridge on its bookkeeping. *)
Inductive Op :=
| OpAttach (chrome : Chrome) (tabId : nat)
| OpDetach (tabId : nat)
| OpOnDetach (tabId : nat)
| OpFill (chrome : Chrome) (tabId : nat) (selector value : jsstring).

Definition run_op (op : Op) (s : State) : State :=
  match op with
  | OpAttach chrome tabId => snd (attachDebugger chrome tabId s)
  | OpDetach tabId => snd (detachDebugger tabId s)
  | OpOnDetach tabId => snd (onDetach tabId s)
  | OpFill chrome tabId selector value =>
      snd (fillIframeField chrome tabId selector value s)
  end.

Definition run_ops (ops : list Op) (s : State) : State :=
  fold_left (λ s op, run_op op s) ops s.

Definition init : State := {| debuggerSessions := ∅; calls := [] |}.

End Bridge.
(** ** More of the generator: batches, and the Luhn sum of a full number *)

Module CCBatch.
Import CCGenerator.

(** The [for] loop of [generateBatch]; the date is read by every call of
    [generate] and is taken not to change during the batch. *)
Fixpoint batch_loop (currentYear currentMonth : nat) (binInput : jsstring)
    (n : nat) (cards : list Card) : Gen (list Card) :=
  match n with
  | 0 => gret cards
  | S n' =>
      let* card := generate currentYear currentMonth binInput in
      batch_loop currentYear currentMonth binInput n' (cards ++ [card])
  end.

Definition generateBatch (currentYear currentMonth : nat)
    (binInput : jsstring) (count : nat) : Gen (list Card) :=
  batch_loop currentYear currentMonth binInput count [].

(** What the loop of [calculateLuhnCheckDigit] adds for one digit. *)
Definition luhn_digit (isOdd : bool) (d : nat) : nat :=
  if isOdd then (if 9 <? d * 2 then d * 2 - 9 else d * 2) else d.

(** The Luhn sum of a complete number: the loop of
    [calculateLuhnCheckDigit] run over all the digits, the last one taken
    as it is and every second one from there doubled. *)
Definition luhn_total (cardNumber : jsstring) : option nat :=
  luhn_loop (rev cardNumber) false (Some 0).

End CCBatch.
(** ** More of the content script and of the settings page *)

Module ContentMore.
Import Content.

(** An invocation of [runAutomation] that has not yet left its steps. *)
Definition active (t : Task) : bool :=
  match t with
  | AwaitSettings | InSteps _ _ _ _ _ => true
  | AwaitResults _ _ _ | Finished => false
  end.

Definition active_count (w : World) : nat :=
  length (List.filter active (tasks w)).

(** The guard and the invocations agree. *)
Definition guard_ok (w : World) : Prop :=
  active_count w = if isRunning (session w) then 1 else 0.

Definition is_stop (ev : Event) : bool :=
  match ev with Stop => true | _ => false end.

(** [saveSettings] of the settings page, from the values of its five
    inputs. *)
Definition saveSettings (binInput emailListInput firstNameInput lastNameInput
    postalCodeInput : jsstring) : Settings :=
  {| s_bin := Some (trim binInput);
     emailList := Some emailListInput;
     firstName := Some (trim firstNameInput);
     lastName := Some (trim lastNameInput);
     postalCode := Some (trim postalCodeInput);
     currentEmailIndex := Some 0 |}.

(** The count shown by [updateEmailCount]. *)
Definition updateEmailCount (emailListInput : jsstring) : nat :=
  length (List.filter (λ e, truthy (trim e))
            (split_on "010"%char emailListInput)).

(** The identifiers written one per line. *)
Fixpoint lines (xs : list jsstring) : jsstring :=
  match xs with
  | [] => []
  | [x] => x
  | x :: rest => x ++ "010"%char :: lines rest
  end.

(** The identifier a run started with cursor [c] uses. *)
Definition identifier_at (w : World) (c : nat) : jsstring :=
  default [] (identifiers w !! (c mod length (identifiers w))).

(** [{ ...settings, currentEmailIndex: n }]. *)
Definition with_index (settings : Settings) (n : nat) : Settings :=
  {| s_bin := s_bin settings; emailList := emailList settings;
     firstName := firstName settings; lastName := lastName settings;
     postalCode := postalCode settings; currentEmailIndex := Some n |}.

(** The card number a run started in [w] generates. *)
Definition run_cardNumber (env : Env) (w : World) : jsstring :=
  CCGenerator.cardNumber
    (fst (CCGenerator.generate (nowYear env) (nowMonth env)
            (or_str (s_bin (default empty_settings (adobeAutoSettings (storage w))))
                    (str "4537890000000000"))
            (rand env))).

(** What a step returns on this page. *)
Definition step_outcome (page : Page) (s : Step) : StepResult :=
  match s with
  | StepFillEmail => of_bool (fillEmail page)
  | StepClickContinue => of_bool (clickContinue page)
  | StepFillPayment => fillPayment page
  end.

(** The status [runAutomation] itself sends after step 3. *)
Definition ready_status : Status :=
  {| st_step := 4; st_message := str "Ready - Click Start Trial manually";
     st_isError := false |}.

(** A world in which invocation 0 is about to run its steps. *)
Definition in_steps (env : Env) (w : World) : World :=
  run_events [Start; SettingsLoaded (length (tasks w)) env] w.

End ContentMore.
(** ** More of the bridge *)

Module BridgeMore.
Import Bridge.

Definition is_attach_call (c : Call) : bool :=
  match c with CallAttach _ _ => true | _ => false end.

(** A computation that leaves the bookkeeping alone and makes no attach
    call. *)
Definition quiet {A} (m : SE State A) : Prop :=
  ∀ s, debuggerSessions (snd (m s)) = debuggerSessions s ∧
       ∃ extra, calls (snd (m s)) = calls s ++ extra ∧
                Forall (λ c, is_attach_call c = false) extra.

(** Chrome attaching, but failing to read the frame tree. *)
Definition chrome_no_tree : Chrome :=
  {| attach := λ _, Return tt;
     getFrameTree := λ _, Throw (str "Target closed");
     createIsolatedWorld := λ _ _, Throw (str "Target closed");
     evaluate := λ _ _ _, Throw (str "Target closed") |}.

End BridgeMore.

(** ** More of step 3 *)

Module Step3More.
Import Content Step3.

(** A computation that only adds to the statuses reported. *)
Definition grows {A} (m : SE Locals A) : Prop :=
  ∀ s, ∃ rest, reported (snd (m s)) = reported s ++ rest.

End Step3More.
(** ** Steps 1 and 2 of the content script and their helpers

    [typeText], [setInputValue], [clickElement], [stepFillEmail] and
    [stepClickContinue] of the polling content script.  A helper acts on
    one control; what it does to the page is kept as a trace, and the
    listeners of the page decide how the value of the control changes
    when an event is dispatched or time passes. *)

Module Steps.
Import Content.

Inductive EventType :=
| EvInput | EvChange | EvBlur | EvMouseDown | EvMouseUp | EvClick.

Inductive Action :=
| Focus
| SetValue (v : jsstring)
| Dispatch (e : EventType)
| ScrollIntoView
| Delay (ms : nat)
| Report (status : Status).

(** The controls are input elements holding text.  Setting the value
    of an input runs the value sanitization of its type: line breaks are
    stripped, and for an email input leading and trailing ASCII white
    space as well. *)
Inductive InputType := TextInput | EmailInput.

Definition is_newline (c : ascii) : bool :=
  (nat_of_ascii c =? 10) || (nat_of_ascii c =? 13).

Definition is_ascii_whitespace (c : ascii) : bool :=
  let n := nat_of_ascii c in
  (n =? 9) || (n =? 10) || (n =? 12) || (n =? 13) || (n =? 32).

Definition strip_newlines (v : jsstring) : jsstring :=
  List.filter (λ c, negb (is_newline c)) v.

Fixpoint strip_leading (v : jsstring) : jsstring :=
  match v with
  | c :: rest => if is_ascii_whitespace c then strip_leading rest else v
  | [] => []
  end.

Definition strip_whitespace (v : jsstring) : jsstring :=
  rev (strip_leading (rev (strip_leading v))).

Definition sanitize (ty : InputType) (v : jsstring) : jsstring :=
  match ty with
  | TextInput => strip_newlines v
  | EmailInput => strip_whitespace (strip_newlines v)
  end.

(** The page: the type of the control, and what its listeners make of
    the value of the control when an action reaches the page. *)
Record Listeners := {
  control : InputType;
  listens : Action → jsstring → jsstring
}.

Record StepState := {
  rnd : RandState;
  value : jsstring;
  trace : list Action
}.

(** The native setter writes the sanitized value; a status report does
    not touch the control; every other action is seen by the page. *)
Definition after (page : Listeners) (a : Action) (s : StepState) : StepState :=
  {| rnd := rnd s;
     value := match a with
              | SetValue v => sanitize (control page) v
              | Report _ => value s
              | _ => listens page a (value s)
              end;
     trace := trace s ++ [a] |}.

Definition perform (page : Listeners) (a : Action) : SE StepState unit :=
  se_modify (after page a).

(** One more call of [Math.random]. *)
Definition drawn (s : StepState) : StepState :=
  {| rnd := {| tape := tape (rnd s); calls := S (calls (rnd s)) |};
     value := value s; trace := trace s |}.

(** [Math.floor(Math.random() * k)]. *)
Definition se_random (k : nat) : SE StepState nat :=
  λ s, let '(d, r) := random_floor k (rnd s) in
       (Return d, {| rnd := r; value := value s; trace := trace s |}).

Definition delay (page : Listeners) (ms : nat) : SE StepState unit :=
  perform page (Delay ms).

Definition randomDelay (page : Listeners) (min max : nat)
  : SE StepState unit :=
  let! d := se_random (max - min + 1) in delay page (d + min).

Definition updateStatus (page : Listeners) (step : nat) (message : jsstring)
    (isError : bool) : SE StepState unit :=
  perform page (Report {| st_step := step; st_message := message;
                          st_isError := isError |}).

(** The [for] loop of [typeText]: [i] is the loop variable and
    [remaining] is [text.length - i]. *)
Fixpoint type_loop (page : Listeners) (text : jsstring) (i remaining : nat)
  : SE StepState unit :=
  match remaining with
  | 0 => se_ret tt
  | S remaining' =>
      let currentValue := take (i + 1) text in
      perform page (SetValue currentValue) ;;
      perform page (Dispatch EvInput) ;;
      (let! d := se_random 50 in delay page (d + 20)) ;;
      type_loop page text (i + 1) remaining'
  end.

Definition typeText (page : Listeners) (text : jsstring) : SE StepState bool :=
  perform page Focus ;;
  perform page (SetValue []) ;;
  perform page (Dispatch EvInput) ;;
  type_loop page text 0 (length text) ;;
  perform page (Dispatch EvChange) ;;
  perform page (Dispatch EvBlur) ;;
  delay page 200 ;;
  let! s := se_get in
  se_ret (0 <? length (value s)).

Definition setInputValue (page : Listeners) (v : jsstring)
  : SE StepState bool :=
  perform page Focus ;;
  perform page (SetValue v) ;;
  perform page (Dispatch EvInput) ;;
  perform page (Dispatch EvChange) ;;
  perform page (Dispatch EvBlur) ;;
  delay page 200 ;;
  let! s := se_get in
  se_ret (0 <? length (value s)).

Definition clickElement (page : Listeners) : SE StepState unit :=
  perform page ScrollIntoView ;;
  delay page 200 ;;
  perform page (Dispatch EvMouseDown) ;;
  delay page 50 ;;
  perform page (Dispatch EvMouseUp) ;;
  perform page (Dispatch EvClick).

(** [located] is the outcome of [waitForElement(SELECTORS.emailInput)]. *)
Definition stepFillEmail (page : Listeners) (located : Exc unit)
    (email : jsstring) : SE StepState bool :=
  updateStatus page 1 (str "Finding email field...") false ;;
  se_try
    (se_lift located ;;
     updateStatus page 1 (str "Filling email...") false ;;
     let! success := typeText page email in
     randomDelay page 300 800 ;;
     if negb success then
       updateStatus page 1 (str "Failed to fill email - value not set") true ;;
       se_ret false
     else
       updateStatus page 1 (str "Email filled ✓") false ;;
       se_ret true)
    (λ error,
       updateStatus page 1 (str "Error: " ++ error) true ;;
       se_ret false).

(** What one pass of the loop of [stepClickContinue] reads off the
    page. *)
Record ButtonObs := {
  disabled : bool;           (* continueBtn.disabled *)
  ariaDisabled : bool;       (* aria-disabled is 'true' *)
  classDisabled : bool;      (* classList.contains('disabled') *)
  checkmark : bool;          (* the checkmark svg in the email container *)
  verified : bool;           (* [data-testid=email-step-verified] *)
  invalid : bool             (* the email input with aria-invalid 'true' *)
}.

Definition isDisabled (o : ButtonObs) : bool :=
  disabled o || ariaDisabled o || classDisabled o.

(** [hasCheckmark !== false]: the last disjunct is the only boolean. *)
Definition hasCheckmark (o : ButtonObs) : bool :=
  checkmark o || verified o || negb (invalid o).

Definition maxAttempts : nat := 30.

(** The [while] loop: [remaining] is [maxAttempts - attempts]; the result
    is [attempts] when the loop is left. *)
Fixpoint validation_loop (page : Listeners) (obs : nat → ButtonObs)
    (attempts remaining : nat) : SE StepState nat :=
  match remaining with
  | 0 => se_ret attempts
  | S remaining' =>
      if negb (isDisabled (obs attempts)) && hasCheckmark (obs attempts) then
        updateStatus page 2 (str "Email validated ✓ - Clicking Continue...")
          false ;;
        se_ret attempts
      else
        let attempts := attempts + 1 in
        updateStatus page 2
          (str "Waiting for validation... (" ++ nat_toString attempts ++
           str "/" ++ nat_toString maxAttempts ++ str ")") false ;;
        delay page 500 ;;
        validation_loop page obs attempts remaining'
  end.

(** [located] is the outcome of [waitForElement(SELECTORS.continueButton)];
    [obs k] is what the pass with [attempts = k] reads. *)
Definition stepClickContinue (page : Listeners) (located : Exc unit)
    (obs : nat → ButtonObs) : SE StepState bool :=
  updateStatus page 2 (str "Waiting for email validation...") false ;;
  se_try
    (se_lift located ;;
     let! attempts := validation_loop page obs 0 maxAttempts in
     if maxAttempts <=? attempts then
       updateStatus page 2 (str "Timeout waiting for email validation") true ;;
       se_ret false
     else
       delay page 300 ;;
       clickElement page ;;
       delay page 2000 ;;
       updateStatus page 2 (str "Continue clicked ✓") false ;;
       se_ret true)
    (λ error,
       updateStatus page 2 (str "Error: " ++ error) true ;;
       se_ret false).

(** *** Reading a trace *)

Definition values_set (tr : list Action) : list jsstring :=
  omap (λ a, match a with SetValue v => Some v | _ => None end) tr.

Definition dispatched (tr : list Action) : list EventType :=
  omap (λ a, match a with Dispatch e => Some e | _ => None end) tr.

Definition delays (tr : list Action) : list nat :=
  omap (λ a, match a with Delay ms => Some ms | _ => None end) tr.

Definition reports (tr : list Action) : list Status :=
  omap (λ a, match a with Report st => Some st | _ => None end) tr.

Definition total_delay (tr : list Action) : nat := sum_list (delays tr).

Definition is_input (e : EventType) : bool :=
  match e with EvInput => true | _ => false end.

Definition inputs (tr : list Action) : nat :=
  length (List.filter is_input (dispatched tr)).

Definition is_click (e : EventType) : bool :=
  match e with EvClick => true | _ => false end.

Definition clicks (tr : list Action) : nat :=
  length (List.filter is_click (dispatched tr)).

(** The pass with [attempts = k] finds the button enabled and the email
    not marked invalid. *)
Definition ready (o : ButtonObs) : bool :=
  negb (isDisabled o) && hasCheckmark o.

(** A page without listeners on the control. *)
Definition passive (page : Listeners) : Prop := ∀ a v, listens page a v = v.

(** *** Sample pages *)

Definition no_listeners : Listeners :=
  {| control := TextInput; listens := λ _ v, v |}.

Definition email_control : Listeners :=
  {| control := EmailInput; listens := λ _ v, v |}.

(** Two identifiers written with Windows line ends. *)
Definition settings_crlf : Settings :=
  {| s_bin := None;
     emailList := Some (str "a@x" ++ ["013"%char; "010"%char] ++
                        str "b@x" ++ ["013"%char]);
     firstName := None; lastName := None; postalCode := None;
     currentEmailIndex := Some 1 |}.

Definition start_state : StepState :=
  {| rnd := tape0; value := str "old"; trace := [] |}.

Definition obs_disabled : ButtonObs :=
  {| disabled := true; ariaDisabled := false; classDisabled := false;
     checkmark := false; verified := false; invalid := false |}.

Definition obs_ready : ButtonObs :=
  {| disabled := false; ariaDisabled := false; classDisabled := false;
     checkmark := false; verified := false; invalid := false |}.

Definition obs_invalid : ButtonObs :=
  {| disabled := false; ariaDisabled := false; classDisabled := false;
     checkmark := false; verified := false; invalid := true |}.

(** The button is enabled from the third pass on. *)
Definition obs_third : nat → ButtonObs :=
  λ k, if k <? 2 then obs_disabled else obs_ready.

(** The button is enabled only after the thirtieth pass. *)
Definition obs_late : nat → ButtonObs :=
  λ k, if k <? 30 then obs_invalid else obs_ready.

End Steps.
(** ** Sample inputs *)

Module Samples.
Import CCGenerator Content.

Definition env0 : Env := {| rand := tape0; nowYear := 2026; nowMonth := 11 |}.

Definition page_ok : Page :=
  {| emailPanel := true; paymentPanel := false; fillEmail := true;
     clickContinue := true; fillPayment := RTrue |}.

Definition page_failed : Page :=
  {| emailPanel := true; paymentPanel := false; fillEmail := true;
     clickContinue := false; fillPayment := RFalse |}.

Definition page_partial : Page :=
  {| emailPanel := false; paymentPanel := true; fillEmail := false;
     clickContinue := false; fillPayment := RPartial |}.

Definition iso0 : jsstring := str "2026-11-03T10:00:00.000Z".

Definition settings_of (emails : string) (idx : option nat) : Settings :=
  {| s_bin := Some (str "4537890000000xxx");
     emailList := Some (str emails);
     firstName := Some (str "John");
     lastName := Some (str "Smith");
     postalCode := Some (str "SW1A 1AA");
     currentEmailIndex := idx |}.

Definition world_of (s : Settings) (results : list RunResult) : World :=
  {| session := {| isRunning := false; currentStep := 0; currentEmail := None |};
     storage := {| adobeAutoSettings := Some s;
                   adobeAutoResults := Some results |};
     tasks := []; steps_run := []; statuses := []; waits := [] |}.

(** One identifier, cursor 0, empty ledger. *)
Definition world_one : World := world_of (settings_of "a@x" (Some 0)) [].

(** Scenario A: three identifiers, one per line. *)
Definition world_abc : World :=
  world_of (settings_of "a@x
b@x
c@x" (Some 0)) [].


Definition result_n (n : nat) : RunResult :=
  {| email := str "old@x"; res_cardNumber := nat_toString (1000 + n);
     timestamp := iso0; success := RTrue |}.

(** A ledger of 100 entries, [result_n 0] the newest. *)
Definition full_ledger : list RunResult := map result_n (seq 0 100).

Definition world_full : World :=
  world_of (settings_of "a@x" (Some 0)) full_ledger.

Import Bridge.

Definition frame_of (i : string) (parent : option string) : Frame :=
  {| id := str i; parentId := str <$> parent;
     url := str "https://commerce.adobe.com/" |}.

(** Scenario C: a root frame with a nested child, then a sibling; the
    control is in the second frame of the flattened order. *)
Definition tree_C : FrameTree :=
  Node (frame_of "F1" None)
    [Node (frame_of "F2" (Some "F1")) [Node (frame_of "F2a" (Some "F2")) []];
     Node (frame_of "F3" (Some "F1")) []].

Definition context_of (frameId : jsstring) : nat :=
  if bool_decide (frameId = str "F1") then 1
  else if bool_decide (frameId = str "F2") then 2
  else if bool_decide (frameId = str "F2a") then 3
  else 4.

Definition chrome_C : Chrome :=
  {| attach := λ _, Return tt;
     getFrameTree := λ _, Return tree_C;
     createIsolatedWorld := λ _ frameId, Return (context_of frameId);
     evaluate := λ _ ctx script,
       if ctx =? 2 then Return (Found (sc_value script))
       else if ctx =? 3 then Return (Found (sc_value script))
       else Return NotFound |}.

(** Chrome refusing every call. *)
Definition chrome_down : Chrome :=
  {| attach := λ _, Throw (str "Cannot attach");
     getFrameTree := λ _, Throw (str "Not attached");
     createIsolatedWorld := λ _ _, Throw (str "Not attached");
     evaluate := λ _ _ _, Throw (str "Not attached") |}.

Import Step3.

(** Every control is there and takes its value. *)
Definition payment_ok : PaymentPage :=
  {| panelActive := true; card := CardDirect FillOk;
     expiryField := Present FillOk; firstNameField := Present FillOk;
     lastNameField := Present FillOk; postalCodeField := Present FillOk |}.

(** The card iframe is blocked and the first name stays empty. *)
Definition payment_blocked : PaymentPage :=
  {| panelActive := true; card := CardBlocked;
     expiryField := Present FillOk; firstNameField := Present FillEmpty;
     lastNameField := Present FillOk; postalCodeField := Present FillOk |}.

(** The expiry control never shows up. *)
Definition payment_no_expiry : PaymentPage :=
  {| panelActive := true; card := CardDirect FillOk;
     expiryField := Missing; firstNameField := Present FillOk;
     lastNameField := Present FillOk; postalCodeField := Present FillOk |}.

(** The card is left empty and the injection into the expiry throws. *)
Definition payment_expiry_throws : PaymentPage :=
  {| panelActive := true; card := CardDirect FillEmpty;
     expiryField := Present (FillThrows (str "descriptor is undefined"));
     firstNameField := Present FillOk;
     lastNameField := Present FillOk; postalCodeField := Present FillOk |}.

Import Waiter.

Definition email_selector : jsstring := str "#email-input-field".

(** The email input, in the markup but under [display: none]. *)
Definition hidden_input : Element :=
  {| el_name := str "input#email-input-field";
     el_matches := λ s, bool_decide (s = email_selector);
     offsetParent := None |}.

(** The same input once it is laid out. *)
Definition shown_input : Element :=
  {| el_name := str "input#email-input-field";
     el_matches := λ s, bool_decide (s = email_selector);
     offsetParent := Some (str "form") |}.

Definition other_element : Element :=
  {| el_name := str "div"; el_matches := λ _, false;
     offsetParent := Some (str "body") |}.

Definition dom_hidden : DOM := [other_element; hidden_input].
Definition dom_shown : DOM := [other_element; shown_input].

(** The input stays hidden for ever. *)
Definition clock_hidden : Clock :=
  {| document_at := λ _, dom_hidden; late := λ _, 3 |}.

(** A session in a run, with a wait for the email input in flight. *)
Definition world_waiting : World :=
  {| session := {| isRunning := true; currentStep := 1;
                   currentEmail := Some (str "a@x") |};
     storage := storage world_one;
     tasks := [AwaitSettings]; steps_run := [StepFillEmail]; statuses := [];
     waits := [waitForElement email_selector dom_hidden] |}.

End Samples.

(** ** More sample data *)

Module SamplesMore.
Import Content.

Definition settings_with (emails : jsstring) : Settings :=
  {| s_bin := Some (str "4537890000000xxx");
     emailList := Some emails;
     firstName := Some (str "John");
     lastName := Some (str "Smith");
     postalCode := Some (str "SW1A 1AA");
     currentEmailIndex := Some 3 |}.

(** Three lines, all blank: a space, a no-break space, nothing. *)
Definition world_blank : World :=
  Samples.world_of
    (settings_with [" "%char; "010"%char; "160"%char; "010"%char]) [].

(** A no-break space, an identifier, a space: one identifier. *)
Definition world_nbsp : World :=
  Samples.world_of
    (settings_with ("160"%char :: "010"%char :: str "b@x" ++
                    ["010"%char; " "%char])) [].

End SamplesMore.
(** * Facts *)

(** ** Properties of the generator *)

Section GeneratorFacts.
Import CCGenerator CCBatch.

(** Rounding moves a product by at most half a unit in the last place. *)
Lemma round53_near (p : Z) :
  (0 ≤ p)%Z →
  (0 ≤ round53 p)%Z ∧
  (round53 p = p ∨
   (53 ≤ Z.log2 p)%Z ∧ (round53 p ≤ p + 2 ^ (Z.log2 p - 53))%Z).
Proof.
  intros Hp. unfold round53.
  destruct (Z.leb_spec (Z.log2 p - 52) 0) as [He|He]; [by auto|].
  set (e := (Z.log2 p - 52)%Z) in *.
  assert (0 < 2 ^ (e - 1))%Z as Hh by (apply Z.pow_pos_nonneg; lia).
  assert (2 ^ e = 2 * 2 ^ (e - 1))%Z as He2.
  { replace e with (Z.succ (e - 1)) at 1 by lia. apply Z.pow_succ_r. lia. }
  assert (Z.log2 p - 53 = e - 1)%Z as -> by lia.
  pose proof (Z.div_mod p (2 ^ e) ltac:(lia)) as Hdm.
  pose proof (Z.mod_pos_bound p (2 ^ e) ltac:(lia)) as Hr.
  assert (0 ≤ p / 2 ^ e)%Z as Hq by (apply Z.div_pos; lia).
  set (q := (p / 2 ^ e)%Z) in *. set (r := (p mod 2 ^ e)%Z) in *.
  cbv zeta.
  destruct (Z.ltb_spec r (2 ^ (e - 1))) as [H1|H1].
  { split; [nia|]. right. split; [lia|nia]. }
  destruct (Z.ltb_spec (2 ^ (e - 1)) r) as [H2|H2].
  { split; [nia|]. right. split; [lia|nia]. }
  destruct (Z.even q).
  - split; [nia|]. right. split; [lia|nia].
  - split; [nia|]. right. split; [lia|nia].
Qed.

Lemma random_floor_lt k r : 0 < k → fst (random_floor k r) < k.
Proof.
  intros Hk. unfold random_floor, two53. cbn [fst].
  set (x := (tape r (calls r) mod 9007199254740992)%Z).
  assert (0 ≤ x < 9007199254740992)%Z as Hx by (apply Z.mod_pos_bound; lia).
  destruct (round53_near (x * Z.of_nat k) ltac:(nia)) as [H0 Hn].
  assert (round53 (x * Z.of_nat k) < Z.of_nat k * 9007199254740992)%Z as Hlt.
  { destruct Hn as [->|[Hl Hn]]; [nia|].
    assert (0 < x * Z.of_nat k)%Z as Hpos.
    { destruct (Z.le_gt_cases (x * Z.of_nat k) 0) as [Hle|]; [|lia].
      rewrite (Z.log2_nonpos _ Hle) in Hl. lia. }
    pose proof (Z.log2_spec (x * Z.of_nat k) Hpos) as [Hlo _].
    assert (2 ^ Z.log2 (x * Z.of_nat k) =
            2 ^ (Z.log2 (x * Z.of_nat k) - 53) * 9007199254740992)%Z as Hpow.
    { replace (Z.log2 (x * Z.of_nat k)) with
        ((Z.log2 (x * Z.of_nat k) - 53) + 53)%Z at 1 by lia.
      rewrite Z.pow_add_r by lia. reflexivity. }
    nia. }
  assert (round53 (x * Z.of_nat k) / 9007199254740992 < Z.of_nat k)%Z.
  { apply Z.div_lt_upper_bound; lia. }
  assert (0 ≤ round53 (x * Z.of_nat k) / 9007199254740992)%Z.
  { apply Z.div_pos; lia. }
  lia.
Qed.

Lemma nat_toString_digit d : d < 10 → nat_toString d = [digit_char d].
Proof.
  intros Hd. do 10 (destruct d as [|d]; [reflexivity|]). lia.
Qed.

Lemma is_digit_digit_char d : d < 10 → is_digit (digit_char d) = true.
Proof.
  intros Hd. do 10 (destruct d as [|d]; [reflexivity|]). lia.
Qed.

Lemma parseInt_digit_char d : d < 10 → parseInt_char (digit_char d) = Some d.
Proof.
  intros Hd. do 10 (destruct d as [|d]; [reflexivity|]). lia.
Qed.

Lemma randomDigit_spec r :
  ∃ d, d < 10 ∧ fst (randomDigit r) = [digit_char d].
Proof.
  exists (fst (random_floor 10 r)). split.
  - apply random_floor_lt. lia.
  - unfold randomDigit, gbind, gret.
    pose proof (random_floor_lt 10 r ltac:(lia)) as Hlt.
    destruct (random_floor 10 r) as [d r'] eqn:E. simpl in *.
    by apply nat_toString_digit.
Qed.

Lemma randomDigit_digits r : all_digits (fst (randomDigit r)).
Proof.
  destruct (randomDigit_spec r) as (d & Hd & ->).
  constructor; [by apply is_digit_digit_char | constructor].
Qed.

Lemma toLowerCase_digit c : is_digit c = true → toLowerCase_char c = c.
Proof.
  unfold is_digit, toLowerCase_char. intros H.
  apply andb_true_iff in H as [H1 H2].
  apply Nat.leb_le in H1, H2.
  assert ((65 <=? nat_of_ascii c) = false) as -> by (apply Nat.leb_gt; lia).
  assert ((192 <=? nat_of_ascii c) = false) as -> by (apply Nat.leb_gt; lia).
  done.
Qed.

Lemma toLowerCase_pattern (pattern : jsstring) :
  Forall (λ c, is_pattern_char c = true) pattern →
  Forall (λ c, is_digit c = true ∨ c = "x"%char) (toLowerCase pattern).
Proof.
  induction 1 as [|c l Hc _ IH]; [constructor|].
  simpl. constructor; [|exact IH].
  unfold is_pattern_char in Hc.
  apply orb_true_iff in Hc as [Hc|Hc]; [apply orb_true_iff in Hc as [Hc|Hc]|].
  - left. by rewrite toLowerCase_digit.
  - apply Ascii.eqb_eq in Hc as ->. by right.
  - apply Ascii.eqb_eq in Hc as ->. by right.
Qed.

Lemma replace_x_digits (s : jsstring) r :
  Forall (λ c, is_digit c = true ∨ c = "x"%char) s →
  all_digits (fst (replace_x s r)).
Proof.
  intros H. revert r. induction H as [|c l Hc _ IH]; intros r.
  - constructor.
  - simpl. destruct (Ascii.eqb c "x") eqn:E.
    + unfold gbind, gret. pose proof (randomDigit_digits r) as Hd.
      destruct (randomDigit r) as [d r1]. specialize (IH r1).
      destruct (replace_x l r1) as [t r2]. simpl in *.
      by apply Forall_app.
    + unfold gbind, gret. specialize (IH r).
      destruct (replace_x l r) as [t r2]. simpl in *.
      constructor; [|done].
      destruct Hc as [Hc| ->]; [done|]. by rewrite Ascii.eqb_refl in E.
Qed.

Lemma pad_loop_digits fuel len (s : jsstring) r :
  all_digits s → all_digits (fst (pad_loop fuel len s r)).
Proof.
  revert s r. induction fuel as [|fuel IH]; intros s r Hs; [done|].
  simpl. destruct (_ <? _)%Z; [|done].
  unfold gbind. pose proof (randomDigit_digits r) as Hd.
  destruct (randomDigit r) as [d r1]. simpl in *.
  apply IH. by apply Forall_app.
Qed.

(** The padding loop leaves by its condition, not by its fuel. *)
Lemma pad_loop_length fuel len (s : jsstring) r :
  (len - 1 ≤ Z.of_nat (length s) + Z.of_nat fuel)%Z →
  (len - 1 ≤ Z.of_nat (length (fst (pad_loop fuel len s r))))%Z.
Proof.
  revert s r. induction fuel as [|fuel IH]; intros s r Hlen.
  - simpl. lia.
  - simpl. destruct (_ <? _)%Z eqn:E.
    + unfold gbind. destruct (randomDigit_spec r) as (d & _ & Hd).
      destruct (randomDigit r) as [ds r1]. simpl in *. subst ds.
      apply IH. rewrite length_app. simpl. lia.
    + simpl. apply Z.ltb_ge in E. lia.
Qed.

Lemma luhn_loop_digits (s : jsstring) isOdd sum :
  all_digits s → is_Some (luhn_loop s isOdd (Some sum)).
Proof.
  intros H. revert isOdd sum.
  induction H as [|c l Hc _ IH]; intros isOdd sum; [by eexists|].
  simpl. unfold parseInt_char. rewrite Hc. destruct isOdd; apply IH.
Qed.

Lemma calculateLuhnCheckDigit_digits (s : jsstring) :
  all_digits s → ∃ c, c < 10 ∧ calculateLuhnCheckDigit s = Some c.
Proof.
  intros H. unfold calculateLuhnCheckDigit.
  destruct (luhn_loop_digits (rev s) true 0) as [sum ->].
  { unfold all_digits. by apply Forall_rev. }
  eexists. split; [|done]. apply Nat.mod_upper_bound. lia.
Qed.

Lemma filter_all_digits (s : jsstring) :
  all_digits s → List.filter is_digit s = s.
Proof.
  induction 1 as [|c l Hc _ IH]; [done|]. simpl. by rewrite Hc, IH.
Qed.

Lemma validateLuhn_check_digit (body : jsstring) c :
  all_digits body → 12 ≤ length body ≤ 18 → c < 10 →
  calculateLuhnCheckDigit body = Some c →
  validateLuhn (body ++ [digit_char c]) = true.
Proof.
  intros Hb Hlen Hc Hluhn. unfold validateLuhn.
  rewrite filter_all_digits.
  2:{ apply Forall_app. split; [done|].
      constructor; [by apply is_digit_digit_char|constructor]. }
  rewrite length_app. simpl.
  destruct (length body + 1 <? 13) eqn:E1; [apply Nat.ltb_lt in E1; lia|].
  destruct (19 <? length body + 1) eqn:E2; [apply Nat.ltb_lt in E2; lia|].
  simpl. unfold js_slice, js_slice_from, js_index. simpl.
  rewrite length_app. simpl.
  replace (Z.to_nat (Z.max 0 (Z.of_nat (length body + 1) + -1)))
    with (length body) by lia.
  change (Z.to_nat 0) with 0. rewrite Nat.min_0_r, Nat.sub_0_r, drop_0.
  rewrite take_app_length, drop_app_length. simpl.
  rewrite Hluhn, parseInt_digit_char by done. simpl. apply Nat.eqb_refl.
Qed.

Lemma take_15_of_padded (s : jsstring) :
  (16 - 1 ≤ Z.of_nat (length s))%Z → js_slice s 0 (16 - 1) = take 15 s.
Proof.
  intros H. unfold js_slice, js_index. simpl.
  change (Z.to_nat 0) with 0. rewrite Nat.min_0_r, Nat.sub_0_r, drop_0.
  f_equal. lia.
Qed.

(** *** The code against the Luhn formula *)

Lemma luhn_loop_None (l : jsstring) isOdd : luhn_loop l isOdd None = None.
Proof.
  revert isOdd. induction l as [|c l IH]; intros isOdd; [done|].
  simpl. destruct isOdd, (parseInt_char c); apply IH.
Qed.

Lemma parseInt_char_digit c :
  is_digit c = true → ∃ d, d < 10 ∧ c = digit_char d ∧ parseInt_char c = Some d.
Proof.
  intros H. unfold parseInt_char. rewrite H.
  unfold is_digit in H. apply andb_true_iff in H as [H1 H2].
  apply Nat.leb_le in H1, H2.
  exists (nat_of_ascii c - 48). split; [lia|]. split; [|done].
  unfold digit_char. replace (48 + (nat_of_ascii c - 48)) with (nat_of_ascii c) by lia.
  by rewrite ascii_nat_embedding.
Qed.

(** Over digits the loop adds a sum that does not depend on where it
    starts. *)
Lemma luhn_loop_sum (l : jsstring) isOdd :
  all_digits l → ∃ P, ∀ acc, luhn_loop l isOdd (Some acc) = Some (acc + P).
Proof.
  intros H. revert isOdd. induction H as [|c l Hc _ IH]; intros isOdd.
  - exists 0. intros acc. simpl. f_equal. lia.
  - destruct (parseInt_char_digit c Hc) as (d & Hd & _ & Hp).
    destruct (IH (negb isOdd)) as [P HP].
    exists (luhn_digit isOdd d + P). intros acc. cbn [luhn_loop]. rewrite Hp.
    unfold luhn_digit. destruct isOdd; cbv zeta; rewrite HP; f_equal; lia.
Qed.

Lemma luhn_loop_app (a b : jsstring) isOdd acc :
  luhn_loop (a ++ b) isOdd acc =
  luhn_loop b (Nat.iter (length a) negb isOdd) (luhn_loop a isOdd acc).
Proof.
  revert isOdd acc. induction a as [|c a IH]; intros isOdd acc; [done|].
  cbn [app luhn_loop length]. rewrite IH. f_equal.
  by rewrite Nat.iter_succ_r.
Qed.

Lemma luhn_digit_lt isOdd d : d < 10 → luhn_digit isOdd d < 10.
Proof.
  intros Hd. unfold luhn_digit. destruct isOdd; [|done].
  destruct (Nat.ltb_spec 9 (d * 2)); lia.
Qed.

Lemma luhn_digit_inj isOdd d d' :
  d < 10 → d' < 10 → luhn_digit isOdd d = luhn_digit isOdd d' → d = d'.
Proof.
  intros Hd Hd'. unfold luhn_digit. destruct isOdd; [|done].
  destruct (Nat.ltb_spec 9 (d * 2)), (Nat.ltb_spec 9 (d' * 2)); lia.
Qed.

Lemma check_digit_zero_sum e S :
  e < 10 → ((e + S) mod 10 = 0 ↔ e = (10 - S mod 10) mod 10).
Proof.
  intros He. rewrite <- (Nat.Div0.add_mod_idemp_r e S).
  pose proof (Nat.mod_upper_bound S 10 ltac:(lia)) as HS.
  revert HS. generalize (S mod 10). intros s Hs.
  do 10 (destruct e as [|e];
    [do 10 (destruct s as [|s]; [vm_compute; split; intros H; first [done | discriminate H]|]); lia|]).
  lia.
Qed.

Lemma check_digit_of_sum (body : jsstring) S :
  luhn_loop (rev body) true (Some 0) = Some S →
  calculateLuhnCheckDigit body = Some ((10 - S mod 10) mod 10).
Proof. intros H. unfold calculateLuhnCheckDigit. by rewrite H. Qed.

Lemma doubled_luhn_digit d : d < 10 → LuhnSpec.doubled d = luhn_digit true d.
Proof.
  intros Hd. do 10 (destruct d as [|d]; [reflexivity|]). lia.
Qed.

Lemma digit_value_digit_char d : d < 10 → LuhnSpec.digit_value (digit_char d) = d.
Proof.
  intros Hd. unfold LuhnSpec.digit_value, digit_char.
  rewrite nat_ascii_embedding by lia. lia.
Qed.

(** The loop of the code, started on either parity, adds up what the
    formula adds up. *)
Lemma luhn_loop_formula (l : jsstring) :
  all_digits l →
  (∀ acc, luhn_loop l false (Some acc) =
          Some (acc + LuhnSpec.sum_from_right (map LuhnSpec.digit_value l))) ∧
  (∀ acc, luhn_loop l true (Some acc) =
          Some (acc + match map LuhnSpec.digit_value l with
                      | [] => 0
                      | d :: rest =>
                          LuhnSpec.doubled d + LuhnSpec.sum_from_right rest
                      end)).
Proof.
  induction 1 as [|c l Hc _ [IHf IHt]].
  - split; intros acc; cbn; f_equal; lia.
  - destruct (parseInt_char_digit c Hc) as (d & Hd & -> & Hp).
    split; intros acc; cbn [luhn_loop map]; rewrite Hp; cbv zeta; cbn [negb].
    + rewrite IHt, digit_value_digit_char by done. f_equal.
      destruct (map LuhnSpec.digit_value l) as [|d2 rest];
        cbn [LuhnSpec.sum_from_right]; lia.
    + fold (luhn_digit true d). rewrite IHf, digit_value_digit_char by done.
      rewrite doubled_luhn_digit by done. f_equal. lia.
Qed.

(** [calculateLuhnCheckDigit] computes the check digit of the formula. *)
Lemma calculateLuhnCheckDigit_formula (body : jsstring) :
  all_digits body →
  ∃ c, calculateLuhnCheckDigit body = Some c ∧
       LuhnSpec.check_digit body c ∧
       ∀ c', LuhnSpec.check_digit body c' → c' = c.
Proof.
  intros Hb.
  destruct (luhn_loop_formula (rev body)) as [_ Ht]; [by apply Forall_rev|].
  set (S := match map LuhnSpec.digit_value (rev body) with
            | [] => 0
            | d :: rest => LuhnSpec.doubled d + LuhnSpec.sum_from_right rest
            end) in Ht.
  assert (∀ e, e < 10 →
            LuhnSpec.sum_from_right
              (rev (map LuhnSpec.digit_value (body ++ [digit_char e]))) = e + S)
    as Hsum.
  { intros e He. rewrite map_app, rev_app_distr. cbn [map rev app].
    rewrite digit_value_digit_char, <- map_rev by done. subst S.
    destruct (map LuhnSpec.digit_value (rev body)) as [|d rest];
      cbn [LuhnSpec.sum_from_right]; lia. }
  assert (∀ e, e < 10 → all_digits (body ++ [digit_char e])) as Hall.
  { intros e He. apply Forall_app. split; [done|].
    constructor; [by apply is_digit_digit_char|constructor]. }
  exists ((10 - S mod 10) mod 10). split.
  { apply check_digit_of_sum. by rewrite Ht. }
  assert ((10 - S mod 10) mod 10 < 10) as Hc by (apply Nat.mod_upper_bound; lia).
  split.
  - split; [done|]. split; [by apply Hall|].
    rewrite Hsum by done. by apply check_digit_zero_sum.
  - intros c' [Hc' [_ Hv]]. rewrite Hsum in Hv by done.
    by apply check_digit_zero_sum in Hv.
Qed.

(** C10. For a BIN pattern made of decimal digits and the wildcard x/X,
    and whatever [Math.random] returns, [generateCardNumber(pattern, 16)]
    is a string of exactly 16 decimal digits: 15 digits followed by their
    Luhn check digit, the one digit that completes them to a number
    valid by the Luhn formula; the check digit is what
    [calculateLuhnCheckDigit] returns on the 15 digits, and
    [validateLuhn] accepts the number. *)
Theorem generateCardNumber_luhn_valid (binPattern : jsstring) (r : RandState) :
  Forall (λ c, is_pattern_char c = true) binPattern →
  let card := fst (generateCardNumber binPattern 16 r) in
  length card = 16 ∧ all_digits card ∧
  (∃ body c, card = body ++ [digit_char c] ∧ length body = 15 ∧
             c < 10 ∧ calculateLuhnCheckDigit body = Some c ∧
             LuhnSpec.check_digit body c ∧
             ∀ c', LuhnSpec.check_digit body c' → c' = c) ∧
  LuhnSpec.valid card ∧
  validateLuhn card = true.
Proof.
  intros Hpat. unfold generateCardNumber, gbind, gret.
  pose proof (replace_x_digits _ r (toLowerCase_pattern _ Hpat)) as Hrep.
  destruct (replace_x (toLowerCase binPattern) r) as [s1 r1]. simpl in Hrep.
  pose proof (pad_loop_digits (Z.to_nat 16) 16 s1 r1 Hrep) as Hpad.
  pose proof (pad_loop_length (Z.to_nat 16) 16 s1 r1 ltac:(lia)) as Hlen.
  destruct (pad_loop (Z.to_nat 16) 16 s1 r1) as [s2 r2]. simpl in Hpad, Hlen.
  cbv zeta. simpl fst. rewrite take_15_of_padded by done.
  set (body := take 15 s2).
  assert (all_digits body) as Hbody by (by apply Forall_take).
  assert (length body = 15) as Hbl by (unfold body; rewrite length_take; lia).
  destruct (calculateLuhnCheckDigit_formula body Hbody)
    as (c & Hluhn & Hcheck & Huniq).
  pose proof Hcheck as [Hc Hvalid].
  rewrite Hluhn. simpl jsnum_toString. rewrite nat_toString_digit by done.
  split; [rewrite length_app; simpl; lia|].
  split.
  { apply Forall_app. split; [done|].
    constructor; [by apply is_digit_digit_char|constructor]. }
  split; [by exists body, c|].
  split; [done|].
  apply validateLuhn_check_digit; [done|lia|done|done].
Qed.

Lemma generateCardNumber_luhn_valid_witness :
  let card := fst (generateCardNumber (str "453789xxxxXXxxxx") 16 tape0) in
  length card = 16 ∧ all_digits card ∧
  (∃ body c, card = body ++ [digit_char c] ∧ length body = 15 ∧
             c < 10 ∧ calculateLuhnCheckDigit body = Some c ∧
             LuhnSpec.check_digit body c ∧
             ∀ c', LuhnSpec.check_digit body c' → c' = c) ∧
  LuhnSpec.valid card ∧
  validateLuhn card = true.
Proof.
  apply (generateCardNumber_luhn_valid (str "453789xxxxXXxxxx") tape0).
  repeat constructor.
Defined.

(** The formula at work on a number taken from outside the generator,
    4539 1488 0343 6467: the sum from the right is
    7+3+6+3+3+8+3+0+0+7+8+8+9+6+5+8 = 80; and the rounding of the product
    in [random_floor]: for the random number 7505999378950826 / 2^53 the
    exact product with 12 is 8 / 2^53 below 10 and is rounded to 10. *)
Example luhn_formula_sample :
  LuhnSpec.sum_from_right
    (rev (map LuhnSpec.digit_value (str "4539148803436467"))) = 80 ∧
  calculateLuhnCheckDigit (str "453914880343646") = Some 7 ∧
  fst (random_floor 12 {| tape := λ _, 7505999378950826%Z; calls := 0 |}) = 10 ∧
  (7505999378950826 * 12 / two53)%Z = 9%Z ∧
  trim ("160"%char :: str "4537" ++ ["160"%char]) = str "4537".
Proof. repeat split; reflexivity. Qed.

(** *** What the generator reads from [Math.random] *)

Lemma const_closed_ret {A} (a : A) : const_closed (gret a).
Proof. intros z n. by exists n. Qed.

Lemma const_closed_bind {A B} (m : Gen A) (k : A → Gen B) :
  const_closed m → (∀ a, const_closed (k a)) → const_closed (gbind m k).
Proof.
  intros Hm Hk z n. unfold gbind. destruct (Hm z n) as [n1 H1].
  destruct (m (const_tape z n)) as [a r1]. simpl in H1. subst r1.
  apply Hk.
Qed.

Lemma const_closed_random_floor k : const_closed (random_floor k).
Proof. intros z n. by exists (S n). Qed.

Lemma const_closed_randomDigit : const_closed randomDigit.
Proof.
  apply const_closed_bind; [apply const_closed_random_floor|].
  intros a. apply const_closed_ret.
Qed.

Lemma const_closed_replace_x s : const_closed (replace_x s).
Proof.
  induction s as [|c s IH]; simpl; [apply const_closed_ret|].
  destruct (Ascii.eqb c "x").
  - apply const_closed_bind; [apply const_closed_randomDigit|]. intros d.
    apply const_closed_bind; [done|]. intros t. apply const_closed_ret.
  - apply const_closed_bind; [done|]. intros t. apply const_closed_ret.
Qed.

Lemma const_closed_pad_loop fuel len s : const_closed (pad_loop fuel len s).
Proof.
  revert s. induction fuel as [|fuel IH]; intros s; simpl;
    [apply const_closed_ret|].
  destruct (_ <? _)%Z; [|apply const_closed_ret].
  apply const_closed_bind; [apply const_closed_randomDigit|]. intros d.
  apply IH.
Qed.

Lemma const_closed_generateCardNumber p len :
  const_closed (generateCardNumber p len).
Proof.
  apply const_closed_bind; [apply const_closed_replace_x|]. intros s1.
  apply const_closed_bind; [apply const_closed_pad_loop|]. intros s2.
  apply const_closed_ret.
Qed.

Lemma const_closed_generateExpiry y m : const_closed (generateExpiry y m).
Proof.
  apply const_closed_bind; [apply const_closed_random_floor|]. intros a.
  apply const_closed_bind; [apply const_closed_random_floor|]. intros b.
  apply const_closed_bind; [|intros c; apply const_closed_ret].
  destruct (_ && _); [|apply const_closed_ret].
  apply const_closed_bind; [apply const_closed_random_floor|]. intros c.
  apply const_closed_ret.
Qed.

Lemma cvv_loop_const z n len acc :
  fst (cvv_loop len acc (const_tape z n)) =
  acc ++ concat (replicate len (fst (randomDigit (const_tape z 0)))).
Proof.
  revert n acc. induction len as [|len IH]; intros n acc; simpl.
  - by rewrite app_nil_r.
  - unfold gbind at 1. unfold randomDigit at 1. unfold gbind, gret. simpl.
    change {| tape := λ _ : nat, z; calls := S n |} with (const_tape z (S n)).
    rewrite IH. by rewrite <- app_assoc.
Qed.

Lemma generate_cvv_const y m b z :
  ∃ len, (len = 3 ∨ len = 4) ∧
    cvv (fst (generate y m b (const_tape z 0))) =
    concat (replicate len (fst (randomDigit (const_tape z 0)))).
Proof.
  unfold generate. cbv zeta. unfold gbind at 1.
  destruct (const_closed_generateCardNumber (bin (parseBinInput b)) 16 z 0)
    as [n1 H1].
  destruct (generateCardNumber _ _ _) as [cn r1]. simpl in H1. subst r1.
  unfold gbind at 1.
  match goal with |- context [let '(a, r') := ?e (const_tape z n1) in _] =>
    assert (const_closed e) as He end.
  { destruct (month (parseBinInput b)), (year (parseBinInput b));
      try apply const_closed_generateExpiry.
    destruct (_ && _);
      [apply const_closed_ret|apply const_closed_generateExpiry]. }
  destruct (He z n1) as [n2 H2].
  match goal with |- context [let '(a, r') := ?e (const_tape z n1) in _] =>
    destruct (e (const_tape z n1)) as [ex r2] end.
  simpl in H2. subst r2.
  exists (match detectCardType cn with AMEX => 4 | _ => 3 end).
  split; [destruct (detectCardType cn); auto|].
  unfold gbind, gret, generateCVV.
  pose proof (cvv_loop_const z n2
    (match detectCardType cn with AMEX => 4 | _ => 3 end) []) as Hc.
  destruct (cvv_loop _ _ _) as [cv r3]. simpl in *. exact Hc.
Qed.

(** Every pattern has two invocations with different verification
    codes. *)
Lemma generate_cvv_differs y m b :
  ∃ r1 r2, cvv (fst (generate y m b r1)) ≠ cvv (fst (generate y m b r2)).
Proof.
  exists (const_tape 0 0), (const_tape (two53 - 1) 0).
  destruct (generate_cvv_const y m b 0) as (l1 & Hl1 & ->).
  destruct (generate_cvv_const y m b (two53 - 1)) as (l2 & Hl2 & ->).
  destruct Hl1 as [-> | ->], Hl2 as [-> | ->]; vm_compute; discriminate.
Qed.

Lemma replace_x_digits_id (s : jsstring) r :
  all_digits s → replace_x s r = (s, r).
Proof.
  induction 1 as [|c l Hc _ IH]; [done|]. simpl.
  destruct (Ascii.eqb c "x") eqn:E.
  - apply Ascii.eqb_eq in E. subst c. discriminate Hc.
  - unfold gbind, gret. by rewrite IH.
Qed.

Lemma toLowerCase_digits (s : jsstring) : all_digits s → toLowerCase s = s.
Proof.
  induction 1 as [|c l Hc _ IH]; [done|]. simpl.
  by rewrite toLowerCase_digit, IH.
Qed.

Lemma pad_loop_long fuel (s : jsstring) r :
  15 ≤ length s → pad_loop fuel 16 s r = (s, r).
Proof.
  intros H. destruct fuel; [done|]. simpl.
  destruct (_ <? _)%Z eqn:E; [|done]. apply Z.ltb_lt in E. lia.
Qed.

(** A number part of at least 15 digits fixes the card number. *)
Lemma generateCardNumber_fixed (b : jsstring) r :
  all_digits b → 15 ≤ length b →
  fst (generateCardNumber b 16 r) =
  take 15 b ++ jsnum_toString (calculateLuhnCheckDigit (take 15 b)).
Proof.
  intros Hb Hlen. unfold generateCardNumber, gbind, gret.
  rewrite toLowerCase_digits, replace_x_digits_id by done.
  rewrite pad_loop_long by done. simpl fst.
  by rewrite take_15_of_padded by lia.
Qed.

Lemma generate_cardNumber y m b r :
  cardNumber (fst (generate y m b r)) =
  fst (generateCardNumber (bin (parseBinInput b)) 16 r).
Proof.
  unfold generate. cbv zeta. unfold gbind at 1.
  destruct (generateCardNumber _ _ _) as [cn r1].
  unfold gbind at 1.
  match goal with |- context [let '(a, r') := ?e r1 in _] =>
    destruct (e r1) as [ex r2] end.
  unfold gbind, gret. by destruct (generateCVV _ _).
Qed.

Lemma generate_expiry_given y m b r mo ye :
  month (parseBinInput b) = Some mo → year (parseBinInput b) = Some ye →
  truthy mo = true → truthy ye = true →
  expiry (fst (generate y m b r)) =
  {| exp_month := padStart0 2 mo;
     exp_year := if length ye =? 4 then js_slice_from ye (-2) else ye |}.
Proof.
  intros Hm Hy Hmo Hye. unfold generate. cbv zeta. unfold gbind at 1.
  destruct (generateCardNumber _ _ _) as [cn r1].
  rewrite Hm, Hy, Hmo, Hye. simpl andb. cbv iota.
  unfold gbind, gret. by destruct (generateCVV _ _).
Qed.

(** C9 (as the code has it). The generator reads [Math.random]: for every
    pattern the verification code is drawn from it, so two invocations on
    one pattern can return different records.  Two invocations agree on
    the card number when the number part of the pattern has at least 15
    characters, all decimal digits, and on the expiry when the pattern
    carries a month and a year. *)
Theorem generate_reads_random (y m : nat) (binInput : jsstring) :
  let p := parseBinInput binInput in
  (∃ r1 r2, cvv (fst (generate y m binInput r1)) ≠
            cvv (fst (generate y m binInput r2))) ∧
  (all_digits (bin p) → 15 ≤ length (bin p) →
   ∀ y' m' r1 r2, cardNumber (fst (generate y m binInput r1)) =
                  cardNumber (fst (generate y' m' binInput r2))) ∧
  (∀ mo ye, month p = Some mo → year p = Some ye →
            truthy mo = true → truthy ye = true →
   ∀ y' m' r1 r2, expiry (fst (generate y m binInput r1)) =
                  expiry (fst (generate y' m' binInput r2))).
Proof.
  intros p. split; [apply generate_cvv_differs|]. split.
  - intros Hb Hlen y' m' r1 r2. rewrite !generate_cardNumber.
    by rewrite !generateCardNumber_fixed.
  - intros mo ye Hm Hy Hmo Hye y' m' r1 r2.
    by rewrite !(generate_expiry_given _ _ _ _ mo ye).
Qed.

Lemma generate_reads_random_witness :
  let binInput := str "4537890000000000|12|2030" in
  (∃ r1 r2, cvv (fst (generate 2026 11 binInput r1)) ≠
            cvv (fst (generate 2026 11 binInput r2))) ∧
  (∀ y' m' r1 r2, cardNumber (fst (generate 2026 11 binInput r1)) =
                  cardNumber (fst (generate y' m' binInput r2))) ∧
  (∀ y' m' r1 r2, expiry (fst (generate 2026 11 binInput r1)) =
                  expiry (fst (generate y' m' binInput r2))).
Proof.
  intros binInput.
  destruct (generate_reads_random 2026 11 binInput) as (H1 & H2 & H3).
  split; [exact H1|]. split.
  - apply H2; [vm_compute; repeat constructor | vm_compute; lia].
  - apply (H3 (str "12") (str "2030")); reflexivity.
Defined.

(** C9 as stated fails: two invocations in a row on one pattern return
    different card numbers, expiries and verification codes. *)
Lemma generate_same_pattern_differs :
  let binInput := str "4537890000000xxx" in
  let '(c1, r1) := generate 2026 11 binInput tape0 in
  let '(c2, _) := generate 2026 11 binInput r1 in
  cardNumber c1 ≠ cardNumber c2 ∧ expiry c1 ≠ expiry c2 ∧
  cvv c1 ≠ cvv c2 ∧ c1 ≠ c2.
Proof.
  vm_compute. repeat split; discriminate.
Qed.

End GeneratorFacts.
(** ** The Waiter *)

Section WaiterFacts.
Import Waiter.

Lemma visible_Some selector document element :
  visible selector document = Some element →
  element ∈ document ∧ el_matches element selector = true ∧
  offsetParent element ≠ None.
Proof.
  unfold visible, querySelector.
  destruct (List.find _ _) as [el|] eqn:E; [|done].
  apply List.find_some in E as [Hin Hm].
  destruct (offsetParent el) eqn:Ho; [|done].
  intros [= <-]. rewrite Ho. split; [by apply list_elem_of_In|done].
Qed.

Lemma visible_none_ready selector document :
  none_ready selector [document] → visible selector document = None.
Proof.
  intros Hn. destruct (visible selector document) as [el|] eqn:E; [|done].
  apply visible_Some in E as (Hin & Hm & Ho).
  destruct Ho. apply (Hn document el); [apply list_elem_of_here|done|done].
Qed.

Lemma run_wait_settled outcome signals :
  run_wait (Settled outcome) signals = Settled outcome.
Proof.
  induction signals as [|[d|] signals IH]; [done| |]; exact IH.
Qed.

(** A wait that ends resolved with an element was resolved already, or
    saw a document in which the element was the laid out first match. *)
Lemma run_wait_resolved signals w element :
  run_wait w signals = Settled (Resolved element) →
  w = Settled (Resolved element) ∨
  ∃ selector document,
    w = Pending (ForElement selector) ∧
    document ∈ documents_of signals ∧
    visible selector document = Some element.
Proof.
  revert w. induction signals as [|sg signals IH]; intros w H; [by left|].
  simpl in H. apply IH in H as [H | (sel & d & H & Hd & Hv)].
  - destruct w as [t|o]; [|left; by destruct sg].
    right. destruct sg as [d|]; simpl in H; [|done].
    destruct t as [sel|c]; simpl in H.
    + destruct (visible sel d) as [el|] eqn:Hv; simpl in H; [|done].
      injection H as ->. exists sel, d. split; [done|].
      split; [apply list_elem_of_here|done].
    + by destruct (c d).
  - destruct w as [t|o]; [|by destruct sg].
    right. destruct sg as [d'|]; simpl in H; [|done].
    destruct (check t d') eqn:Hc; [done|]. injection H as ->.
    exists sel, d. split; [done|]. split; [|done].
    simpl. by apply list_elem_of_further.
Qed.

Lemma waitForElement_resolved selector document signals element :
  run_wait (waitForElement selector document) signals =
    Settled (Resolved element) →
  ∃ d, d ∈ document :: documents_of signals ∧
       visible selector d = Some element.
Proof.
  intros H. apply run_wait_resolved in H as [H | (sel & d & H & Hd & Hv)].
  - exists document. split; [apply list_elem_of_here|].
    unfold waitForElement, start in H. simpl in H.
    destruct (visible selector document); simpl in H; by simplify_eq.
  - exists d. unfold waitForElement, start in H. simpl in H.
    destruct (visible selector document); simpl in H; simplify_eq.
    split; [by apply list_elem_of_further|done].
Qed.

Lemma run_wait_mutations_pending selector (documents : list DOM) :
  none_ready selector documents →
  run_wait (Pending (ForElement selector)) (Mutation <$> documents) =
  Pending (ForElement selector).
Proof.
  induction documents as [|d ds IH]; intros Hn; [done|].
  simpl. rewrite visible_none_ready.
  - apply IH. intros d' el Hd. apply Hn. by apply list_elem_of_further.
  - intros d' el Hd. apply Hn. apply list_elem_of_singleton in Hd as ->.
    apply list_elem_of_here.
Qed.

Lemma waitForElement_times_out selector document before after :
  none_ready selector (document :: before) →
  run_wait (waitForElement selector document)
    ((Mutation <$> before) ++ Timeout :: after) =
  Settled (Rejected (str "Element not found: " ++ selector)).
Proof.
  intros Hn. unfold waitForElement, start. simpl.
  rewrite visible_none_ready.
  2:{ intros d el Hd. apply Hn. apply list_elem_of_singleton in Hd as ->.
      apply list_elem_of_here. }
  simpl. unfold run_wait. rewrite fold_left_app.
  fold (run_wait (Pending (ForElement selector)) (Mutation <$> before)).
  rewrite run_wait_mutations_pending.
  2:{ intros d el Hd. apply Hn. by apply list_elem_of_further. }
  simpl. apply run_wait_settled.
Qed.

(** *** Polling *)

Lemma poll_loop_resolved fuel clock selector timeout startTime now element :
  poll_loop fuel clock selector timeout startTime now = Some (Resolved element) →
  ∃ t, visible selector (document_at clock t) = Some element.
Proof.
  revert now. induction fuel as [|fuel IH]; intros now; [done|]. simpl.
  destruct (_ <? _); [|done].
  destruct (visible selector (document_at clock now)) as [el|] eqn:E.
  - intros [= <-]. by exists now.
  - apply IH.
Qed.

(** The loop ends before its fuel does: every turn takes 200 ms at
    least. *)
Lemma poll_loop_total fuel clock selector timeout startTime now :
  startTime ≤ now → timeout ≤ (now - startTime) + 200 * fuel →
  is_Some (poll_loop (S fuel) clock selector timeout startTime now).
Proof.
  revert now. induction fuel as [|fuel IH]; intros now Hs Ht;
    cbn [poll_loop].
  - destruct (now - startTime <? timeout) eqn:E; [|by eexists].
    apply Nat.ltb_lt in E. lia.
  - destruct (now - startTime <? timeout) eqn:E; [|by eexists].
    destruct (visible selector (document_at clock now)); [by eexists|].
    apply IH; lia.
Qed.

Lemma poll_loop_none_ready fuel clock selector timeout startTime now outcome :
  (∀ t, startTime ≤ t → t - startTime < timeout →
        none_ready selector [document_at clock t]) →
  startTime ≤ now →
  poll_loop fuel clock selector timeout startTime now = Some outcome →
  outcome = Rejected (str "Element not found: " ++ selector).
Proof.
  intros Hn. revert now. induction fuel as [|fuel IH]; intros now Hs; [done|].
  simpl. destruct (Nat.ltb_spec (now - startTime) timeout) as [Hlt|_];
    [|by intros [= <-]].
  rewrite visible_none_ready by (by apply Hn). apply IH. lia.
Qed.

Lemma waitForElement_polling_total clock selector timeout startTime :
  is_Some (waitForElement_polling clock selector timeout startTime).
Proof.
  unfold waitForElement_polling.
  replace (timeout / 200 + 2) with (S (timeout / 200 + 1)) by lia.
  apply poll_loop_total; [done|].
  pose proof (Nat.div_mod_eq timeout 200).
  pose proof (Nat.mod_upper_bound timeout 200). lia.
Qed.

(** C7. [waitForElement] resolves only with an element that matches
    the selector and is laid out ([offsetParent] not null), in both
    variants; a first match with a null [offsetParent] leaves the wait
    pending; and when no document seen before the deadline holds a
    matching element that is laid out, the wait fails with its timeout
    error: the observer variant when its timer fires, the polling variant
    by the end of its loop, which it always reaches. *)
Theorem waitForElement_ready_or_timeout :
  (∀ selector document signals element,
     run_wait (waitForElement selector document) signals =
       Settled (Resolved element) →
     offsetParent element ≠ None ∧ el_matches element selector = true ∧
     ∃ d, d ∈ document :: documents_of signals ∧ element ∈ d) ∧
  (∀ selector document element,
     querySelector selector document = Some element →
     offsetParent element = None →
     waitForElement selector document = Pending (ForElement selector)) ∧
  (∀ selector document before after,
     none_ready selector (document :: before) →
     run_wait (waitForElement selector document)
       ((Mutation <$> before) ++ Timeout :: after) =
     Settled (Rejected (str "Element not found: " ++ selector))) ∧
  (∀ clock selector timeout startTime,
     ∃ outcome,
       waitForElement_polling clock selector timeout startTime = Some outcome ∧
       (∀ element, outcome = Resolved element →
          offsetParent element ≠ None ∧ el_matches element selector = true) ∧
       ((∀ t, startTime ≤ t → t - startTime < timeout →
              none_ready selector [document_at clock t]) →
        outcome = Rejected (str "Element not found: " ++ selector))).
Proof.
  split; [|split; [|split]].
  - intros selector document signals element H.
    apply waitForElement_resolved in H as (d & Hd & Hv).
    apply visible_Some in Hv as (Hin & Hm & Ho). eauto.
  - intros selector document element Hq Ho.
    unfold waitForElement, start. simpl. unfold visible.
    by rewrite Hq, Ho.
  - apply waitForElement_times_out.
  - intros clock selector timeout startTime.
    destruct (waitForElement_polling_total clock selector timeout startTime)
      as [outcome E].
    exists outcome. split; [done|]. split.
    + intros element ->. apply poll_loop_resolved in E as [t Hv].
      by apply visible_Some in Hv as (_ & Hm & Ho).
    + intros Hn.
      by apply (poll_loop_none_ready _ _ _ _ _ _ _ Hn (Nat.le_refl _) E).
Qed.

Lemma hidden_none_ready (documents : list DOM) :
  (∀ d, d ∈ documents → d = Samples.dom_hidden) →
  none_ready Samples.email_selector documents.
Proof.
  intros Hd d el Hin Hel Hm. apply Hd in Hin as ->.
  apply elem_of_cons in Hel as [->|Hel]; [done|].
  apply list_elem_of_singleton in Hel as ->. done.
Qed.

Lemma waitForElement_ready_or_timeout_witness :
  (let el := Samples.shown_input in
   offsetParent el ≠ None ∧ el_matches el Samples.email_selector = true ∧
   ∃ d, d ∈ Samples.dom_hidden ::
            documents_of [Mutation Samples.dom_hidden; Mutation Samples.dom_shown] ∧
        el ∈ d) ∧
  waitForElement Samples.email_selector Samples.dom_hidden =
    Pending (ForElement Samples.email_selector) ∧
  run_wait (waitForElement Samples.email_selector Samples.dom_hidden)
    ((Mutation <$> [Samples.dom_hidden; Samples.dom_hidden]) ++ Timeout ::
     [Mutation Samples.dom_shown]) =
    Settled (Rejected (str "Element not found: " ++ Samples.email_selector)) ∧
  waitForElement_polling Samples.clock_hidden Samples.email_selector 1000 5 =
    Some (Rejected (str "Element not found: " ++ Samples.email_selector)).
Proof.
  destruct waitForElement_ready_or_timeout as (H1 & H2 & H3 & H4).
  split; [|split; [|split]].
  - apply (H1 Samples.email_selector Samples.dom_hidden
             [Mutation Samples.dom_hidden; Mutation Samples.dom_shown]).
    reflexivity.
  - apply (H2 _ _ Samples.hidden_input); reflexivity.
  - apply H3. apply hidden_none_ready.
    intros d Hd. repeat (apply elem_of_cons in Hd as [->|Hd]; [done|]).
    by apply not_elem_of_nil in Hd.
  - destruct (H4 Samples.clock_hidden Samples.email_selector 1000 5)
      as (o & E & _ & Hr).
    rewrite E. f_equal. apply Hr. intros t _ _. apply hidden_none_ready.
    intros d Hd. by apply list_elem_of_singleton in Hd as ->.
Defined.

End WaiterFacts.
(** ** The ledger, the cursor and the reentrancy guard *)

Section ContentFacts.
Import CCGenerator Content ContentMore.

Lemma lookup_snoc {A} (l : list A) (x : A) : (l ++ [x]) !! length l = Some x.
Proof. by rewrite list_lookup_middle. Qed.

Lemma insert_snoc {A} (l : list A) (x y : A) :
  <[length l := y]> (l ++ [x]) = l ++ [y].
Proof.
  rewrite insert_app_r_alt by lia. by rewrite Nat.sub_diag.
Qed.

Lemma record_head r rs : record r rs !! 0 = Some r.
Proof. done. Qed.

Lemma record_length r rs : length (record r rs) ≤ 100.
Proof. unfold record. rewrite length_take. lia. Qed.

Lemma record_full r (init : list RunResult) oldest :
  length (init ++ [oldest]) = 100 →
  record r (Some (init ++ [oldest])) = r :: init.
Proof.
  intros Hlen. rewrite length_app in Hlen. simpl in Hlen.
  unfold record. simpl default.
  change 100 with (S 99). rewrite firstn_cons. f_equal.
  replace 99 with (length init) by lia. apply take_app_length.
Qed.

Lemma handle_ledger_bound ev w :
  length (ledger w) ≤ 100 → length (ledger (handle ev w)) ≤ 100.
Proof.
  intros Hw. destruct ev; simpl; try done.
  - unfold runAutomation_start. by destruct (isRunning _).
  - destruct (tasks w !! i) as [[]|]; try done.
    unfold runAutomation_loaded. by destruct (_ =? _).
  - destruct (tasks w !! i) as [[]|]; try done.
    unfold runAutomation_steps.
    destruct (emailPanel page), (fillEmail page), (clickContinue page),
      (paymentPanel page), (fillPayment page); done.
  - destruct (tasks w !! i) as [[| | settings idx result |]|]; try done.
    change (ledger (runAutomation_save i settings idx result w))
      with (record result (adobeAutoResults (storage w))).
    apply record_length.
  - unfold ledger. simpl. lia.
  - destruct (adobeAutoSettings _); [done|]. unfold ledger. simpl. lia.
Qed.

Lemma run_events_ledger_bound evs w :
  length (ledger w) ≤ 100 → length (ledger (run_events evs w)) ≤ 100.
Proof.
  revert w. induction evs as [|ev evs IH]; intros w Hw; [done|].
  simpl. apply IH. by apply handle_ledger_bound.
Qed.

Lemma save_ledger w i settings idx result :
  tasks w !! i = Some (AwaitResults settings idx result) →
  ledger (handle (ResultsLoaded i) w) = take 100 (result :: ledger w).
Proof. intros H. simpl. by rewrite H. Qed.

(** The world after one uninterrupted run, phase by phase. *)
Lemma start_idle w :
  idle w → handle Start w = spawn AwaitSettings (set_isRunning true w).
Proof. intros H. simpl. unfold runAutomation_start. by rewrite H. Qed.


Lemma identifiers_nonempty w :
  identifiers w ≠ [] → (length (identifiers w) =? 0) = false.
Proof.
  intros H. apply Nat.eqb_neq. by destruct (identifiers w).
Qed.

Lemma loaded_spec i env w :
  tasks w !! i = Some AwaitSettings → identifiers w ≠ [] →
  let w' := handle (SettingsLoaded i env) w in
  storage w' = storage w ∧
  isRunning (session w') = isRunning (session w) ∧
  currentEmail (session w') = Some (run_email w) ∧
  steps_run w' = steps_run w ∧
  ∃ cardData formData,
    cardData = fst (generate (nowYear env) (nowMonth env)
      (or_str (s_bin (default empty_settings (adobeAutoSettings (storage w))))
              (str "4537890000000000")) (rand env)) ∧
    tasks w' =
      <[i := InSteps (default empty_settings (adobeAutoSettings (storage w)))
                     (cursor w) (run_email w) cardData formData]> (tasks w).
Proof.
  intros Ht Hne. cbn [handle]. rewrite Ht. unfold runAutomation_loaded.
  fold (identifiers w). rewrite identifiers_nonempty by done.
  repeat split; try reflexivity. by eexists _, _.
Qed.

Lemma steps_spec i page iso w settings idx e cardData formData :
  tasks w !! i = Some (InSteps settings idx e cardData formData) →
  let w' := handle (StepsDone i page iso) w in
  storage w' = storage w ∧
  isRunning (session w') = false ∧
  currentEmail (session w') = currentEmail (session w) ∧
  tasks w' =
    <[i := AwaitResults settings idx
             {| email := e;
                res_cardNumber := js_slice_from (cardNumber cardData) (-4);
                timestamp := iso;
                success := run_success page |}]> (tasks w).
Proof.
  intros Ht. cbn [handle]. rewrite Ht.
  unfold runAutomation_steps, run_success.
  destruct (emailPanel page), (fillEmail page), (clickContinue page),
    (paymentPanel page), (fillPayment page); repeat split; reflexivity.
Qed.

Lemma save_spec i w settings idx result :
  tasks w !! i = Some (AwaitResults settings idx result) →
  let w' := handle (ResultsLoaded i) w in
  cursor w' = idx + 1 ∧
  identifiers w' = emails_of settings ∧
  ledger w' = take 100 (result :: ledger w) ∧
  session w' = session w ∧
  steps_run w' = steps_run w ∧
  tasks w' = <[i := Finished]> (tasks w).
Proof.
  intros Ht. cbn [handle]. rewrite Ht. repeat split; reflexivity.
Qed.

Lemma complete_run_spec env page iso w :
  idle w → identifiers w ≠ [] →
  let w' := complete_run env page iso w in
  cursor w' = cursor w + 1 ∧
  identifiers w' = identifiers w ∧
  idle w' ∧
  ledger w' = take 100 (run_result env page iso w :: ledger w) ∧
  currentEmail (session w') = Some (run_email w) ∧
  tasks w' = tasks w ++ [Finished].
Proof.
  intros Hidle Hne. unfold complete_run, run_events.
  cbn [fold_left]. rewrite start_idle by done.
  set (w1 := spawn AwaitSettings (set_isRunning true w)).
  assert (tasks w1 = tasks w ++ [AwaitSettings]) as Ht1 by done.
  destruct (loaded_spec (length (tasks w)) env w1) as (Hs2 & Hr2 & He2 & _ & cd & fd & Hcd & Ht2).
  { rewrite Ht1. apply lookup_snoc. }
  { done. }
  set (w2 := handle (SettingsLoaded _ env) w1) in *.
  rewrite Ht1, insert_snoc in Ht2.
  destruct (steps_spec (length (tasks w)) page iso w2 _ _ _ _ _
              ltac:(rewrite Ht2; apply lookup_snoc)) as (Hs3 & Hr3 & He3 & Ht3).
  set (w3 := handle (StepsDone _ page iso) w2) in *.
  rewrite Ht2, insert_snoc in Ht3.
  destruct (save_spec (length (tasks w)) w3 _ _ _
              ltac:(rewrite Ht3; apply lookup_snoc))
    as (Hc4 & Hi4 & Hl4 & Hse4 & _ & Ht4).
  set (w4 := handle (ResultsLoaded _) w3) in *.
  rewrite Ht3, insert_snoc in Ht4.
  assert (ledger w3 = ledger w) as Hl3.
  { unfold ledger. by rewrite Hs3, Hs2. }
  repeat split.
  - exact Hc4.
  - exact Hi4.
  - unfold idle. by rewrite Hse4.
  - rewrite Hl4, Hl3. unfold run_result. by rewrite Hcd.
  - rewrite Hse4, He3. exact He2.
  - exact Ht4.
Qed.

Lemma complete_runs_spec runs w :
  idle w → identifiers w ≠ [] →
  let w' := complete_runs runs w in
  cursor w' = cursor w + length runs ∧
  identifiers w' = identifiers w ∧ idle w'.
Proof.
  revert w. induction runs as [|[[env page] iso] runs IH]; intros w Hidle Hne.
  - simpl. split; [lia|done].
  - destruct (complete_run_spec env page iso w Hidle Hne)
      as (Hc & Hi & Hid & _).
    destruct (IH (complete_run env page iso w) Hid ltac:(by rewrite Hi))
      as (Hc' & Hi' & Hid').
    unfold complete_runs in *. cbn [fold_left length].
    repeat split.
    + rewrite Hc', Hc. lia.
    + by rewrite Hi', Hi.
    + done.
Qed.

(** C1 (as the code has it). A completed run, whatever its outcome,
    stores cursor + 1, without reduction modulo N; the reduction is made
    when the cursor is read.  So after K runs carried out one after the
    other, each started in an idle session after the one before has
    written its result, with no settings saved in between, over a list of
    N >= 1 identifiers the stored cursor is cursor_before + K, the list is
    unchanged, and the next run uses the identifier at index
    (cursor_before + K) mod N. *)
Theorem cursor_after_runs (runs : list (Env * Page * jsstring)) (w : World) :
  idle w → identifiers w ≠ [] →
  let w' := complete_runs runs w in
  let N := length (identifiers w) in
  cursor w' = cursor w + length runs ∧
  identifiers w' = identifiers w ∧
  ∀ env page iso,
    currentEmail (session (complete_run env page iso w')) =
    Some (default [] (identifiers w !! ((cursor w + length runs) mod N))).
Proof.
  intros Hidle Hne.
  destruct (complete_runs_spec runs w Hidle Hne) as (Hc & Hi & Hid).
  cbv zeta. split; [done|]. split; [done|].
  intros env page iso.
  destruct (complete_run_spec env page iso (complete_runs runs w) Hid
              ltac:(by rewrite Hi)) as (_ & _ & _ & _ & He & _).
  rewrite He. unfold run_email. by rewrite Hi, Hc.
Qed.

Lemma cursor_after_runs_witness :
  let runs := [(Samples.env0, Samples.page_ok, Samples.iso0);
               (Samples.env0, Samples.page_failed, Samples.iso0);
               (Samples.env0, Samples.page_partial, Samples.iso0);
               (Samples.env0, Samples.page_ok, Samples.iso0)] in
  let w := Samples.world_abc in
  let w' := complete_runs runs w in
  cursor w' = cursor w + length runs ∧
  identifiers w' = identifiers w ∧
  ∀ env page iso,
    currentEmail (session (complete_run env page iso w')) =
    Some (default [] (identifiers w !! ((cursor w + length runs) mod 3))).
Proof.
  intros runs w.
  apply (cursor_after_runs runs w); [reflexivity | discriminate].
Defined.

(** C1 as stated fails: with one identifier and cursor 0, the cursor
    stored after a run is 1, and not (0 + 1) mod 1 = 0. *)
Lemma cursor_not_reduced :
  let w := Samples.world_one in
  let w' := complete_run Samples.env0 Samples.page_ok Samples.iso0 w in
  length (identifiers w) = 1 ∧ cursor w = 0 ∧ cursor w' = 1 ∧
  cursor w' ≠ (cursor w + 1) mod length (identifiers w).
Proof. vm_compute. repeat split; discriminate. Qed.

(** Scenario A: three identifiers, three successful runs.  The ledger is
    newest first; the stored cursor is 3. *)
Example scenario_A :
  let run := (Samples.env0, Samples.page_ok, Samples.iso0) in
  let w' := complete_runs [run; run; run] Samples.world_abc in
  map email (ledger w') = [str "c@x"; str "b@x"; str "a@x"] ∧
  cursor w' = 3.
Proof. vm_compute. done. Qed.

(** C2. Recording a result puts it first in the ledger and keeps the
    first 100 entries: the stored ledger has at most 100 entries after
    every recording and stays so under every event; recording into a
    ledger of 100 entries drops its last (oldest) entry and puts the new
    one at position 0. *)
Theorem ledger_newest_first_bounded :
  (∀ w i settings idx result,
     tasks w !! i = Some (AwaitResults settings idx result) →
     let w' := handle (ResultsLoaded i) w in
     ledger w' = record result (Some (ledger w)) ∧
     ledger w' !! 0 = Some result ∧
     length (ledger w') ≤ 100) ∧
  (∀ result init oldest,
     length (init ++ [oldest]) = 100 →
     record result (Some (init ++ [oldest])) = result :: init) ∧
  (∀ evs w, length (ledger w) ≤ 100 →
            length (ledger (run_events evs w)) ≤ 100).
Proof.
  split; [|split].
  - intros w i settings idx result Ht. cbv zeta.
    rewrite (save_ledger w i settings idx result Ht).
    split; [done|]. split; [done|]. rewrite length_take. lia.
  - apply record_full.
  - apply run_events_ledger_bound.
Qed.

Lemma ledger_newest_first_bounded_witness :
  let r := Samples.result_n 100 in
  let w := set_task 0 (AwaitResults (Samples.settings_of "a@x" (Some 0)) 0 r)
             (spawn AwaitSettings Samples.world_full) in
  let w' := handle (ResultsLoaded 0) w in
  (length (ledger w) = 100 ∧ ledger w' !! 0 = Some r ∧
   length (ledger w') ≤ 100) ∧
  record r (Some (map Samples.result_n (seq 0 99) ++ [Samples.result_n 99]))
    = r :: map Samples.result_n (seq 0 99) ∧
  length (ledger (run_events [Start; ClearResults; Installed; Stop] w)) ≤ 100.
Proof.
  intros r w w'.
  destruct ledger_newest_first_bounded as (H1 & H2 & H3).
  split; [|split].
  - destruct (H1 w 0 (Samples.settings_of "a@x" (Some 0)) 0 r eq_refl)
      as (_ & Hh & Hl).
    split; [reflexivity|]. split; [exact Hh | exact Hl].
  - apply H2. reflexivity.
  - apply H3. vm_compute. lia.
Defined.

Lemma loaded_empty i env w :
  tasks w !! i = Some AwaitSettings → identifiers w = [] →
  let w' := handle (SettingsLoaded i env) w in
  storage w' = storage w ∧ steps_run w' = steps_run w ∧
  idle w' ∧ tasks w' = <[i := Finished]> (tasks w).
Proof.
  intros Ht He. cbn [handle]. rewrite Ht. unfold runAutomation_loaded.
  fold (identifiers w). rewrite He. done.
Qed.

Lemma filter_insert_count {A} (f : A → bool) (l : list A) i x y :
  l !! i = Some x →
  length (List.filter f (<[i := y]> l)) + (if f x then 1 else 0) =
  length (List.filter f l) + (if f y then 1 else 0).
Proof.
  revert i. induction l as [|a l IH]; intros i Hi; [done|].
  destruct i as [|i]; simpl in *.
  - injection Hi as ->. destruct (f x), (f y); simpl; lia.
  - specialize (IH i Hi). destruct (f a); simpl; lia.
Qed.

Lemma filter_lookup_pos {A} (f : A → bool) (l : list A) i x :
  l !! i = Some x → f x = true → 0 < length (List.filter f l).
Proof.
  revert i. induction l as [|a l IH]; intros i Hi Hx; [done|].
  destruct i as [|i]; simpl in *.
  - injection Hi as ->. rewrite Hx. simpl. lia.
  - specialize (IH i Hi Hx). destruct (f a); simpl; lia.
Qed.

Lemma guard_ok_handle ev w :
  is_stop ev = false → guard_ok w → guard_ok (handle ev w).
Proof.
  intros Hev Hw. unfold guard_ok, active_count in *.
  destruct ev; try discriminate Hev; try exact Hw.
  - (* Start *)
    cbn [handle]. unfold runAutomation_start.
    destruct (isRunning (session w)) eqn:E; [by rewrite E|].
    simpl. rewrite List.filter_app, length_app. simpl. lia.
  - (* SettingsLoaded *)
    cbn [handle]. destruct (tasks w !! i) as [[| | |]|] eqn:Ht; try exact Hw.
    pose proof (filter_lookup_pos active _ _ _ Ht eq_refl) as Hpos.
    destruct (isRunning (session w)) eqn:E; [|lia].
    destruct (decide (identifiers w = [])) as [He|Hne].
    + destruct (loaded_empty i env w Ht He) as (_ & _ & Hid & Htk).
      cbn [handle] in Hid, Htk. rewrite Ht in Hid, Htk.
      rewrite Hid, Htk.
      pose proof (filter_insert_count active _ i _ Finished Ht). simpl in *. lia.
    + destruct (loaded_spec i env w Ht Hne) as (_ & Hr & _ & _ & cd & fd & _ & Htk).
      cbn [handle] in Hr, Htk. rewrite Ht in Hr, Htk.
      rewrite Hr, Htk, E.
      pose proof (filter_insert_count active _ i _
        (InSteps (default empty_settings (adobeAutoSettings (storage w)))
           (cursor w) (run_email w) cd fd) Ht).
      simpl in *. lia.
  - (* StepsDone *)
    cbn [handle].
    destruct (tasks w !! i) as [[|s idx e cd fd| |]|] eqn:Ht; try exact Hw.
    pose proof (filter_lookup_pos active _ _ _ Ht eq_refl) as Hpos.
    destruct (isRunning (session w)) eqn:E; [|lia].
    destruct (steps_spec i page iso w s idx e cd fd Ht) as (_ & Hr & _ & Htk).
    cbn [handle] in Hr, Htk. rewrite Ht in Hr, Htk. rewrite Hr, Htk.
    match goal with |- context [<[i := ?t]> _] =>
      pose proof (filter_insert_count active _ i _ t Ht) end.
    simpl in *. lia.
  - (* ResultsLoaded *)
    cbn [handle].
    destruct (tasks w !! i) as [[| |s idx r|]|] eqn:Ht; try exact Hw.
    destruct (save_spec i w s idx r Ht) as (_ & _ & _ & Hs & _ & Htk).
    cbn [handle] in Hs, Htk. rewrite Ht in Hs, Htk. rewrite Hs, Htk.
    pose proof (filter_insert_count active _ i _ Finished Ht).
    simpl in *. lia.
  - (* Installed *)
    cbn [handle]. by destruct (adobeAutoSettings (storage w)).
Qed.





End ContentFacts.
(** ** Step 3: what is attempted and what is reported *)

Section Step3Facts.
Import Content Step3.

Lemma step3_attempts page cardNumber :
  panelActive page = true →
  attempts (snd (stepFillPayment page cardNumber)) =
  CardNumber :: later_attempts page.
Proof.
  destruct page as [p c e f l z]. simpl. intros ->.
  destruct c as [[| |?]|[[| |?]|]| |?];
    destruct e as [|[| |?]]; try reflexivity;
    destruct f as [|[| |?]]; try reflexivity;
    destruct l as [|[| |?]]; try reflexivity;
    destruct z as [|[| |?]]; reflexivity.
Qed.

Lemma step3_report page cardNumber :
  panelActive page = true → no_later_throw page = true →
  failedFields (snd (stepFillPayment page cardNumber)) = reported_failures page ∧
  match reported_failures page with
  | [] =>
      fst (stepFillPayment page cardNumber) = Return true ∧
      last (reported (snd (stepFillPayment page cardNumber))) =
        Some {| st_step := 3; st_message := str "Payment info filled ✓";
                st_isError := false |}
  | names =>
      fst (stepFillPayment page cardNumber) = Return false ∧
      last (reported (snd (stepFillPayment page cardNumber))) =
        Some {| st_step := 3;
                st_message := str "Failed: " ++ join (str ", ") names;
                st_isError := true |}
  end.
Proof.
  destruct page as [p c e f l z]. simpl. intros -> Hno.
  destruct e as [|[| |?]]; try discriminate Hno;
    destruct f as [|[| |?]]; try discriminate Hno;
    destruct l as [|[| |?]]; try discriminate Hno;
    destruct z as [|[| |?]]; try discriminate Hno;
    destruct c as [[| |?]|[[| |?]|]| |?]; (split; [reflexivity|]);
    split; reflexivity.
Qed.

(** C5 (as the code has it). Once the payment panel is active, the
    card number block never ends the step: the expiry is looked up next
    whatever happened to the card number, and the fields looked up after
    it are those the page determines without regard to the card number.
    When no later injection throws, all four are looked up, and the step
    reports [Failed: ] followed by the names, joined by a comma, of the
    card number when its injection left it empty, threw or was blocked,
    and of every later control that was located and left empty; with no
    such name it reports success.  A control that is not located is
    skipped and not named. *)
Theorem step3_attempts_and_report (page : PaymentPage) (cardNumber : jsstring) :
  panelActive page = true →
  let run := stepFillPayment page cardNumber in
  attempts (snd run) = CardNumber :: later_attempts page ∧
  (∀ c, attempts (snd (stepFillPayment (with_card c page) cardNumber)) =
        attempts (snd run)) ∧
  (no_later_throw page = true →
     attempts (snd run) = [CardNumber; Expiry; FirstName; LastName; PostalCode] ∧
     failedFields (snd run) = reported_failures page ∧
     match reported_failures page with
     | [] =>
         fst run = Return true ∧
         last (reported (snd run)) =
           Some {| st_step := 3; st_message := str "Payment info filled ✓";
                   st_isError := false |}
     | names =>
         fst run = Return false ∧
         last (reported (snd run)) =
           Some {| st_step := 3;
                   st_message := str "Failed: " ++ join (str ", ") names;
                   st_isError := true |}
     end).
Proof.
  intros Hp. cbv zeta. split; [by apply step3_attempts|]. split.
  - intros c. by rewrite !step3_attempts.
  - intros Hno. split; [|by apply step3_report].
    rewrite step3_attempts by done. unfold later_attempts.
    unfold no_later_throw in Hno.
    destruct (throws (expiryField page)), (throws (firstNameField page)),
      (throws (lastNameField page)); done.
Qed.

Lemma step3_attempts_and_report_witness :
  let page := Samples.payment_blocked in
  let run := stepFillPayment page (str "4537890000000016") in
  attempts (snd run) = [CardNumber; Expiry; FirstName; LastName; PostalCode] ∧
  (∀ c, attempts (snd (stepFillPayment (with_card c page)
                         (str "4537890000000016"))) = attempts (snd run)) ∧
  fst run = Return false ∧
  last (reported (snd run)) =
    Some {| st_step := 3;
            st_message := str "Failed: Card number (iframe blocked), First name";
            st_isError := true |}.
Proof.
  intros page run.
  destruct (step3_attempts_and_report page (str "4537890000000016") eq_refl)
    as (_ & Hc & H).
  destruct (H eq_refl) as (Ha & _ & Hr & Hl).
  split; [exact Ha|]. split; [exact Hc|]. split; [exact Hr | exact Hl].
Defined.

(** C5 as stated fails.  A control that never shows up is not filled,
    yet the step reports success and names nothing; and when a later
    injection throws, the report is the error message, without the name
    of the card number that was left empty before. *)
Lemma step3_failed_field_not_named :
  (let run := stepFillPayment Samples.payment_no_expiry (str "4537890000000016") in
   filled Samples.payment_no_expiry Expiry = false ∧
   fst run = Return true ∧
   failedFields (snd run) = [] ∧
   last (reported (snd run)) =
     Some {| st_step := 3; st_message := str "Payment info filled ✓";
             st_isError := false |}) ∧
  (let run := stepFillPayment Samples.payment_expiry_throws
                (str "4537890000000016") in
   filled Samples.payment_expiry_throws CardNumber = false ∧
   filled Samples.payment_expiry_throws Expiry = false ∧
   fst run = Return false ∧
   last (reported (snd run)) =
     Some {| st_step := 3;
             st_message := str "Error: descriptor is undefined";
             st_isError := true |}).
Proof. vm_compute. done. Qed.

End Step3Facts.
(** ** The debugger bridge *)

Section BridgeFacts.
Import Bridge.

Lemma fold_push_frames (f : FrameTree → list Frame) cs acc :
  fold_left (λ frames child, frames ++ f child) cs acc =
  acc ++ concat (map f cs).
Proof.
  revert acc. induction cs as [|c cs IH]; intros acc; simpl.
  - by rewrite app_nil_r.
  - by rewrite IH, app_assoc.
Qed.

(** The loop with [push] computes the depth-first, root-first order. *)
Lemma getAllFrames_preorder t : getAllFrames t = preorder t.
Proof.
  revert t. fix IH 1. intros [f cs]. simpl.
  rewrite fold_push_frames. simpl. f_equal. f_equal.
  induction cs as [|c cs IHcs]; simpl; [done|].
  by rewrite IH, IHcs.
Qed.

Lemma attach_has chrome tabId s :
  is_Some (debuggerSessions s !! tabId) →
  attachDebugger chrome tabId s = (Return true, s).
Proof.
  intros H. unfold attachDebugger, se_bind, has.
  by rewrite bool_decide_eq_true_2.
Qed.

Lemma attach_fresh chrome tabId s :
  debuggerSessions s !! tabId = None →
  attachDebugger chrome tabId s =
  match attach chrome tabId with
  | Return _ =>
      (Return true,
       {| debuggerSessions := <[tabId := true]> (debuggerSessions s);
          calls := calls s ++ [CallAttach tabId true] |})
  | Throw e =>
      (Throw e,
       {| debuggerSessions := debuggerSessions s;
          calls := calls s ++ [CallAttach tabId false] |})
  end.
Proof.
  intros H. unfold attachDebugger, se_bind, has.
  rewrite bool_decide_eq_false_2 by (rewrite H; by intros [? ?]).
  unfold se_try, se_bind, log, se_modify, se_lift, set_session, se_ret,
    se_throw.
  by destruct (attach chrome tabId).
Qed.

Lemma attach_success_has chrome tabId s s1 r :
  attachDebugger chrome tabId s = (Return r, s1) →
  r = true ∧ is_Some (debuggerSessions s1 !! tabId).
Proof.
  destruct (debuggerSessions s !! tabId) eqn:E.
  - rewrite attach_has by eauto. intros [= <- <-]. eauto.
  - rewrite attach_fresh by done. destruct (attach chrome tabId); [|done].
    intros [= <- <-]. split; [done|]. simpl. rewrite lookup_insert_eq. eauto.
Qed.

Lemma attach_twice chrome tabId s :
  (attachDebugger chrome tabId ;; attachDebugger chrome tabId) s =
  attachDebugger chrome tabId s.
Proof.
  unfold se_bind at 1.
  destruct (attachDebugger chrome tabId s) as [[r|e] s1] eqn:E; [|done].
  destruct (attach_success_has _ _ _ _ _ E) as [-> H].
  by apply attach_has.
Qed.

Lemma live_app cs1 cs2 tabId n :
  live (cs1 ++ cs2) tabId n = live cs2 tabId (live cs1 tabId n).
Proof.
  revert n. induction cs1 as [|c cs1 IH]; intros n; [done|].
  destruct c as [t [] | t | t | t f | t ctx | t]; simpl; apply IH.
Qed.

Lemma preserves_ret {A} (a : A) : preserves (se_ret a).
Proof. by intros s. Qed.

Lemma preserves_throw {A} e : preserves (@se_throw State A e).
Proof. by intros s. Qed.

Lemma preserves_lift {A} (r : Exc A) : preserves (se_lift r).
Proof. by intros s. Qed.

Lemma preserves_bind {A B} (m : SE State A) (k : A → SE State B) :
  preserves m → (∀ a, preserves (k a)) → preserves (se_bind m k).
Proof.
  intros Hm Hk s Hs. unfold se_bind. specialize (Hm s Hs).
  destruct (m s) as [[a|e] s1]; [by apply Hk|done].
Qed.

Lemma preserves_try {A} (m : SE State A) (h : jsstring → SE State A) :
  preserves m → (∀ e, preserves (h e)) → preserves (se_try m h).
Proof.
  intros Hm Hh s Hs. unfold se_try. specialize (Hm s Hs).
  destruct (m s) as [[a|e] s1]; [done|by apply Hh].
Qed.

Lemma preserves_log_neutral c :
  (∀ tabId n, live [c] tabId n = n) → preserves (log c).
Proof.
  intros Hc s Hs tabId. simpl. rewrite live_app, Hc. apply Hs.
Qed.

Lemma preserves_attach chrome tabId : preserves (attachDebugger chrome tabId).
Proof.
  intros s Hs. destruct (debuggerSessions s !! tabId) eqn:E.
  - rewrite attach_has by eauto. done.
  - rewrite attach_fresh by done.
    destruct (attach chrome tabId); intros t; simpl; rewrite live_app; simpl.
    + destruct (Hs t) as [Hle Hin]. destruct (Nat.eqb_spec tabId t) as [->|Hne].
      * split; [|intros _; rewrite lookup_insert_eq; eauto].
        assert (live (calls s) t 0 ≠ 1); [|lia].
        intros H1. apply Hin in H1. rewrite E in H1. by destruct H1.
      * split; [done|]. intros H1. rewrite lookup_insert_ne by done. auto.
    + apply Hs.
Qed.

Lemma preserves_detach tabId : preserves (detachDebugger tabId).
Proof.
  intros s Hs. unfold detachDebugger, se_bind, has.
  destruct (bool_decide _); [|done].
  intros t. simpl. rewrite live_app. simpl.
  destruct (Hs t) as [Hle Hin].
  destruct (Nat.eqb_spec tabId t) as [->|Hne]; simpl.
  - split; [lia|discriminate].
  - split; [done|]. intros H1. rewrite lookup_delete_ne by done. auto.
Qed.

Lemma preserves_onDetach tabId : preserves (onDetach tabId).
Proof.
  intros s Hs. unfold onDetach, se_bind, log, se_modify. simpl.
  destruct (Nat.eqb_spec tabId 0) as [->|H0]; intros t; simpl;
    rewrite live_app; simpl; destruct (Hs t) as [Hle Hin].
  - destruct t; [split; [lia|discriminate]|done].
  - destruct (Nat.eqb_spec tabId t) as [->|Hne]; simpl;
      [split; [lia|discriminate]|].
    split; [done|]. intros H1. rewrite lookup_delete_ne by done. auto.
Qed.

Lemma preserves_command {A} c (answer : Exc A) :
  (∀ tabId n, live [c] tabId n = n) → preserves (sendDebuggerCommand c answer).
Proof.
  intros Hc. apply preserves_try; [|intros e; apply preserves_throw].
  apply preserves_bind; [by apply preserves_log_neutral|].
  intros _. apply preserves_lift.
Qed.

Lemma preserves_try_frame chrome tabId script frame :
  preserves (try_frame chrome tabId script frame).
Proof.
  apply preserves_try; [|intros e; apply preserves_ret].
  apply preserves_bind; [by apply preserves_command|]. intros ctx.
  apply preserves_bind; [by apply preserves_command|]. intros r.
  destruct r; apply preserves_ret.
Qed.

Lemma preserves_frames_loop chrome tabId script frames :
  preserves (frames_loop chrome tabId script frames).
Proof.
  induction frames as [|f frames IH]; simpl; [apply preserves_ret|].
  apply preserves_bind; [apply preserves_try_frame|].
  intros [r|]; [apply preserves_ret|done].
Qed.

Lemma preserves_fill chrome tabId selector value :
  preserves (fillIframeField chrome tabId selector value).
Proof.
  apply preserves_try; [|intros e; apply preserves_ret].
  apply preserves_bind; [apply preserves_attach|]. intros _.
  apply preserves_bind; [by apply preserves_command|]. intros t.
  apply preserves_bind; [apply preserves_frames_loop|].
  intros [r|]; apply preserves_ret.
Qed.

Lemma run_ops_sessions_ok ops s :
  sessions_ok s → sessions_ok (run_ops ops s).
Proof.
  revert s. induction ops as [|op ops IH]; intros s Hs; [done|].
  simpl. apply IH. destruct op; simpl.
  - by apply preserves_attach.
  - by apply preserves_detach.
  - by apply preserves_onDetach.
  - by apply preserves_fill.
Qed.

Lemma init_sessions_ok : sessions_ok init.
Proof. intros t. simpl. split; [lia|discriminate]. Qed.

(** C8. [attachDebugger] is idempotent: on a tab that has a session it
    returns true and leaves the bookkeeping and the list of API calls as
    they are; after a successful attach a second one is such a call; so
    attach followed by attach is attach.  Through every sequence of
    attach, detach, detached events and fills, Chrome holds at most one
    session per tab. *)
Theorem attach_idempotent :
  (∀ chrome tabId s,
     is_Some (debuggerSessions s !! tabId) →
     attachDebugger chrome tabId s = (Return true, s)) ∧
  (∀ chrome chrome' tabId s s1 r,
     attachDebugger chrome tabId s = (Return r, s1) →
     attachDebugger chrome' tabId s1 = (Return true, s1)) ∧
  (∀ chrome tabId s,
     (attachDebugger chrome tabId ;; attachDebugger chrome tabId) s =
     attachDebugger chrome tabId s) ∧
  (∀ ops tabId, live (calls (run_ops ops init)) tabId 0 ≤ 1).
Proof.
  split; [exact attach_has|]. split; [|split; [exact attach_twice|]].
  - intros chrome chrome' tabId s s1 r E.
    destruct (attach_success_has _ _ _ _ _ E) as [_ H].
    by apply attach_has.
  - intros ops tabId.
    apply (run_ops_sessions_ok ops init init_sessions_ok tabId).
Qed.

Lemma attach_idempotent_witness :
  let s1 := snd (attachDebugger Samples.chrome_C 7 init) in
  attachDebugger Samples.chrome_down 7 s1 = (Return true, s1) ∧
  attachDebugger Samples.chrome_C 7 s1 = (Return true, s1) ∧
  calls s1 = [CallAttach 7 true].
Proof.
  intros s1. destruct attach_idempotent as (H1 & H2 & _).
  split; [|split].
  - apply H1. vm_compute. eauto.
  - apply (H2 Samples.chrome_C Samples.chrome_C 7 init s1 true). reflexivity.
  - reflexivity.
Defined.

(** *** The fill across frames *)

Lemma try_frame_spec chrome tabId script frame s :
  ∃ s', try_frame chrome tabId script frame s =
          (Return (Success (id frame) <$> yields chrome tabId script frame), s') ∧
        debuggerSessions s' = debuggerSessions s ∧
        attempted (calls s') = attempted (calls s) ++ [id frame].
Proof.
  unfold try_frame, yields, sendDebuggerCommand, se_try, se_bind, log,
    se_modify, se_lift, se_ret, se_throw, attempted. simpl.
  destruct (createIsolatedWorld chrome tabId (id frame)) as [ctx|e]; simpl.
  - destruct (evaluate chrome tabId ctx script) as [[v| |]|e]; simpl;
      eexists; (split; [reflexivity|]); simpl; (split; [done|]);
      by rewrite !omap_app, <- app_assoc, ?app_nil_r.
  - eexists. split; [reflexivity|]. simpl. split; [done|].
    by rewrite omap_app.
Qed.

Lemma frames_loop_spec chrome tabId script frames s :
  ∃ r tried s',
    frames_loop chrome tabId script frames s = (Return r, s') ∧
    debuggerSessions s' = debuggerSessions s ∧
    attempted (calls s') = attempted (calls s) ++ tried ∧
    loop_outcome chrome tabId script frames r tried.
Proof.
  revert s. induction frames as [|f frames IH]; intros s.
  - exists None, [], s. simpl. rewrite app_nil_r. repeat split.
    apply loop_exhausted. intros j g Hj. by rewrite lookup_nil in Hj.
  - simpl. unfold se_bind.
    destruct (try_frame_spec chrome tabId script f s) as (s1 & -> & Hs1 & Ha1).
    destruct (yields chrome tabId script f) as [v|] eqn:Hy; simpl.
    + exists (Some (Success (id f) v)), [id f], s1. repeat split; try done.
      apply (loop_found _ _ _ (f :: frames) 0 f v); [done|done|].
      intros j g Hj. lia.
    + destruct (IH s1) as (r & tried & s' & -> & Hs' & Ha' & Hout).
      exists r, (id f :: tried), s'. repeat split.
      * by rewrite Hs'.
      * rewrite Ha', Ha1. by rewrite <- app_assoc.
      * destruct Hout as [k g v Hk Hv Hbefore | Hall].
        -- apply (loop_found _ _ _ (f :: frames) (S k) g v); [done|done|].
           intros [|j] h Hj Hh; simpl in Hh; [by injection Hh as <-|].
           apply (Hbefore j); [lia|done].
        -- apply (loop_exhausted _ _ _ (f :: frames)).
           intros [|j] h Hh; simpl in Hh; [by injection Hh as <-|].
           by apply (Hall j).
Qed.

Lemma attach_ok_spec chrome tabId s :
  is_Some (debuggerSessions s !! tabId) ∨ attach chrome tabId = Return tt →
  ∃ s1, attachDebugger chrome tabId s = (Return true, s1) ∧
        attempted (calls s1) = attempted (calls s).
Proof.
  intros H. destruct (debuggerSessions s !! tabId) eqn:E.
  - exists s. by rewrite attach_has by eauto.
  - destruct H as [[? H]|H]; [done|].
    rewrite attach_fresh, H by done. eexists. split; [done|].
    unfold attempted. simpl. by rewrite omap_app, app_nil_r.
Qed.

Lemma fill_total chrome tabId selector value s :
  ∃ response s',
    fillIframeField chrome tabId selector value s = (Return response, s').
Proof.
  unfold fillIframeField, se_try.
  match goal with |- context [match ?m s with _ => _ end] =>
    destruct (m s) as [[r|e] s1] end; by eexists _, _.
Qed.

(** C4. The frames are flattened depth first, root first, and tried in
    that order.  The fill stops at the first frame that yields the
    control and returns success with that frame's id, having tried no
    later frame; when no frame yields it, every frame has been tried and
    the result is the failure value.  The fill never throws. *)
Theorem fill_first_frame :
  (∀ t, getAllFrames t = preorder t) ∧
  (∀ chrome tabId selector value s, ∃ response s',
     fillIframeField chrome tabId selector value s = (Return response, s')) ∧
  (∀ chrome tabId selector value s t,
     is_Some (debuggerSessions s !! tabId) ∨ attach chrome tabId = Return tt →
     getFrameTree chrome tabId = Return t →
     ∃ r tried s',
       fillIframeField chrome tabId selector value s =
         (Return (default (Failure (str "Input not found in any frame")) r),
          s') ∧
       attempted (calls s') = attempted (calls s) ++ tried ∧
       loop_outcome chrome tabId
         {| sc_selector := selector; sc_value := value |}
         (getAllFrames t) r tried).
Proof.
  split; [exact getAllFrames_preorder|]. split; [exact fill_total|].
  intros chrome tabId selector value s t Hatt Htree.
  destruct (attach_ok_spec chrome tabId s Hatt) as (s1 & E1 & Ha1).
  set (s2 := {| debuggerSessions := debuggerSessions s1;
                calls := calls s1 ++ [CallGetFrameTree tabId] |}).
  destruct (frames_loop_spec chrome tabId
              {| sc_selector := selector; sc_value := value |}
              (getAllFrames t) s2) as (r & tried & s' & E2 & _ & Ha2 & Hout).
  exists r, tried, s'. split; [|split; [|done]].
  - unfold fillIframeField, se_try, se_bind at 1. rewrite E1.
    unfold se_bind at 1, sendDebuggerCommand, se_try, se_bind at 1, log,
      se_modify, se_lift. rewrite Htree. fold s2.
    unfold se_bind. rewrite E2. by destruct r.
  - rewrite Ha2, <- Ha1. unfold s2, attempted. simpl.
    by rewrite omap_app, app_nil_r.
Qed.

(** Scenario C: the control is in the second frame; the third and the
    fourth are not tried. *)
Lemma fill_first_frame_witness :
  ∃ r tried s',
    fillIframeField Samples.chrome_C 7 (str "#card-number") (str "4111") init =
      (Return (default (Failure (str "Input not found in any frame")) r), s') ∧
    attempted (calls s') = attempted (calls init) ++ tried ∧
    loop_outcome Samples.chrome_C 7
      {| sc_selector := str "#card-number"; sc_value := str "4111" |}
      (getAllFrames Samples.tree_C) r tried.
Proof.
  destruct fill_first_frame as (_ & _ & H).
  apply (H Samples.chrome_C 7 _ _ init Samples.tree_C);
    [right; reflexivity | reflexivity].
Defined.

Example scenario_C :
  let '(r, s') := fillIframeField Samples.chrome_C 7 (str "#card-number")
                    (str "4111") init in
  r = Return (Success (str "F2") (str "4111")) ∧
  attempted (calls s') = [str "F1"; str "F2"] ∧
  id <$> getAllFrames Samples.tree_C = [str "F1"; str "F2"; str "F2a"; str "F3"].
Proof. vm_compute. done. Qed.

End BridgeFacts.
(** ** The stop message and the waits in flight *)

Section StopFacts.
Import Waiter Content.

Lemma waits_handle ev w : waits (handle ev w) = waits_after ev (waits w).
Proof.
  destruct ev; simpl; try done.
  - unfold runAutomation_start. by destruct (isRunning _).
  - destruct (tasks w !! i) as [[]|]; try done.
    unfold runAutomation_loaded. by destruct (_ =? _).
  - destruct (tasks w !! i) as [[]|]; try done.
    unfold runAutomation_steps.
    destruct (emailPanel page), (fillEmail page), (clickContinue page),
      (paymentPanel page), (fillPayment page); done.
  - by destruct (tasks w !! i) as [[]|].
  - by destruct (adobeAutoSettings _).
Qed.

Lemma waits_run_events evs w :
  waits (run_events evs w) = fold_left (λ ws ev, waits_after ev ws) evs (waits w).
Proof.
  revert w. induction evs as [|ev evs IH]; intros w; [done|].
  simpl. by rewrite IH, waits_handle.
Qed.

Lemma run_wait_outcomes target signals :
  let r := run_wait (Pending target) signals in
  r = Pending target ∨ (∃ element, r = Settled (Resolved element)) ∨
  r = Settled ResolvedTrue ∨ r = Settled (Rejected (timeout_error target)).
Proof.
  cbv zeta. induction signals as [|sg signals IH]; [by left|].
  destruct sg as [d|]; simpl.
  - destruct target as [sel|c]; simpl.
    + destruct (visible sel d) as [el|]; simpl; [|done].
      rewrite run_wait_settled. right. left. by exists el.
    + destruct (c d); [|done]. rewrite run_wait_settled. auto.
  - rewrite run_wait_settled. auto.
Qed.

(** C6 (as the code has it). The waits have no cancel.  The stop
    message clears [isRunning] and reports; it leaves the waits, the
    invocations in flight and the storage as they are, and every wait
    goes on as if no stop had been sent.  A wait is pending, or resolved
    with its element or with true, or rejected with its timeout error:
    there is no other outcome. *)
Theorem stop_leaves_waits :
  (∀ w, let w' := handle Stop w in
        waits w' = waits w ∧ tasks w' = tasks w ∧ storage w' = storage w ∧
        isRunning (session w') = false ∧
        statuses w' = statuses w ++
          [{| st_step := 0; st_message := str "Stopped";
              st_isError := false |}]) ∧
  (∀ evs w, waits (run_events evs (handle Stop w)) = waits (run_events evs w)) ∧
  (∀ target document signals,
     let r := run_wait (start target document) signals in
     r = Pending target ∨ (∃ element, r = Settled (Resolved element)) ∨
     r = Settled ResolvedTrue ∨ r = Settled (Rejected (timeout_error target))).
Proof.
  split; [done|]. split.
  - intros evs w. by rewrite !waits_run_events.
  - intros target document signals. cbv zeta. unfold start.
    destruct (check target document) as [o|] eqn:E;
      [|apply run_wait_outcomes].
    rewrite run_wait_settled. right.
    destruct target as [sel|c]; simpl in E.
    + destruct (visible sel document) as [el|]; simpl in E; [|done].
      injection E as <-. left. by exists el.
    + destruct (c document); [|done]. injection E as <-. auto.
Qed.

(** C6 as stated fails: a wait in flight is still pending after the
    stop; afterwards it resolves with the element when that shows up, or
    is rejected with the timeout error when its timer fires. *)
Lemma stop_does_not_cancel :
  let w := Samples.world_waiting in
  let pending := Pending (ForElement Samples.email_selector) in
  waits w !! 0 = Some pending ∧
  waits (handle Stop w) !! 0 = Some pending ∧
  waits (run_events [Stop; DomMutated Samples.dom_shown] w) !! 0 =
    Some (Settled (Resolved Samples.shown_input)) ∧
  waits (run_events [Stop; TimerFired 0] w) !! 0 =
    Some (Settled (Rejected (str "Element not found: " ++ Samples.email_selector))).
Proof. vm_compute. done. Qed.

(** A run is not cancelled by the stop either: a start after it launches
    a second invocation next to the first, both read the same cursor,
    and two results are recorded for one advance of the cursor. *)
Example stop_then_start_overlaps :
  let w := run_events
    [Start; SettingsLoaded 0 Samples.env0; Stop;
     Start; SettingsLoaded 1 Samples.env0;
     StepsDone 0 Samples.page_ok Samples.iso0;
     StepsDone 1 Samples.page_ok Samples.iso0;
     ResultsLoaded 0; ResultsLoaded 1] Samples.world_abc in
  map email (ledger w) = [str "a@x"; str "a@x"] ∧ cursor w = 1.
Proof. vm_compute. done. Qed.

End StopFacts.
(** ** More on the generator *)

Section GeneratorMore.
Import CCGenerator CCBatch.

(** The sum over a number with one digit singled out. *)
Lemma luhn_sum_split (pre post : jsstring) d :
  all_digits pre → all_digits post → d < 10 →
  ∃ A isOdd, ∀ e, e < 10 →
    luhn_loop (rev (pre ++ [digit_char e] ++ post)) true (Some 0) =
    Some (A + luhn_digit isOdd e).
Proof.
  intros Hpre Hpost Hd.
  destruct (luhn_loop_sum (rev post) true) as [A HA];
    [by apply Forall_rev|].
  set (o := Nat.iter (length (rev post)) negb true).
  destruct (luhn_loop_sum (rev pre) (negb o)) as [P HP];
    [by apply Forall_rev|].
  exists (A + P), o. intros e He.
  rewrite !rev_app_distr. simpl. rewrite <- app_assoc. simpl.
  rewrite luhn_loop_app, HA. fold o. cbn [luhn_loop].
  rewrite parseInt_digit_char by done.
  unfold luhn_digit. destruct o; cbv zeta; cbn [negb]; rewrite HP; f_equal; lia.
Qed.

Lemma validateLuhn_digits (body : jsstring) c :
  all_digits body → c < 10 →
  validateLuhn (body ++ [digit_char c]) =
  if (length body + 1 <? 13) || (19 <? length body + 1) then false
  else js_strict_eq (calculateLuhnCheckDigit body) (Some c).
Proof.
  intros Hb Hc. unfold validateLuhn.
  rewrite filter_all_digits.
  2:{ apply Forall_app. split; [done|].
      constructor; [by apply is_digit_digit_char|constructor]. }
  rewrite length_app. simpl.
  destruct ((length body + 1 <? 13) || (19 <? length body + 1)); [done|].
  unfold js_slice, js_slice_from, js_index. simpl.
  rewrite length_app. simpl.
  replace (Z.to_nat (Z.max 0 (Z.of_nat (length body + 1) + -1)))
    with (length body) by lia.
  change (Z.to_nat 0) with 0. rewrite Nat.min_0_r, Nat.sub_0_r, drop_0.
  rewrite take_app_length, drop_app_length. simpl.
  by rewrite parseInt_digit_char.
Qed.

Lemma check_digit_differs X Y :
  X mod 10 ≠ Y mod 10 → (10 - X mod 10) mod 10 ≠ (10 - Y mod 10) mod 10.
Proof.
  pose proof (Nat.mod_upper_bound X 10 ltac:(lia)) as HX.
  pose proof (Nat.mod_upper_bound Y 10 ltac:(lia)) as HY.
  revert HX HY. generalize (X mod 10), (Y mod 10). intros x y Hx Hy Hne.
  do 10 (destruct x as [|x]; [do 10 (destruct y as [|y]; [first [done | by vm_compute]|]); lia|]).
  lia.
Qed.

Lemma sum_mod_differs A a b :
  a < 10 → b < 10 → a ≠ b → (A + a) mod 10 ≠ (A + b) mod 10.
Proof.
  intros Ha Hb Hne Heq.
  rewrite (Nat.Div0.add_mod A a), (Nat.Div0.add_mod A b) in Heq.
  rewrite (Nat.mod_small a), (Nat.mod_small b) in Heq by lia.
  pose proof (Nat.mod_upper_bound A 10 ltac:(lia)) as HA.
  revert HA Heq. generalize (A mod 10). intros x Hx Heq.
  assert (∀ u v, u < 20 → v < 20 → u mod 10 = v mod 10 → u = v ∨ u = v + 10 ∨ v = u + 10) as Hm.
  { intros u v Hu Hv.
    destruct (decide (u < 10)); destruct (decide (v < 10)).
    - rewrite !Nat.mod_small by lia. lia.
    - replace v with ((v - 10) + 1 * 10) at 1 by lia.
      rewrite Nat.Div0.mod_add, !Nat.mod_small by lia. lia.
    - replace u with ((u - 10) + 1 * 10) at 1 by lia.
      rewrite Nat.Div0.mod_add, !Nat.mod_small by lia. lia.
    - replace u with ((u - 10) + 1 * 10) at 1 by lia.
      replace v with ((v - 10) + 1 * 10) at 1 by lia.
      rewrite !Nat.Div0.mod_add, !Nat.mod_small by lia. lia. }
  destruct (Hm (x + a) (x + b)) as [H|[H|H]]; lia.
Qed.

(** X1. Luhn detects every single digit error: a valid number of digits
    in which one digit is replaced by another digit is not valid. *)
Theorem validateLuhn_single_digit_error (pre post : jsstring) (d d' : nat) :
  all_digits pre → all_digits post → d < 10 → d' < 10 → d ≠ d' →
  validateLuhn (pre ++ [digit_char d] ++ post) = true →
  validateLuhn (pre ++ [digit_char d'] ++ post) = false.
Proof.
  intros Hpre Hpost Hd Hd' Hne.
  destruct post as [|c post _] using rev_ind.
  - (* the check digit itself is changed *)
    rewrite !app_nil_r, !validateLuhn_digits by done.
    destruct (_ || _); [done|].
    destruct (calculateLuhnCheckDigit pre) as [k|]; [|done]. simpl.
    intros Hk. apply Nat.eqb_eq in Hk. subst k. by apply Nat.eqb_neq.
  - (* a digit before the check digit is changed *)
    apply Forall_app in Hpost as [Hpost Hc]. inversion_clear Hc as [|? ? Hc' _].
    destruct (parseInt_char_digit c Hc') as (k & Hk & -> & _).
    replace (pre ++ [digit_char d] ++ post ++ [digit_char k])
      with ((pre ++ [digit_char d] ++ post) ++ [digit_char k])
      by (by rewrite <- !app_assoc).
    replace (pre ++ [digit_char d'] ++ post ++ [digit_char k])
      with ((pre ++ [digit_char d'] ++ post) ++ [digit_char k])
      by (by rewrite <- !app_assoc).
    assert (∀ e, e < 10 → all_digits (pre ++ [digit_char e] ++ post)) as Hall.
    { intros e He. apply Forall_app. split; [done|]. apply Forall_app.
      split; [|done]. constructor; [by apply is_digit_digit_char|constructor]. }
    rewrite !validateLuhn_digits by auto.
    rewrite !length_app. cbn [length].
    destruct (_ || _); [done|].
    destruct (luhn_sum_split pre post d Hpre Hpost Hd) as (A & o & Hsum).
    rewrite (check_digit_of_sum _ _ (Hsum d Hd)).
    rewrite (check_digit_of_sum _ _ (Hsum d' Hd')). cbn [js_strict_eq].
    intros Hv. apply Nat.eqb_eq in Hv. apply Nat.eqb_neq. rewrite <- Hv.
    apply check_digit_differs, sum_mod_differs;
      [by apply luhn_digit_lt | by apply luhn_digit_lt |].
    intros Heq. by apply luhn_digit_inj in Heq.
Qed.

Lemma validateLuhn_single_digit_error_witness :
  validateLuhn (str "453914880343" ++ [digit_char 6] ++ str "467") = true ∧
  validateLuhn (str "453914880343" ++ [digit_char 1] ++ str "467") = false.
Proof.
  split; [reflexivity|].
  apply (validateLuhn_single_digit_error (str "453914880343") (str "467") 6 1);
    [repeat constructor | repeat constructor | lia | lia | lia | reflexivity].
Defined.

(** X2. The check digit is the one digit that makes the Luhn sum of the
    completed number a multiple of 10. *)
Theorem check_digit_completes_sum (body : jsstring) :
  all_digits body →
  ∃ c, c < 10 ∧ calculateLuhnCheckDigit body = Some c ∧
    ∀ e, e < 10 →
      ∃ T, luhn_total (body ++ [digit_char e]) = Some T ∧
           (T mod 10 = 0 ↔ e = c).
Proof.
  intros Hb.
  destruct (luhn_loop_sum (rev body) true) as [S HS]; [by apply Forall_rev|].
  exists ((10 - S mod 10) mod 10). split; [apply Nat.mod_upper_bound; lia|].
  split.
  { apply check_digit_of_sum. by rewrite HS. }
  intros e He. exists (e + S). split.
  - unfold luhn_total. rewrite rev_app_distr. cbn [rev app luhn_loop].
    rewrite parseInt_digit_char by done. cbn [negb]. by rewrite HS.
  - by apply check_digit_zero_sum.
Qed.

Lemma check_digit_completes_sum_witness :
  ∃ c, c < 10 ∧ calculateLuhnCheckDigit (str "453914880343646") = Some c ∧
    ∀ e, e < 10 →
      ∃ T, luhn_total (str "453914880343646" ++ [digit_char e]) = Some T ∧
           (T mod 10 = 0 ↔ e = c).
Proof.
  apply (check_digit_completes_sum (str "453914880343646")).
  repeat constructor.
Defined.

(** *** Formatting *)

Lemma space_not_digit c : is_space c = true → is_digit c = false.
Proof.
  unfold is_space, is_digit. intros H.
  apply orb_true_iff in H as [H|H]; [apply orb_true_iff in H as [H|H]|].
  - apply andb_true_iff in H as [_ H]. apply Nat.leb_le in H.
    apply andb_false_iff. left. apply Nat.leb_gt. lia.
  - apply Nat.eqb_eq in H. apply andb_false_iff. left. apply Nat.leb_gt. lia.
  - apply Nat.eqb_eq in H. apply andb_false_iff. right. apply Nat.leb_gt. lia.
Qed.

Lemma filter_trimStart (s : jsstring) :
  List.filter is_digit (trimStart s) = List.filter is_digit s.
Proof.
  induction s as [|c s IH]; [done|]. simpl.
  destruct (is_space c) eqn:E; [|done].
  by rewrite (space_not_digit c E).
Qed.

Lemma filter_trim (s : jsstring) :
  List.filter is_digit (trim s) = List.filter is_digit s.
Proof.
  unfold trim. rewrite List.filter_rev, filter_trimStart, List.filter_rev.
  by rewrite rev_involutive, filter_trimStart.
Qed.

Lemma filter_group4 fuel (s : jsstring) :
  List.filter is_digit (group4 fuel s) = List.filter is_digit s.
Proof.
  revert s. induction fuel as [|fuel IH]; intros s; [done|].
  destruct s as [|a [|b [|c [|d rest]]]]; try done.
  cbn [group4].
  destruct (is_digit a && is_digit b && is_digit c && is_digit d) eqn:E.
  - apply andb_true_iff in E as [E Hd]. apply andb_true_iff in E as [E Hc].
    apply andb_true_iff in E as [Ha Hb].
    cbn [List.filter]. rewrite Ha, Hb, Hc, Hd. cbn [List.filter].
    change (is_digit " ") with false. cbv iota. by rewrite IH.
  - cbn [List.filter]. destruct (is_digit a); by rewrite IH.
Qed.

Lemma cvv_loop_digits n (acc : jsstring) r :
  all_digits acc →
  length (fst (cvv_loop n acc r)) = length acc + n ∧
  all_digits (fst (cvv_loop n acc r)).
Proof.
  revert acc r. induction n as [|n IH]; intros acc r Hacc; cbn [cvv_loop].
  - unfold gret. simpl. split; [lia|done].
  - unfold gbind. destruct (randomDigit_spec r) as (d & Hd & Hrd).
    destruct (randomDigit r) as [ds r']. simpl in Hrd. subst ds.
    destruct (IH (acc ++ [digit_char d]) r') as [Hl Ha].
    { apply Forall_app. split; [done|].
      constructor; [by apply is_digit_digit_char|constructor]. }
    split; [|done]. rewrite Hl, length_app. cbn [length]. lia.
Qed.

(** The record [generate] returns, field by field. *)
Lemma generate_eq y m (b : jsstring) r :
  ∃ cn ex cv r2 r',
    generate y m b r =
      ({| cardNumber := cn; cardType := detectCardType cn; expiry := ex;
          cvv := cv;
          formatted :=
            {| fmt_cardNumber := trim (group4 (length cn) cn);
               fmt_expiry := exp_month ex ++ str "/" ++ exp_year ex |} |}, r') ∧
    cv = fst (generateCVV (match detectCardType cn with AMEX => 4 | _ => 3 end) r2).
Proof.
  unfold generate. cbv zeta. unfold gbind at 1.
  destruct (generateCardNumber _ _ r) as [cn r1].
  unfold gbind at 1.
  match goal with |- context [let '(a, r') := ?e r1 in _] =>
    destruct (e r1) as [ex r2] end.
  unfold gbind, gret.
  destruct (generateCVV _ r2) as [cv r3] eqn:E.
  exists cn, ex, cv, r2, r3. split; [reflexivity|]. by rewrite E.
Qed.

Lemma generate_formatted y m (b : jsstring) r :
  let c := fst (generate y m b r) in
  fmt_cardNumber (formatted c) =
    trim (group4 (length (cardNumber c)) (cardNumber c)) ∧
  cardType c = detectCardType (cardNumber c) ∧
  length (cvv c) = match cardType c with AMEX => 4 | _ => 3 end ∧
  all_digits (cvv c).
Proof.
  destruct (generate_eq y m b r) as (cn & ex & cv & r2 & r' & -> & Hcv).
  cbn [fst fmt_cardNumber formatted cardNumber cardType cvv].
  split; [done|]. split; [done|]. subst cv. unfold generateCVV.
  destruct (cvv_loop_digits
              (match detectCardType cn with AMEX => 4 | _ => 3 end) [] r2)
    as [Hl Ha]; [constructor|].
  split; [exact Hl | exact Ha].
Qed.

(** X3. The formatted card number has the digits of the card number:
    [validateLuhn] and [detectCardType] give it the same answer as the
    number itself, for every card [generate] returns. *)
Theorem formatted_number_same_digits y m (binInput : jsstring) r :
  let c := fst (generate y m binInput r) in
  List.filter is_digit (fmt_cardNumber (formatted c)) =
    List.filter is_digit (cardNumber c) ∧
  validateLuhn (fmt_cardNumber (formatted c)) = validateLuhn (cardNumber c) ∧
  detectCardType (fmt_cardNumber (formatted c)) = cardType c.
Proof.
  cbv zeta. destruct (generate_formatted y m binInput r) as (Hf & Ht & _).
  assert (List.filter is_digit (fmt_cardNumber (formatted (generate y m binInput r).1))
          = List.filter is_digit (cardNumber (generate y m binInput r).1)) as Hd.
  { by rewrite Hf, filter_trim, filter_group4. }
  split; [done|]. split.
  - unfold validateLuhn. by rewrite Hd.
  - rewrite Ht. unfold detectCardType. by rewrite Hd.
Qed.

(** X4. The verification code consists of digits, four of them when the
    card type is AMEX and three otherwise. *)
Theorem cvv_length_by_type y m (binInput : jsstring) r :
  let c := fst (generate y m binInput r) in
  all_digits (cvv c) ∧
  length (cvv c) = match cardType c with AMEX => 4 | _ => 3 end ∧
  cardType c = detectCardType (cardNumber c).
Proof.
  cbv zeta. destruct (generate_formatted y m binInput r) as (_ & Ht & Hl & Ha).
  done.
Qed.

(** *** The expiry *)

Lemma month_two_chars mo :
  1 ≤ mo ≤ 12 → length (padStart0 2 (nat_toString mo)) = 2.
Proof.
  intros H. do 13 (destruct mo as [|mo]; [first [lia | reflexivity]|]). lia.
Qed.

(** X5. A generated expiry is one to four years ahead of the current
    year, with a month from 01 to 12 written with two characters; the
    branch for an expiry in the current year is never taken, so exactly two
    random numbers are drawn. *)
Theorem generateExpiry_future (currentYear currentMonth : nat) (r : RandState) :
  ∃ futureYears month,
    1 ≤ futureYears ≤ 4 ∧ 1 ≤ month ≤ 12 ∧
    fst (generateExpiry currentYear currentMonth r) =
      {| exp_month := padStart0 2 (nat_toString month);
         exp_year := js_slice_from (nat_toString (currentYear + futureYears)) (-2) |} ∧
    length (exp_month (fst (generateExpiry currentYear currentMonth r))) = 2 ∧
    calls (snd (generateExpiry currentYear currentMonth r)) = calls r + 2.
Proof.
  unfold generateExpiry, gbind.
  pose proof (random_floor_lt 4 r ltac:(lia)) as H4.
  destruct (random_floor 4 r) as [a r1] eqn:E1. simpl in H4.
  assert (calls r1 = S (calls r)) as Hc1.
  { unfold random_floor in E1. by injection E1 as <- <-. }
  pose proof (random_floor_lt 12 r1 ltac:(lia)) as H12.
  destruct (random_floor 12 r1) as [b r2] eqn:E2. simpl in H12.
  assert (calls r2 = S (calls r1)) as Hc2.
  { unfold random_floor in E2. by injection E2 as <- <-. }
  replace (currentYear + (a + 1) =? currentYear) with false
    by (symmetry; apply Nat.eqb_neq; lia).
  simpl. exists (a + 1), (b + 1).
  split; [lia|]. split; [lia|]. split; [done|].
  split; [apply month_two_chars; lia | lia].
Qed.

(** *** The card number, position by position *)

Lemma replace_x_cons_digit c (s : jsstring) r :
  c ≠ "x"%char →
  replace_x (c :: s) r = ((c :: fst (replace_x s r)), snd (replace_x s r)).
Proof.
  intros Hc. simpl. destruct (Ascii.eqb_spec c "x"); [done|].
  unfold gbind, gret. by destruct (replace_x s r).
Qed.

Lemma replace_x_lookup (s : jsstring) r i c :
  s !! i = Some c → c ≠ "x"%char → fst (replace_x s r) !! i = Some c.
Proof.
  revert r i. induction s as [|a s IH]; intros r i Hi Hc; [done|].
  destruct i as [|i]; simpl in Hi.
  - injection Hi as ->. by rewrite replace_x_cons_digit.
  - simpl. destruct (Ascii.eqb a "x").
    + unfold gbind, gret. destruct (randomDigit_spec r) as (d & _ & Hd).
      destruct (randomDigit r) as [ds r1]. simpl in Hd. subst ds.
      specialize (IH r1 i Hi Hc). destruct (replace_x s r1). by simpl in *.
    + unfold gbind, gret. specialize (IH r i Hi Hc).
      destruct (replace_x s r). by simpl in *.
Qed.

Lemma pad_loop_prefix fuel len (s : jsstring) r :
  ∃ extra, fst (pad_loop fuel len s r) = s ++ extra.
Proof.
  revert s r. induction fuel as [|fuel IH]; intros s r.
  - exists []. simpl. by rewrite app_nil_r.
  - simpl. destruct (_ <? _)%Z; [|exists []; simpl; by rewrite app_nil_r].
    unfold gbind. destruct (randomDigit r) as [d r1].
    destruct (IH (s ++ d) r1) as [extra ->].
    exists (d ++ extra). by rewrite <- app_assoc.
Qed.

(** The fifteen characters before the check digit, and the number. *)
Lemma generateCardNumber_shape (binPattern : jsstring) r :
  ∃ tail body,
    length body = 15 ∧
    body = take 15 (fst (replace_x (toLowerCase binPattern) r) ++ tail) ∧
    fst (generateCardNumber binPattern 16 r) =
      body ++ jsnum_toString (calculateLuhnCheckDigit body).
Proof.
  unfold generateCardNumber, gbind, gret.
  destruct (replace_x (toLowerCase binPattern) r) as [s1 r1].
  destruct (pad_loop_prefix (Z.to_nat 16) 16 s1 r1) as [extra He].
  pose proof (pad_loop_length (Z.to_nat 16) 16 s1 r1 ltac:(lia)) as Hlen.
  destruct (pad_loop (Z.to_nat 16) 16 s1 r1) as [s2 r2].
  cbn [fst] in He, Hlen. subst s2. exists extra, (take 15 (s1 ++ extra)).
  split; [rewrite length_take; lia|]. split; [done|].
  cbv zeta. cbn [fst]. by rewrite take_15_of_padded by lia.
Qed.

Lemma toLowerCase_lookup (s : jsstring) i c :
  s !! i = Some c → toLowerCase s !! i = Some (toLowerCase_char c).
Proof.
  revert i. induction s as [|a s IH]; intros i Hi; [done|].
  destruct i as [|i]; simpl in *; [by injection Hi as ->|by apply IH].
Qed.

Lemma toLowerCase_bad c :
  is_pattern_char c = false →
  is_digit (toLowerCase_char c) = false ∧ toLowerCase_char c ≠ "x"%char.
Proof.
  unfold is_pattern_char. intros H.
  apply orb_false_iff in H as [H HX]. apply orb_false_iff in H as [Hd Hx].
  apply Ascii.eqb_neq in Hx, HX.
  assert (nat_of_ascii c ≠ 120) as Hx'.
  { intros E. apply Hx. rewrite <- (ascii_nat_embedding c), E. done. }
  assert (nat_of_ascii c ≠ 88) as HX'.
  { intros E. apply HX. rewrite <- (ascii_nat_embedding c), E. done. }
  pose proof (nat_ascii_bounded c) as Hb.
  unfold toLowerCase_char.
  destruct (((65 <=? nat_of_ascii c) && (nat_of_ascii c <=? 90)) ||
            ((192 <=? nat_of_ascii c) && (nat_of_ascii c <=? 222) &&
             negb (nat_of_ascii c =? 215))) eqn:E; [|done].
  assert (65 ≤ nat_of_ascii c ≤ 222) as [E1 E2].
  { apply orb_true_iff in E as [E|E].
    - apply andb_true_iff in E as [E1 E2]. apply Nat.leb_le in E1, E2.
      clear -E1 E2. lia.
    - apply andb_true_iff in E as [E _]. apply andb_true_iff in E as [E1 E2].
      apply Nat.leb_le in E1, E2. clear -E1 E2. lia. }
  split.
  - unfold is_digit. rewrite nat_ascii_embedding by (clear -E2; lia).
    apply andb_false_iff. right. apply Nat.leb_gt. clear -E1. lia.
  - intros E'. apply (f_equal nat_of_ascii) in E'.
    rewrite nat_ascii_embedding in E' by (clear -E2; lia).
    change (nat_of_ascii "x") with 120 in E'. clear -E' HX'. lia.
Qed.

Lemma elem_of_rev {A} (x : A) (l : list A) : x ∈ l → x ∈ rev l.
Proof. rewrite !list_elem_of_In. apply in_rev. Qed.

Lemma luhn_loop_non_digit (l : jsstring) isOdd acc c :
  c ∈ l → is_digit c = false → luhn_loop l isOdd acc = None.
Proof.
  intros Hin Hc. revert isOdd acc.
  induction l as [|a l IH]; intros isOdd acc; [by apply elem_of_nil in Hin|].
  apply elem_of_cons in Hin as [<-|Hin].
  - simpl. unfold parseInt_char. rewrite Hc.
    destruct isOdd, acc; apply luhn_loop_None.
  - simpl. by apply IH.
Qed.

(** X6. The generator does not check its pattern: a character that is
    neither a digit nor x/X among the first fifteen makes the check digit
    NaN, and the card number returned is fifteen characters followed by
    the text NaN. *)
Theorem generateCardNumber_bad_pattern (binPattern : jsstring) r i c :
  binPattern !! i = Some c → i < 15 → is_pattern_char c = false →
  ∃ body, length body = 15 ∧
    fst (generateCardNumber binPattern 16 r) = body ++ str "NaN" ∧
    ¬ all_digits (fst (generateCardNumber binPattern 16 r)).
Proof.
  intros Hi Hlt Hbad.
  destruct (toLowerCase_bad c Hbad) as [Hnd Hnx].
  destruct (generateCardNumber_shape binPattern r)
    as (tail & body & Hlen & Hbody & ->).
  assert (body !! i = Some (toLowerCase_char c)) as Hb.
  { rewrite Hbody, lookup_take_lt by done.
    apply lookup_app_l_Some.
    apply replace_x_lookup; [by apply toLowerCase_lookup|done]. }
  assert (calculateLuhnCheckDigit body = None) as ->.
  { unfold calculateLuhnCheckDigit.
    rewrite (luhn_loop_non_digit _ _ _ (toLowerCase_char c)); [done| |done].
    apply elem_of_rev. by apply list_elem_of_lookup_2 in Hb. }
  exists body. split; [done|]. split; [done|].
  intros Hall. apply Forall_app in Hall as [Hall _].
  rewrite Forall_forall in Hall.
  apply list_elem_of_lookup_2 in Hb. apply Hall in Hb. congruence.
Qed.

Lemma generateCardNumber_bad_pattern_witness :
  ∃ body, length body = 15 ∧
    fst (generateCardNumber (str "4537-89xx") 16 tape0) = body ++ str "NaN" ∧
    ¬ all_digits (fst (generateCardNumber (str "4537-89xx") 16 tape0)).
Proof.
  apply (generateCardNumber_bad_pattern (str "4537-89xx") tape0 4 "-"%char);
    [reflexivity | lia | reflexivity].
Defined.

Lemma replace_x_digits_prefix (b6 rest : jsstring) r :
  all_digits b6 →
  fst (replace_x (b6 ++ rest) r) = b6 ++ fst (replace_x rest r).
Proof.
  induction 1 as [|c l Hc _ IH]; [done|].
  cbn [app]. rewrite replace_x_cons_digit; [by rewrite IH|].
  intros ->. discriminate Hc.
Qed.

Lemma toLowerCase_app (a b : jsstring) :
  toLowerCase (a ++ b) = toLowerCase a ++ toLowerCase b.
Proof. unfold toLowerCase. apply map_app. Qed.

Lemma filter_digits_prefix (a b : jsstring) :
  all_digits a → List.filter is_digit (a ++ b) = a ++ List.filter is_digit b.
Proof. intros Ha. by rewrite List.filter_app, filter_all_digits. Qed.

Lemma js_slice_0 (s : jsstring) n :
  js_slice s 0 (Z.of_nat n) = take n s.
Proof.
  unfold js_slice, js_index.
  replace (Z.of_nat n <? 0)%Z with false by (symmetry; apply Z.ltb_ge; lia).
  change (0 <? 0)%Z with false. cbv iota. change (Z.to_nat 0) with 0.
  rewrite Nat.min_0_r, Nat.sub_0_r, drop_0, Nat2Z.id.
  destruct (decide (n ≤ length s)).
  - by rewrite Nat.min_r.
  - rewrite Nat.min_l by lia. by rewrite !take_ge by lia.
Qed.

Lemma detectCardType_prefix (b6 rest : jsstring) :
  all_digits b6 → length b6 = 6 →
  detectCardType (b6 ++ rest) = detectCardType b6.
Proof.
  intros Hb Hl. unfold detectCardType.
  rewrite filter_digits_prefix, (filter_all_digits b6) by done.
  change 6%Z with (Z.of_nat 6). rewrite !js_slice_0.
  by rewrite take_app_length', take_ge by lia.
Qed.

(** X7. A BIN of six digits fixes the card type: whatever follows in the
    pattern and whatever [Math.random] returns, the type of the generated
    card is the type of the six digits. *)
Theorem card_type_fixed_by_bin y m (binInput : jsstring) r (b6 rest : jsstring) :
  bin (parseBinInput binInput) = b6 ++ rest →
  all_digits b6 → length b6 = 6 →
  cardType (fst (generate y m binInput r)) = detectCardType b6.
Proof.
  intros Hbin Hb Hl.
  destruct (generate_formatted y m binInput r) as (_ & -> & _).
  rewrite generate_cardNumber, Hbin.
  destruct (generateCardNumber_shape (b6 ++ rest) r)
    as (tail & body & Hlen & Hbody & ->).
  rewrite toLowerCase_app, toLowerCase_digits in Hbody by done.
  rewrite replace_x_digits_prefix, <- app_assoc in Hbody by done.
  rewrite take_app_ge in Hbody by lia.
  rewrite Hbody, <- app_assoc. by apply detectCardType_prefix.
Qed.

Lemma card_type_fixed_by_bin_witness :
  cardType (fst (generate 2026 11 (str "371449xxxxxxxxx|12|2030") tape0)) = AMEX.
Proof.
  apply (card_type_fixed_by_bin 2026 11 (str "371449xxxxxxxxx|12|2030") tape0
           (str "371449") (str "xxxxxxxxx"));
    [reflexivity | repeat constructor | reflexivity].
Defined.

(** *** Parsing the pattern *)

Lemma not_elem_of_check (c : ascii) (s : jsstring) :
  forallb (λ x, negb (Ascii.eqb x c)) s = true → c ∉ s.
Proof.
  induction s as [|a s IH]; intros H; [apply not_elem_of_nil|].
  cbn [forallb] in H. apply andb_true_iff in H as [Ha Hs].
  apply not_elem_of_cons. split; [|by apply IH].
  intros ->. by rewrite Ascii.eqb_refl in Ha.
Qed.

Lemma split_on_no_sep sep (s : jsstring) : sep ∉ s → split_on sep s = [s].
Proof.
  induction s as [|c s IH]; intros Hs; [done|].
  apply not_elem_of_cons in Hs as [Hc Hs]. simpl.
  destruct (Ascii.eqb_spec c sep); [congruence|]. by rewrite IH.
Qed.

Lemma split_on_app sep (a rest : jsstring) :
  sep ∉ a → split_on sep (a ++ sep :: rest) = a :: split_on sep rest.
Proof.
  induction a as [|c a IH]; intros Ha.
  - simpl. by rewrite Ascii.eqb_refl.
  - apply not_elem_of_cons in Ha as [Hc Ha]. simpl.
    destruct (Ascii.eqb_spec c sep); [congruence|]. by rewrite IH.
Qed.

(** X8. A pattern [bin|month|year] is taken apart at the bars and each
    part is trimmed; a pattern without a bar has no month and no year.
    With a month and a year that are not blank, the expiry of the card is
    the month padded to two characters and the year, cut to its last two
    characters when it has four. *)
Theorem parseBinInput_parts y m r (b mo ye : jsstring) :
  "|"%char ∉ b → "|"%char ∉ mo → "|"%char ∉ ye →
  truthy (trim mo) = true → truthy (trim ye) = true →
  let binInput := b ++ "|"%char :: mo ++ "|"%char :: ye in
  parseBinInput binInput =
    {| bin := trim b; month := Some (trim mo); year := Some (trim ye) |} ∧
  parseBinInput b = {| bin := trim b; month := None; year := None |} ∧
  expiry (fst (generate y m binInput r)) =
    {| exp_month := padStart0 2 (trim mo);
       exp_year := if length (trim ye) =? 4 then js_slice_from (trim ye) (-2)
                   else trim ye |}.
Proof.
  intros Hb Hmo Hye Htm Hty. cbv zeta.
  assert (truthy mo = true) as Hm' by (destruct mo; [discriminate Htm|done]).
  assert (truthy ye = true) as Hy' by (destruct ye; [discriminate Hty|done]).
  assert (parseBinInput (b ++ "|"%char :: mo ++ "|"%char :: ye) =
          {| bin := trim b; month := Some (trim mo); year := Some (trim ye) |})
    as Hp.
  { unfold parseBinInput.
    rewrite split_on_app, split_on_app, split_on_no_sep by done.
    simpl. unfold part_trim. by rewrite Hm', Hy'. }
  split; [done|]. split.
  - unfold parseBinInput. by rewrite split_on_no_sep.
  - apply generate_expiry_given; by rewrite ?Hp.
Qed.

Lemma parseBinInput_parts_witness :
  let b := "160"%char :: str "453789xxxxxxxxxx" ++ ["160"%char] in
  let binInput := b ++ "|"%char :: str " 3" ++ "|"%char :: str "2029" in
  parseBinInput binInput =
    {| bin := str "453789xxxxxxxxxx"; month := Some (str "3");
       year := Some (str "2029") |} ∧
  parseBinInput b =
    {| bin := str "453789xxxxxxxxxx"; month := None; year := None |} ∧
  expiry (fst (generate 2026 11 binInput tape0)) =
    {| exp_month := str "03"; exp_year := str "29" |}.
Proof.
  apply (parseBinInput_parts 2026 11 tape0
           ("160"%char :: str "453789xxxxxxxxxx" ++ ["160"%char]) (str " 3")
           (str "2029")); try reflexivity; by apply not_elem_of_check.
Defined.

(** *** Batches *)

Lemma generateCardNumber_valid (binPattern : jsstring) r :
  Forall (λ c, is_pattern_char c = true) binPattern →
  length (fst (generateCardNumber binPattern 16 r)) = 16 ∧
  validateLuhn (fst (generateCardNumber binPattern 16 r)) = true.
Proof.
  intros Hpat. unfold generateCardNumber, gbind, gret.
  pose proof (replace_x_digits _ r (toLowerCase_pattern _ Hpat)) as Hrep.
  destruct (replace_x (toLowerCase binPattern) r) as [s1 r1]. simpl in Hrep.
  pose proof (pad_loop_digits (Z.to_nat 16) 16 s1 r1 Hrep) as Hpad.
  pose proof (pad_loop_length (Z.to_nat 16) 16 s1 r1 ltac:(lia)) as Hlen.
  destruct (pad_loop (Z.to_nat 16) 16 s1 r1) as [s2 r2]. simpl in Hpad, Hlen.
  simpl fst. rewrite take_15_of_padded by done.
  assert (all_digits (take 15 s2)) as Hbody by (by apply Forall_take).
  assert (length (take 15 s2) = 15) as Hbl by (rewrite length_take; lia).
  destruct (calculateLuhnCheckDigit_digits _ Hbody) as (c & Hc & Hluhn).
  rewrite Hluhn. simpl jsnum_toString. rewrite nat_toString_digit by done.
  split; [rewrite length_app; simpl; lia|].
  apply validateLuhn_check_digit; [done|lia|done|done].
Qed.

Lemma batch_loop_spec y m (binInput : jsstring) n cards r :
  Forall (λ c, is_pattern_char c = true) (bin (parseBinInput binInput)) →
  ∃ new, fst (batch_loop y m binInput n cards r) = cards ++ new ∧
         length new = n ∧
         Forall (λ c, length (cardNumber c) = 16 ∧
                      validateLuhn (cardNumber c) = true) new.
Proof.
  intros Hpat. revert cards r. induction n as [|n IH]; intros cards r.
  - exists []. simpl. by rewrite app_nil_r.
  - simpl. unfold gbind.
    pose proof (generate_cardNumber y m binInput r) as Hcn.
    destruct (generate y m binInput r) as [card r1]. simpl in Hcn.
    destruct (IH (cards ++ [card]) r1) as (new & -> & Hl & Hv).
    exists (card :: new). split; [by rewrite <- app_assoc|].
    split; [simpl; lia|]. constructor; [|done].
    rewrite Hcn. by apply generateCardNumber_valid.
Qed.

(** X9. A batch over a pattern of digits and wildcards has as many cards
    as asked for, each with a number of 16 characters that [validateLuhn]
    accepts; a count of 0 gives the empty list. *)
Theorem generateBatch_valid y m (binInput : jsstring) count r :
  Forall (λ c, is_pattern_char c = true) (bin (parseBinInput binInput)) →
  let cards := fst (generateBatch y m binInput count r) in
  length cards = count ∧
  Forall (λ c, length (cardNumber c) = 16 ∧
               validateLuhn (cardNumber c) = true) cards.
Proof.
  intros Hpat. cbv zeta. unfold generateBatch.
  destruct (batch_loop_spec y m binInput count [] r Hpat) as (new & -> & Hl & Hv).
  done.
Qed.

Lemma generateBatch_valid_witness :
  let cards := fst (generateBatch 2026 11 (str "4537890000000xxx") 10 tape0) in
  length cards = 10 ∧
  Forall (λ c, length (cardNumber c) = 16 ∧
               validateLuhn (cardNumber c) = true) cards.
Proof.
  apply (generateBatch_valid 2026 11 (str "4537890000000xxx") 10 tape0).
  repeat constructor.
Defined.

End GeneratorMore.
(** ** More on the runs *)

Section ContentMore.
Import CCGenerator Content ContentMore.

(** X10. As long as no stop message is sent, the guard keeps the runs
    apart: from a session that is idle with no invocation in flight, after
    any events at most one invocation of [runAutomation] is before the end
    of its steps, and there is one exactly when [isRunning] is set. *)
Theorem one_run_at_a_time (evs : list Event) (w : World) :
  guard_ok w → Forall (λ ev, is_stop ev = false) evs →
  guard_ok (run_events evs w) ∧ active_count (run_events evs w) ≤ 1.
Proof.
  intros Hw Hevs.
  assert (guard_ok (run_events evs w)) as H.
  { revert w Hw. induction Hevs as [|ev evs Hev _ IH]; intros w Hw; [done|].
    simpl. apply IH. by apply guard_ok_handle. }
  split; [done|]. unfold guard_ok in H. rewrite H.
  destruct (isRunning _); lia.
Qed.

Lemma one_run_at_a_time_witness :
  let evs := [Start; Start; SettingsLoaded 0 Samples.env0; Start;
              StepsDone 0 Samples.page_ok Samples.iso0; Start;
              ResultsLoaded 0; SettingsLoaded 1 Samples.env0; Start] in
  guard_ok (run_events evs Samples.world_abc) ∧
  active_count (run_events evs Samples.world_abc) ≤ 1.
Proof.
  intros evs. apply (one_run_at_a_time evs Samples.world_abc);
    [reflexivity | repeat constructor].
Defined.

(** *** The ledger over several runs *)





Example round_robin_wraps :
  let run := (Samples.env0, Samples.page_ok, Samples.iso0) in
  email <$> ledger (complete_runs [run; run; run; run] Samples.world_abc) =
  [str "a@x"; str "c@x"; str "b@x"; str "a@x"].
Proof. vm_compute. done. Qed.

(** *** What a run writes *)

Lemma generateCardNumber_length (binPattern : jsstring) r :
  16 ≤ length (fst (generateCardNumber binPattern 16 r)).
Proof.
  destruct (generateCardNumber_shape binPattern r)
    as (tail & body & Hlen & _ & ->).
  rewrite length_app, Hlen.
  unfold calculateLuhnCheckDigit.
  destruct (luhn_loop _ _ _) as [S|]; cbn [jsnum_toString].
  - rewrite nat_toString_digit by (apply Nat.mod_upper_bound; lia).
    cbn [length]. lia.
  - change (length (str "NaN")) with 3. lia.
Qed.

Lemma slice_last4 (s : jsstring) :
  4 ≤ length s →
  length (js_slice_from s (-4)) = 4 ∧ take (length s - 4) s ++ js_slice_from s (-4) = s.
Proof.
  intros H. unfold js_slice_from, js_index. simpl.
  replace (Z.to_nat (Z.max 0 (Z.of_nat (length s) + -4))) with (length s - 4)
    by lia.
  split; [rewrite length_drop; lia | apply take_drop].
Qed.

(** X12. The result a run records carries the last four characters of
    the generated card number and no more, whatever the stored pattern,
    together with the identifier at the cursor and the outcome of the
    steps. *)
Theorem recorded_card_suffix env page iso (w : World) :
  idle w → identifiers w ≠ [] →
  ∃ r pre,
    ledger (complete_run env page iso w) !! 0 = Some r ∧
    length (res_cardNumber r) = 4 ∧
    pre ++ res_cardNumber r = run_cardNumber env w ∧
    email r = identifier_at w (cursor w) ∧
    success r = run_success page ∧ timestamp r = iso.
Proof.
  intros Hidle Hne.
  destruct (complete_run_spec env page iso w Hidle Hne) as (_ & _ & _ & Hl & _).
  exists (run_result env page iso w).
  exists (take (length (run_cardNumber env w) - 4) (run_cardNumber env w)).
  split; [by rewrite Hl|].
  assert (4 ≤ length (run_cardNumber env w)) as H4.
  { unfold run_cardNumber. rewrite generate_cardNumber.
    pose proof (generateCardNumber_length
      (bin (parseBinInput (or_str (s_bin (default empty_settings
         (adobeAutoSettings (storage w)))) (str "4537890000000000"))))
      (rand env)). lia. }
  destruct (slice_last4 _ H4) as [H1 H2]. done.
Qed.

Lemma recorded_card_suffix_witness :
  ∃ r pre,
    ledger (complete_run Samples.env0 Samples.page_failed Samples.iso0
              Samples.world_abc) !! 0 = Some r ∧
    length (res_cardNumber r) = 4 ∧
    pre ++ res_cardNumber r = run_cardNumber Samples.env0 Samples.world_abc ∧
    email r = identifier_at Samples.world_abc (cursor Samples.world_abc) ∧
    success r = run_success Samples.page_failed ∧ timestamp r = Samples.iso0.
Proof.
  apply (recorded_card_suffix Samples.env0 Samples.page_failed Samples.iso0
           Samples.world_abc); [reflexivity | discriminate].
Defined.

Lemma save_settings_spec i w settings idx result :
  tasks w !! i = Some (AwaitResults settings idx result) →
  adobeAutoSettings (storage (handle (ResultsLoaded i) w)) =
  Some (with_index settings (idx + 1)).
Proof. intros Ht. cbn [handle]. by rewrite Ht. Qed.

(** X13. A run writes back the settings it read when it started, with
    the cursor advanced: settings saved on the settings page while the run
    is in its steps are overwritten when the run ends. *)
Theorem settings_saved_during_run_are_lost env page iso (s' : Settings) (w : World) :
  idle w → identifiers w ≠ [] →
  let i := length (tasks w) in
  let w' := run_events [Start; SettingsLoaded i env; SaveSettings s';
                        StepsDone i page iso; ResultsLoaded i] w in
  adobeAutoSettings (storage w') =
    Some (with_index (default empty_settings (adobeAutoSettings (storage w)))
                     (cursor w + 1)) ∧
  adobeAutoSettings (storage w') =
    adobeAutoSettings (storage (complete_run env page iso w)).
Proof.
  intros Hidle Hne. cbv zeta.
  assert (∀ evs_mid,
    (∀ w2, tasks (run_events evs_mid w2) = tasks w2) →
    adobeAutoSettings (storage (run_events
      ([Start; SettingsLoaded (length (tasks w)) env] ++ evs_mid ++
       [StepsDone (length (tasks w)) page iso; ResultsLoaded (length (tasks w))]) w))
    = Some (with_index (default empty_settings (adobeAutoSettings (storage w)))
                       (cursor w + 1))) as H.
  { intros evs_mid Hmid. unfold run_events. rewrite !fold_left_app.
    cbn [fold_left]. rewrite (start_idle w) by done.
    set (w1 := spawn AwaitSettings (set_isRunning true w)).
    destruct (loaded_spec (length (tasks w)) env w1)
      as (_ & _ & _ & _ & cd & fd & _ & Ht2); [apply lookup_snoc|done|].
    set (w2 := handle (SettingsLoaded _ env) w1) in *.
    change (tasks w1) with (tasks w ++ [AwaitSettings]) in Ht2.
    rewrite insert_snoc in Ht2.
    fold (run_events evs_mid w2). specialize (Hmid w2).
    set (w3 := run_events evs_mid w2) in *.
    destruct (steps_spec (length (tasks w)) page iso w3 _ _ _ _ _
                ltac:(rewrite Hmid, Ht2; apply lookup_snoc)) as (_ & _ & _ & Ht4).
    set (w4 := handle (StepsDone _ page iso) w3) in *.
    rewrite Hmid, Ht2, insert_snoc in Ht4.
    rewrite (save_settings_spec (length (tasks w)) w4 _ _ _
               ltac:(rewrite Ht4; apply lookup_snoc)).
    done. }
  split.
  - apply (H [SaveSettings s']). done.
  - etransitivity; [apply (H [SaveSettings s']); done|].
    symmetry. apply (H []). done.
Qed.

Lemma settings_saved_during_run_are_lost_witness :
  let s' := Samples.settings_of "new@x" (Some 0) in
  let w' := run_events [Start; SettingsLoaded 0 Samples.env0; SaveSettings s';
                        StepsDone 0 Samples.page_ok Samples.iso0;
                        ResultsLoaded 0] Samples.world_abc in
  adobeAutoSettings (storage w') =
    Some (with_index (default empty_settings
                        (adobeAutoSettings (storage Samples.world_abc))) 1) ∧
  adobeAutoSettings (storage w') =
    adobeAutoSettings (storage (complete_run Samples.env0 Samples.page_ok
                                  Samples.iso0 Samples.world_abc)).
Proof.
  intros s'.
  apply (settings_saved_during_run_are_lost Samples.env0 Samples.page_ok
           Samples.iso0 s' Samples.world_abc); [reflexivity | discriminate].
Defined.

(** *** The settings page *)

Lemma or_str_empty (s : jsstring) : or_str (Some s) [] = s.
Proof. by destruct s. Qed.

Lemma split_lines (l : list jsstring) :
  Forall (λ e, "010"%char ∉ e) l → l ≠ [] →
  split_on "010"%char (lines l) = l.
Proof.
  induction 1 as [|x l Hx Hl IH]; intros Hne; [done|].
  destruct l as [|y rest].
  - simpl. by apply split_on_no_sep.
  - change (lines (x :: y :: rest)) with (x ++ "010"%char :: lines (y :: rest)).
    rewrite split_on_app by done. by rewrite IH.
Qed.

Lemma filter_all {A} (f : A → bool) (l : list A) :
  Forall (λ x, f x = true) l → List.filter f l = l.
Proof. induction 1 as [|x l Hx _ IH]; [done|]. simpl. by rewrite Hx, IH. Qed.

(** X14. Identifiers written one per line are read back as they were
    written: [saveSettings] followed by the reading of the list in
    [runAutomation] returns every non-blank identifier, in order and
    untrimmed, and the count shown on the settings page is their number.
    The save also puts the cursor back to 0 and leaves the ledger alone. *)
Theorem saved_identifiers_read_back (w : World)
    (binInput firstNameInput lastNameInput postalCodeInput : jsstring)
    (ids : list jsstring) :
  Forall (λ e, ("010"%char ∉ e) ∧ truthy (trim e) = true) ids →
  let w' := handle (SaveSettings (saveSettings binInput (lines ids)
                      firstNameInput lastNameInput postalCodeInput)) w in
  identifiers w' = ids ∧
  updateEmailCount (lines ids) = length ids ∧
  cursor w' = 0 ∧ ledger w' = ledger w.
Proof.
  intros Hids. cbv zeta.
  assert (List.filter (λ e, truthy (trim e)) (split_on "010"%char (lines ids))
          = ids) as Hread.
  { destruct ids as [|x l]; [done|].
    rewrite split_lines; [|by eapply Forall_impl; [exact Hids|intros ? []]|done].
    apply filter_all. by eapply Forall_impl; [exact Hids|intros ? []]. }
  split; [|split; [|done]].
  - unfold identifiers, emails_of. cbn -[or_str split_on lines trim].
    by rewrite or_str_empty.
  - unfold updateEmailCount. by rewrite Hread.
Qed.

Lemma saved_identifiers_read_back_witness :
  let ids := [str "a@x"; str " b@x "; str "c@x"] in
  let w' := handle (SaveSettings (saveSettings (str " 453789xxxxxxxxxx ")
                      (lines ids) (str "John") (str "Smith") (str "SW1A 1AA")))
                   Samples.world_full in
  identifiers w' = ids ∧
  updateEmailCount (lines ids) = 3 ∧
  cursor w' = 0 ∧ ledger w' = ledger Samples.world_full.
Proof.
  intros ids.
  apply (saved_identifiers_read_back Samples.world_full
           (str " 453789xxxxxxxxxx ") (str "John") (str "Smith") (str "SW1A 1AA") ids).
  repeat constructor; by apply not_elem_of_check.
Defined.

Lemma split_on_no_sep_parts sep (s : jsstring) :
  Forall (λ e, sep ∉ e) (split_on sep s).
Proof.
  induction s as [|c s IH]; [repeat constructor; apply not_elem_of_nil|].
  simpl. destruct (Ascii.eqb_spec c sep) as [->|Hc].
  - constructor; [apply not_elem_of_nil|done].
  - destruct (split_on sep s) as [|p ps];
      [repeat constructor; by intros ->%list_elem_of_singleton|].
    apply Forall_cons in IH as [Hp Hps]. constructor; [|done].
    intros [->|Hin]%elem_of_cons; done.
Qed.

(** X15. Blank lines are no identifiers; white space is what [trim]
    removes, the no-break space included.  A run that finds only blank
    lines stored is rejected when its settings arrive: it reports
    [No emails configured!] as an error, calls no step, leaves storage
    as it is, and is over.  When a stored line is not blank, the
    identifier a completed run records is one of the stored lines, as it
    is stored, and not a blank one. *)
Theorem identifiers_non_blank (env : Env) (w : World) :
  idle w →
  let settings := default empty_settings (adobeAutoSettings (storage w)) in
  let stored := split_on "010"%char (or_str (emailList settings) []) in
  (Forall (λ e, truthy (trim e) = false) stored →
     let w' := run_events [Start; SettingsLoaded (length (tasks w)) env] w in
     statuses w' = statuses w ++
       [{| st_step := 0; st_message := str "No emails configured!";
           st_isError := true |}] ∧
     steps_run w' = steps_run w ∧ storage w' = storage w ∧
     idle w' ∧ tasks w' = tasks w ++ [Finished]) ∧
  (Exists (λ e, truthy (trim e) = true) stored →
     ∀ page iso, ∃ r,
       ledger (complete_run env page iso w) !! 0 = Some r ∧
       email r ∈ stored ∧ truthy (trim (email r)) = true ∧
       "010"%char ∉ email r).
Proof.
  intros Hidle. cbv zeta. split.
  - intros Hblank.
    assert (identifiers w = []) as He.
    { unfold identifiers, emails_of.
      induction Hblank as [|x l Hx _ IH]; [done|]. simpl. by rewrite Hx. }
    unfold run_events. cbn [fold_left]. rewrite start_idle by done.
    set (w1 := spawn AwaitSettings (set_isRunning true w)).
    destruct (loaded_empty (length (tasks w)) env w1) as (Hs & Hr & Hid & Ht).
    { apply lookup_snoc. }
    { done. }
    change (tasks w1) with (tasks w ++ [AwaitSettings]) in Ht.
    rewrite insert_snoc in Ht.
    split; [|done].
    cbn [handle]. change (tasks w1) with (tasks w ++ [AwaitSettings]).
    rewrite lookup_snoc. unfold runAutomation_loaded.
    change (emails_of (default empty_settings (adobeAutoSettings (storage w1))))
      with (identifiers w).
    rewrite He. reflexivity.
  - intros Hex page iso.
    assert (identifiers w ≠ []) as Hne.
    { unfold identifiers, emails_of.
      apply Exists_exists in Hex as (e & Hin & Ht). intros Hnil.
      assert (e ∈ @nil jsstring) as Habs; [|by apply elem_of_nil in Habs].
      rewrite <- Hnil. apply list_elem_of_In, filter_In.
      split; [by apply list_elem_of_In|done]. }
    destruct (complete_run_spec env page iso w Hidle Hne) as (_ & _ & _ & Hl & _).
    exists (run_result env page iso w).
    split; [by rewrite Hl|]. cbn [run_result email]. unfold run_email.
    destruct (lookup_lt_is_Some_2 (identifiers w)
                (cursor w mod length (identifiers w))) as [e He].
    { apply Nat.mod_upper_bound. by destruct (identifiers w). }
    rewrite He. cbn [default].
    apply list_elem_of_lookup_2 in He. unfold identifiers, emails_of in He.
    apply list_elem_of_In, filter_In in He as [Hin Ht].
    apply list_elem_of_In in Hin.
    split; [done|]. split; [done|].
    pose proof (split_on_no_sep_parts "010"%char
                  (or_str (emailList (default empty_settings
                     (adobeAutoSettings (storage w)))) [])) as Hsp.
    rewrite Forall_forall in Hsp. by apply Hsp.
Qed.

Lemma identifiers_non_blank_witness :
  (let w := SamplesMore.world_blank in
   let w' := run_events [Start; SettingsLoaded 0 Samples.env0] w in
   statuses w' =
     [{| st_step := 0; st_message := str "No emails configured!";
         st_isError := true |}] ∧
   steps_run w' = [] ∧ storage w' = storage w ∧ tasks w' = [Finished]) ∧
  (∃ r, ledger (complete_run Samples.env0 Samples.page_ok Samples.iso0
                  SamplesMore.world_nbsp) !! 0 = Some r ∧
        truthy (trim (email r)) = true ∧ ("010"%char ∉ email r)).
Proof.
  split.
  - destruct (identifiers_non_blank Samples.env0 SamplesMore.world_blank eq_refl)
      as [H _].
    destruct H as (H1 & H2 & H3 & _ & H5); [repeat constructor|].
    repeat split; assumption.
  - destruct (identifiers_non_blank Samples.env0 SamplesMore.world_nbsp eq_refl)
      as [_ H].
    destruct (H ltac:(apply Exists_cons_tl, Exists_cons_hd; reflexivity)
                Samples.page_ok Samples.iso0) as (r & Hr & _ & Ht & Hn).
    by exists r.
Defined.

End ContentMore.
(** ** More on the bridge *)

Section BridgeMoreFacts.
Import Bridge BridgeMore.

Lemma detach_absent tabId s :
  debuggerSessions s !! tabId = None → detachDebugger tabId s = (Return tt, s).
Proof.
  intros H. unfold detachDebugger, se_bind, has.
  by rewrite bool_decide_eq_false_2 by (rewrite H; by intros [? ?]).
Qed.

Lemma detach_present tabId s :
  is_Some (debuggerSessions s !! tabId) →
  detachDebugger tabId s =
  (Return tt, {| debuggerSessions := delete tabId (debuggerSessions s);
                 calls := calls s ++ [CallDetach tabId] |}).
Proof.
  intros H. unfold detachDebugger, se_bind, has.
  by rewrite bool_decide_eq_true_2.
Qed.

(** X16. Attach and detach undo each other on the bookkeeping: on a tab
    without a session, a successful attach followed by a detach leaves
    [debuggerSessions] as it was, with one attach and one detach call
    made; a detach on a tab without a session makes no call at all, so a
    second detach is a no-op. *)
Theorem attach_detach_round_trip chrome tabId (s : State) :
  debuggerSessions s !! tabId = None → attach chrome tabId = Return tt →
  let s1 := snd (attachDebugger chrome tabId s) in
  let s2 := snd (detachDebugger tabId s1) in
  debuggerSessions s2 = debuggerSessions s ∧
  calls s2 = calls s ++ [CallAttach tabId true; CallDetach tabId] ∧
  detachDebugger tabId s2 = (Return tt, s2) ∧
  detachDebugger tabId s = (Return tt, s).
Proof.
  intros Hs Ha. cbv zeta. rewrite attach_fresh, Ha by done. simpl.
  rewrite detach_present by (simpl; rewrite lookup_insert_eq; eauto). simpl.
  split; [by rewrite delete_insert_id|].
  split; [by rewrite <- app_assoc|].
  split; [|by apply detach_absent].
  apply detach_absent. simpl. by rewrite lookup_delete_eq.
Qed.

Lemma attach_detach_round_trip_witness :
  let s1 := snd (attachDebugger Samples.chrome_C 7 init) in
  let s2 := snd (detachDebugger 7 s1) in
  debuggerSessions s2 = debuggerSessions init ∧
  calls s2 = calls init ++ [CallAttach 7 true; CallDetach 7] ∧
  detachDebugger 7 s2 = (Return tt, s2) ∧
  detachDebugger 7 init = (Return tt, init).
Proof.
  apply (attach_detach_round_trip Samples.chrome_C 7 init); reflexivity.
Defined.

Lemma attempted_app cs1 cs2 :
  attempted (cs1 ++ cs2) = attempted cs1 ++ attempted cs2.
Proof. unfold attempted. apply omap_app. Qed.

(** X17. When the debugger cannot be attached, or the frame tree cannot
    be read, the fill returns the failure value carrying the error
    message and tries no frame.  A failed attach leaves the bookkeeping
    as it was; after a failed read of the frame tree the tab stays
    attached. *)
Theorem fill_fails_before_frames chrome tabId selector value (s : State) e :
  debuggerSessions s !! tabId = None →
  (attach chrome tabId = Throw e →
   let '(r, s') := fillIframeField chrome tabId selector value s in
   r = Return (Failure e) ∧
   debuggerSessions s' = debuggerSessions s ∧
   calls s' = calls s ++ [CallAttach tabId false]) ∧
  (attach chrome tabId = Return tt → getFrameTree chrome tabId = Throw e →
   let '(r, s') := fillIframeField chrome tabId selector value s in
   r = Return (Failure e) ∧
   debuggerSessions s' = <[tabId := true]> (debuggerSessions s) ∧
   calls s' = calls s ++ [CallAttach tabId true; CallGetFrameTree tabId] ∧
   attempted (calls s') = attempted (calls s)).
Proof.
  intros Hs. split.
  - intros Ha. unfold fillIframeField, se_try, se_bind at 1.
    rewrite attach_fresh, Ha by done. done.
  - intros Ha Ht. unfold fillIframeField, se_try, se_bind at 1.
    rewrite attach_fresh, Ha by done.
    unfold se_bind at 1, sendDebuggerCommand, se_try, se_bind, log, se_modify,
      se_lift, se_throw, se_ret.
    rewrite Ht. cbn [calls debuggerSessions].
    split; [done|]. split; [done|]. split; [by rewrite <- app_assoc|].
    by rewrite !attempted_app, !app_nil_r.
Qed.

Lemma fill_fails_before_frames_witness :
  (let '(r, s') := fillIframeField Samples.chrome_down 7 (str "#card-number")
                     (str "4111") init in
   r = Return (Failure (str "Cannot attach")) ∧
   debuggerSessions s' = debuggerSessions init ∧
   calls s' = calls init ++ [CallAttach 7 false]) ∧
  (let '(r, s') := fillIframeField chrome_no_tree 7 (str "#card-number")
                     (str "4111") init in
   r = Return (Failure (str "Target closed")) ∧
   debuggerSessions s' = <[7 := true]> (debuggerSessions init) ∧
   calls s' = calls init ++ [CallAttach 7 true; CallGetFrameTree 7] ∧
   attempted (calls s') = attempted (calls init)).
Proof.
  split.
  - destruct (fill_fails_before_frames Samples.chrome_down 7 (str "#card-number")
                (str "4111") init (str "Cannot attach") eq_refl) as [H _].
    apply H. reflexivity.
  - destruct (fill_fails_before_frames chrome_no_tree 7 (str "#card-number")
                (str "4111") init (str "Target closed") eq_refl) as [_ H].
    apply H; reflexivity.
Defined.

(** X18. A detached event for a tab other than 0 makes the bookkeeping
    forget the tab, so that the next attach asks Chrome again instead of
    trusting a session that is gone. *)
Theorem detached_event_forgets chrome tabId (s : State) :
  tabId ≠ 0 →
  let s1 := snd (onDetach tabId s) in
  debuggerSessions s1 !! tabId = None ∧
  (∀ t, t ≠ tabId → debuggerSessions s1 !! t = debuggerSessions s !! t) ∧
  calls (snd (attachDebugger chrome tabId s1)) =
    calls s ++ [DetachedEvent tabId;
                CallAttach tabId (is_return (attach chrome tabId))].
Proof.
  intros Hne. cbv zeta. unfold onDetach, se_bind, log, se_modify.
  destruct (Nat.eqb_spec tabId 0) as [|_]; [done|].
  unfold delete_session, se_modify. cbn [snd debuggerSessions calls].
  split; [apply lookup_delete_eq|].
  split; [intros t Ht; by apply lookup_delete_ne|].
  rewrite attach_fresh by apply lookup_delete_eq.
  destruct (attach chrome tabId); cbn [snd calls is_return];
    by rewrite <- app_assoc.
Qed.

Lemma detached_event_forgets_witness :
  let s0 := snd (attachDebugger Samples.chrome_C 7 init) in
  let s1 := snd (onDetach 7 s0) in
  debuggerSessions s1 !! 7 = None ∧
  (∀ t, t ≠ 7 → debuggerSessions s1 !! t = debuggerSessions s0 !! t) ∧
  calls (snd (attachDebugger Samples.chrome_C 7 s1)) =
    calls s0 ++ [DetachedEvent 7; CallAttach 7 true].
Proof.
  intros s0.
  apply (detached_event_forgets Samples.chrome_C 7 s0). lia.
Defined.

Lemma quiet_ret {A} (a : A) : quiet (se_ret a).
Proof. intros s. split; [done|]. exists []. by rewrite app_nil_r. Qed.

Lemma quiet_throw {A} e : quiet (@se_throw State A e).
Proof. intros s. split; [done|]. exists []. by rewrite app_nil_r. Qed.

Lemma quiet_lift {A} (r : Exc A) : quiet (se_lift r).
Proof. intros s. split; [done|]. exists []. by rewrite app_nil_r. Qed.

Lemma quiet_bind {A B} (m : SE State A) (k : A → SE State B) :
  quiet m → (∀ a, quiet (k a)) → quiet (se_bind m k).
Proof.
  intros Hm Hk s. unfold se_bind. destruct (Hm s) as (Hs & e1 & Hc & H1).
  destruct (m s) as [[a|e] s1]; cbn [snd] in *; [|eauto].
  destruct (Hk a s1) as (Hs' & e2 & Hc' & H2).
  split; [by rewrite Hs', Hs|]. exists (e1 ++ e2).
  split; [by rewrite Hc', Hc, app_assoc|by apply Forall_app].
Qed.

Lemma quiet_try {A} (m : SE State A) (h : jsstring → SE State A) :
  quiet m → (∀ e, quiet (h e)) → quiet (se_try m h).
Proof.
  intros Hm Hh s. unfold se_try. destruct (Hm s) as (Hs & e1 & Hc & H1).
  destruct (m s) as [[a|e] s1]; cbn [snd] in *; [eauto|].
  destruct (Hh e s1) as (Hs' & e2 & Hc' & H2).
  split; [by rewrite Hs', Hs|]. exists (e1 ++ e2).
  split; [by rewrite Hc', Hc, app_assoc|by apply Forall_app].
Qed.

Lemma quiet_log c : is_attach_call c = false → quiet (log c).
Proof.
  intros Hc s. split; [done|]. exists [c]. split; [done|]. by constructor.
Qed.

Lemma quiet_command {A} c (answer : Exc A) :
  is_attach_call c = false → quiet (sendDebuggerCommand c answer).
Proof.
  intros Hc. apply quiet_try; [|intros e; apply quiet_throw].
  apply quiet_bind; [by apply quiet_log|]. intros _. apply quiet_lift.
Qed.

Lemma quiet_frames_loop chrome tabId script frames :
  quiet (frames_loop chrome tabId script frames).
Proof.
  induction frames as [|f frames IH]; cbn [frames_loop]; [apply quiet_ret|].
  apply quiet_bind.
  - apply quiet_try; [|intros e; apply quiet_ret].
    apply quiet_bind; [by apply quiet_command|]. intros ctx.
    apply quiet_bind; [by apply quiet_command|]. intros r.
    destruct r; apply quiet_ret.
  - intros [r|]; [apply quiet_ret|done].
Qed.

(** After the attach the fill is quiet. *)
Lemma fill_after_attach chrome tabId selector value s s1 :
  attachDebugger chrome tabId s = (Return true, s1) →
  debuggerSessions (snd (fillIframeField chrome tabId selector value s)) =
    debuggerSessions s1 ∧
  ∃ extra, calls (snd (fillIframeField chrome tabId selector value s)) =
             calls s1 ++ extra ∧
           Forall (λ c, is_attach_call c = false) extra.
Proof.
  intros Ha.
  set (rest := (let! frameTree := sendDebuggerCommand (CallGetFrameTree tabId)
                                    (getFrameTree chrome tabId) in
                let! r := frames_loop chrome tabId
                  {| sc_selector := selector; sc_value := value |}
                  (getAllFrames frameTree) in
                match r with
                | Some response => se_ret response
                | None => se_ret (Failure (str "Input not found in any frame"))
                end) : SE State Response).
  assert (quiet (se_try rest (λ err, se_ret (Failure err)))) as Hq.
  { apply quiet_try; [|intros e; apply quiet_ret].
    apply quiet_bind; [by apply quiet_command|]. intros t.
    apply quiet_bind; [apply quiet_frames_loop|].
    intros [r|]; apply quiet_ret. }
  assert (fillIframeField chrome tabId selector value s =
          se_try rest (λ err, se_ret (Failure err)) s1) as ->.
  { unfold fillIframeField, se_try, se_bind at 1. rewrite Ha. done. }
  apply Hq.
Qed.

(** X19. The fill leaves the debugger attached: when the attach succeeds
    the tab has a session after the fill, whatever the frames answer, and
    a second fill adds its calls without attaching again. *)
Theorem fill_keeps_session chrome chrome' tabId selector value selector' value'
    (s : State) :
  is_Some (debuggerSessions s !! tabId) ∨ attach chrome tabId = Return tt →
  let s1 := snd (fillIframeField chrome tabId selector value s) in
  let s2 := snd (fillIframeField chrome' tabId selector' value' s1) in
  is_Some (debuggerSessions s1 !! tabId) ∧
  debuggerSessions s2 = debuggerSessions s1 ∧
  ∃ extra, calls s2 = calls s1 ++ extra ∧
           Forall (λ c, is_attach_call c = false) extra.
Proof.
  intros Hatt. cbv zeta.
  destruct (attach_ok_spec chrome tabId s Hatt) as (sa & Ea & _).
  destruct (attach_success_has _ _ _ _ _ Ea) as [_ Hsa].
  destruct (fill_after_attach chrome tabId selector value s sa Ea) as (Hs1 & _).
  assert (is_Some (debuggerSessions
            (snd (fillIframeField chrome tabId selector value s)) !! tabId))
    as H1 by (by rewrite Hs1).
  split; [done|].
  apply fill_after_attach. by apply attach_has.
Qed.

Lemma fill_keeps_session_witness :
  let s1 := snd (fillIframeField Samples.chrome_C 7 (str "#card-number")
                   (str "4111") init) in
  let s2 := snd (fillIframeField Samples.chrome_down 7 (str "#expiry-date")
                   (str "12/30") s1) in
  is_Some (debuggerSessions s1 !! 7) ∧
  debuggerSessions s2 = debuggerSessions s1 ∧
  ∃ extra, calls s2 = calls s1 ++ extra ∧
           Forall (λ c, is_attach_call c = false) extra.
Proof.
  apply (fill_keeps_session Samples.chrome_C Samples.chrome_down 7).
  right. reflexivity.
Defined.

End BridgeMoreFacts.
(** ** Steps 1 and 2: typing, clicking, polling *)

Section StepsFacts.
Import Content Steps.

Lemma values_set_app a b : values_set (a ++ b) = values_set a ++ values_set b.
Proof. apply omap_app. Qed.

Lemma dispatched_app a b : dispatched (a ++ b) = dispatched a ++ dispatched b.
Proof. apply omap_app. Qed.

Lemma reports_app a b : reports (a ++ b) = reports a ++ reports b.
Proof. apply omap_app. Qed.

Lemma total_delay_app a b : total_delay (a ++ b) = total_delay a + total_delay b.
Proof. unfold total_delay, delays. by rewrite omap_app, sum_list_with_app. Qed.

Lemma clicks_app a b : clicks (a ++ b) = clicks a + clicks b.
Proof.
  unfold clicks. by rewrite dispatched_app, List.filter_app, length_app.
Qed.

Lemma perform_bind {A} page a (k : SE StepState A) s :
  (perform page a ;; k) s = k (after page a s).
Proof. reflexivity. Qed.

Lemma delay_bind {A} page ms (k : SE StepState A) s :
  (delay page ms ;; k) s = k (after page (Delay ms) s).
Proof. reflexivity. Qed.

Lemma updateStatus_bind {A} page step message isError (k : SE StepState A) s :
  (updateStatus page step message isError ;; k) s =
  k (after page (Report {| st_step := step; st_message := message;
                           st_isError := isError |}) s).
Proof. reflexivity. Qed.

Lemma random_bind {A} n (k : nat → SE StepState A) s :
  0 < n → ∃ d, d < n ∧ (let! d := se_random n in k d) s = k d (drawn s).
Proof.
  intros Hn. exists (fst (random_floor n (rnd s))).
  split; [by apply random_floor_lt|]. reflexivity.
Qed.

Lemma bind_assoc {S A B C} (m : SE S A) (f : A → SE S B) (g : B → SE S C) s :
  se_bind (se_bind m f) g s = se_bind m (λ a, se_bind (f a) g) s.
Proof. unfold se_bind. by destruct (m s) as [[a|e] s1]. Qed.

Lemma after_passive page a s :
  passive page →
  value (after page a s) =
  match a with SetValue v => sanitize (control page) v | _ => value s end.
Proof. intros Hp. destruct a; cbn; by rewrite ?Hp. Qed.

Lemma sanitize_nil ty : sanitize ty [] = [].
Proof. by destruct ty. Qed.

(** The typing loop: what it appends to the trace. *)
Lemma type_loop_spec page text remaining : ∀ i s,
  ∃ new s',
    type_loop page text i remaining s = (Return tt, s') ∧
    trace s' = trace s ++ new ∧
    values_set new = (λ j, take (S j) text) <$> seq i remaining ∧
    dispatched new = replicate remaining EvInput ∧
    reports new = [] ∧
    20 * remaining ≤ total_delay new ≤ 69 * remaining ∧
    calls (rnd s') = calls (rnd s) + remaining ∧
    tape (rnd s') = tape (rnd s) ∧
    (passive page →
     value s' = match remaining with
                | 0 => value s
                | _ => sanitize (control page) (take (i + remaining) text)
                end).
Proof.
  induction remaining as [|n IH]; intros i s.
  - exists [], s. rewrite app_nil_r. repeat split; simpl; try done; lia.
  - cbn [type_loop]. cbv zeta.
    rewrite !perform_bind, bind_assoc.
    destruct (random_bind 50
                (λ d, se_bind (delay page (d + 20))
                        (λ _, type_loop page text (i + 1) n))
                (after page (Dispatch EvInput)
                   (after page (SetValue (take (i + 1) text)) s)))
      as (d & Hd & ->); [lia|].
    rewrite delay_bind.
    set (s1 := after page (Delay (d + 20)) _).
    destruct (IH (i + 1) s1) as (new & s' & E & Ht & Hv & Hdp & Hr & Hdl & Hc & Htp & Hp).
    exists ([SetValue (take (i + 1) text); Dispatch EvInput; Delay (d + 20)] ++ new), s'.
    split; [exact E|].
    split; [rewrite Ht; subst s1; cbn [after drawn trace]; by rewrite <- !app_assoc|].
    split.
    { rewrite values_set_app, Hv. cbn [seq fmap list_fmap].
      rewrite Nat.add_1_r. reflexivity. }
    split; [rewrite dispatched_app, Hdp; reflexivity|].
    split; [rewrite reports_app, Hr; reflexivity|].
    split.
    { rewrite total_delay_app.
      change (total_delay [SetValue (take (i + 1) text); Dispatch EvInput;
                           Delay (d + 20)]) with (d + 20 + 0).
      lia. }
    split; [rewrite Hc; subst s1; cbn [after drawn rnd calls]; lia|].
    split; [rewrite Htp; subst s1; reflexivity|].
    intros Hpas. rewrite (Hp Hpas). destruct n as [|n].
    + subst s1. rewrite after_passive by done. cbn [drawn value].
      rewrite after_passive by done. cbn [after value].
      done.
    + do 2 f_equal. lia.
Qed.

Lemma typeText_spec (page : Listeners) (text : jsstring) (s : StepState) :
  ∃ new s',
    typeText page text s = (Return (0 <? length (value s')), s') ∧
    trace s' = trace s ++ new ∧
    values_set new = [] :: ((λ i, take (S i) text) <$> seq 0 (length text)) ∧
    dispatched new = replicate (S (length text)) EvInput ++ [EvChange; EvBlur] ∧
    reports new = [] ∧
    20 * length text + 200 ≤ total_delay new ≤ 69 * length text + 200 ∧
    calls (rnd s') = calls (rnd s) + length text ∧
    tape (rnd s') = tape (rnd s) ∧
    (passive page → value s' = sanitize (control page) text).
Proof.
  set (s0 := after page (Dispatch EvInput)
               (after page (SetValue []) (after page Focus s))).
  destruct (type_loop_spec page text (length text) 0 s0)
    as (new & s1 & E & Ht & Hv & Hdp & Hr & Hdl & Hc & Htp & Hp).
  set (s2 := after page (Delay 200)
               (after page (Dispatch EvBlur) (after page (Dispatch EvChange) s1))).
  assert (typeText page text s = (Return (0 <? length (value s2)), s2)) as Heq.
  { unfold typeText. rewrite !perform_bind. fold s0.
    unfold se_bind at 1. rewrite E. by rewrite !perform_bind, delay_bind. }
  exists ([Focus; SetValue []; Dispatch EvInput] ++ new ++
          [Dispatch EvChange; Dispatch EvBlur; Delay 200]), s2.
  split; [done|].
  split.
  { subst s2. cbn [after trace]. rewrite Ht. subst s0. cbn [after trace].
    by rewrite <- !app_assoc. }
  split.
  { rewrite !values_set_app, Hv. cbn [values_set omap app].
    by rewrite app_nil_r. }
  split.
  { rewrite !dispatched_app, Hdp. cbn [dispatched omap app].
    by rewrite replicate_S, <- app_comm_cons. }
  split.
  { rewrite !reports_app, Hr. reflexivity. }
  split.
  { rewrite !total_delay_app.
    change (total_delay [Focus; SetValue []; Dispatch EvInput]) with 0.
    change (total_delay [Dispatch EvChange; Dispatch EvBlur; Delay 200])
      with 200.
    lia. }
  split; [subst s2; cbn [after rnd]; rewrite Hc; subst s0; cbn [after rnd]; done|].
  split; [subst s2; cbn [after rnd]; rewrite Htp; subst s0; cbn [after rnd]; done|].
  intros Hpas. subst s2. rewrite !after_passive by done. rewrite (Hp Hpas).
  destruct text as [|c text]; [|by rewrite Nat.add_0_l, firstn_all].
  subst s0. cbn [length]. rewrite after_passive by done.
  cbn [after value]. by rewrite !sanitize_nil.
Qed.

Lemma last_prefixes (text : jsstring) :
  last ([] :: ((λ i, take (S i) text) <$> seq 0 (length text))) = Some text.
Proof.
  destruct text as [|c text _] using rev_ind; [done|].
  rewrite length_app, Nat.add_1_r, seq_S, fmap_app. cbn [fmap list_fmap].
  rewrite app_comm_cons, last_snoc. f_equal.
  rewrite Nat.add_0_l. apply take_ge. rewrite length_app. simpl. lia.
Qed.

(** X20. [typeText] clears the control and then sets, one after the
    other, every prefix of the text, each one character longer than the
    one before and the last one the text itself, with an input event
    after each; it ends with one change and one blur event.  It reads
    [Math.random] once per character and waits between 20 and 69 ms after
    each, and 200 ms at the end; what it returns is whether the control
    holds a non-empty value then. *)
Theorem typeText_types_prefixes (page : Listeners) (text : jsstring)
    (s : StepState) :
  ∃ new,
    let s' := snd (typeText page text s) in
    fst (typeText page text s) = Return (0 <? length (value s')) ∧
    trace s' = trace s ++ new ∧
    values_set new = [] :: ((λ i, take (S i) text) <$> seq 0 (length text)) ∧
    last (values_set new) = Some text ∧
    dispatched new = replicate (S (length text)) EvInput ++ [EvChange; EvBlur] ∧
    20 * length text + 200 ≤ total_delay new ≤ 69 * length text + 200 ∧
    calls (rnd s') = calls (rnd s) + length text.
Proof.
  destruct (typeText_spec page text s)
    as (new & s' & E & Ht & Hv & Hdp & _ & Hdl & Hc & _).
  exists new. rewrite E. cbn [fst snd].
  repeat split; try done; try lia. rewrite Hv. apply last_prefixes.
Qed.

Lemma length_truthy (v : jsstring) : (0 <? length v) = truthy v.
Proof. by destruct v. Qed.

Lemma setInputValue_spec page v s :
  setInputValue page v s =
  (Return (0 <? length (value (snd (setInputValue page v s)))),
   snd (setInputValue page v s)) ∧
  trace (snd (setInputValue page v s)) =
    trace s ++ [Focus; SetValue v; Dispatch EvInput; Dispatch EvChange;
                Dispatch EvBlur; Delay 200] ∧
  rnd (snd (setInputValue page v s)) = rnd s ∧
  (passive page →
   value (snd (setInputValue page v s)) = sanitize (control page) v).
Proof.
  unfold setInputValue. rewrite !perform_bind, delay_bind.
  cbn [se_bind se_get se_ret fst snd after trace rnd].
  split; [done|]. split; [by rewrite <- !app_assoc|]. split; [done|].
  intros Hp. by rewrite !after_passive.
Qed.

Lemma strip_newlines_id (v : jsstring) :
  Forall (λ c, is_newline c = false) v → strip_newlines v = v.
Proof.
  induction 1 as [|c v Hc _ IH]; [done|].
  unfold strip_newlines in *. cbn [List.filter]. rewrite Hc. cbn [negb].
  by rewrite IH.
Qed.

Lemma strip_newlines_all (v : jsstring) :
  Forall (λ c, is_newline c = true) v → strip_newlines v = [].
Proof.
  induction 1 as [|c v Hc _ IH]; [done|].
  unfold strip_newlines in *. cbn [List.filter]. rewrite Hc. cbn [negb].
  exact IH.
Qed.

(** X21. On a control without listeners both helpers leave in the
    control the text as the input sanitizes it, without its line breaks
    and, in an email input, without the white space around it, and they
    return whether that is non-empty: [typeText] and [setInputValue]
    agree there, the one with an input event per character and a random
    pause after each, the other with one input event and no call of
    [Math.random].  A text without line breaks is held unchanged by a
    text input; a text of line breaks only leaves the control empty and
    both helpers return false. *)
Theorem passive_control_holds_text (page : Listeners) (text : jsstring)
    (s : StepState) :
  passive page →
  let typed := typeText page text s in
  let set := setInputValue page text s in
  let held := sanitize (control page) text in
  fst typed = Return (truthy held) ∧ value (snd typed) = held ∧
  fst set = Return (truthy held) ∧ value (snd set) = held ∧
  inputs (drop (length (trace s)) (trace (snd typed))) = S (length text) ∧
  dispatched (drop (length (trace s)) (trace (snd set))) =
    [EvInput; EvChange; EvBlur] ∧
  rnd (snd set) = rnd s ∧
  (control page = TextInput → Forall (λ c, is_newline c = false) text →
   held = text) ∧
  (Forall (λ c, is_newline c = true) text → held = []).
Proof.
  intros Hp. cbv zeta.
  destruct (typeText_spec page text s)
    as (new & s' & E & Ht & _ & Hdp & _ & _ & _ & _ & Hv).
  destruct (setInputValue_spec page text s) as (E' & Ht' & Hr' & Hv').
  rewrite E. cbn [fst snd]. rewrite (Hv Hp), length_truthy.
  split; [done|]. split; [done|].
  rewrite E' at 1. cbn [fst]. rewrite (Hv' Hp), length_truthy.
  split; [done|]. split; [done|].
  rewrite Ht, Ht', !drop_app_length. unfold inputs. rewrite Hdp.
  split.
  { rewrite List.filter_app, length_app.
    assert (∀ n, List.filter is_input (replicate n EvInput) = replicate n EvInput)
      as ->.
    { induction n as [|n IH]; [done|]. simpl. by rewrite IH. }
    rewrite length_replicate. simpl. lia. }
  split; [done|]. split; [done|]. split.
  - intros -> Hn. by apply strip_newlines_id.
  - intros Hn. destruct (control page); cbn [sanitize];
      by rewrite strip_newlines_all.
Qed.

Lemma passive_control_holds_text_witness :
  let text := str "a@x.io" ++ ["013"%char] in
  let typed := typeText no_listeners text start_state in
  let set := setInputValue no_listeners text start_state in
  let held := str "a@x.io" in
  fst typed = Return true ∧ value (snd typed) = held ∧
  fst set = Return true ∧ value (snd set) = held ∧
  inputs (drop 0 (trace (snd typed))) = 8 ∧
  dispatched (drop 0 (trace (snd set))) = [EvInput; EvChange; EvBlur] ∧
  rnd (snd set) = rnd start_state.
Proof.
  destruct (passive_control_holds_text no_listeners
              (str "a@x.io" ++ ["013"%char]) start_state)
    as (H1 & H2 & H3 & H4 & H5 & H6 & H7 & _).
  { intros a v. reflexivity. }
  repeat split; assumption.
Defined.

(** *** Step 1 *)

Lemma strip_leading_keeps (c : ascii) (v : jsstring) :
  c ∈ v → is_ascii_whitespace c = false → c ∈ strip_leading v.
Proof.
  intros Hin Hc. induction v as [|a v IH]; [done|].
  cbn [strip_leading]. destruct (is_ascii_whitespace a) eqn:Ea; [|done].
  apply elem_of_cons in Hin as [->|Hin]; [congruence|by apply IH].
Qed.

Lemma elem_of_rev_iff {A} (x : A) (l : list A) : x ∈ rev l ↔ x ∈ l.
Proof. rewrite !list_elem_of_In. symmetry. apply in_rev. Qed.

Lemma not_space_kept c :
  is_space c = false → is_newline c = false ∧ is_ascii_whitespace c = false.
Proof.
  unfold is_space, is_newline, is_ascii_whitespace. intros H.
  apply orb_false_iff in H as [H H160]. apply orb_false_iff in H as [H H32].
  apply Nat.eqb_neq in H32.
  assert (¬ (9 ≤ nat_of_ascii c ≤ 13)) as Hr.
  { intros [H1 H2]. apply andb_false_iff in H as [H|H];
      apply Nat.leb_gt in H; lia. }
  split; repeat (apply orb_false_iff; split); apply Nat.eqb_neq; lia.
Qed.

Lemma sanitize_keeps ty c (v : jsstring) :
  c ∈ v → is_space c = false → c ∈ sanitize ty v.
Proof.
  intros Hin Hc. apply not_space_kept in Hc as [Hn Hw].
  assert (c ∈ strip_newlines v) as Hs.
  { unfold strip_newlines. apply list_elem_of_In, filter_In.
    split; [by apply list_elem_of_In|by rewrite Hn]. }
  destruct ty; cbn [sanitize]; [done|].
  unfold strip_whitespace. apply elem_of_rev_iff, strip_leading_keeps; [|done].
  apply elem_of_rev_iff. by apply strip_leading_keeps.
Qed.

Lemma trimStart_spaces (v : jsstring) :
  Forall (λ c, is_space c = true) v → trimStart v = [].
Proof.
  induction 1 as [|c v Hc _ IH]; [done|]. cbn [trimStart]. by rewrite Hc.
Qed.

(** A string that [trim] leaves non-empty has a character that is no
    white space. *)
Lemma trim_truthy (v : jsstring) :
  truthy (trim v) = true → ∃ c, c ∈ v ∧ is_space c = false.
Proof.
  intros Ht.
  destruct (decide (Forall (λ c, is_space c = true) v)) as [Hall|Hnot].
  - unfold trim in Ht. by rewrite (trimStart_spaces v Hall) in Ht.
  - apply not_Forall_Exists in Hnot; [|apply _].
    apply Exists_exists in Hnot as (c & Hin & Hc).
    exists c. split; [done|]. cbn in Hc. by destruct (is_space c).
Qed.

Lemma emails_of_sanitized ty settings email :
  email ∈ emails_of settings → truthy (sanitize ty email) = true.
Proof.
  unfold emails_of. intros Hin. apply list_elem_of_In, filter_In in Hin as [_ Ht].
  apply trim_truthy in Ht as (c & Hc & Hs).
  pose proof (sanitize_keeps ty c email Hc Hs) as Hk.
  destruct (sanitize ty email); [by apply elem_of_nil in Hk|done].
Qed.

(** X22. An identifier picked from the stored list is typed into a
    control without listeners with success: once the control is found,
    step 1 returns true and the control holds the identifier as the input
    sanitizes it, which is the identifier itself when it has no line
    break in a text input; the statuses sent are the three of the
    successful path; and from there on the step waits between 20 and 69
    ms per character plus 500 to 1000 ms, reading [Math.random] once per
    character and once more. *)
Theorem stepFillEmail_fills_identifier (page : Listeners) (settings : Settings)
    (email : jsstring) (s : StepState) :
  passive page → email ∈ emails_of settings →
  let run := stepFillEmail page (Return tt) email s in
  let new := drop (length (trace s)) (trace (snd run)) in
  fst run = Return true ∧
  value (snd run) = sanitize (control page) email ∧
  (control page = TextInput → Forall (λ c, is_newline c = false) email →
   value (snd run) = email) ∧
  reports new =
    [{| st_step := 1; st_message := str "Finding email field...";
        st_isError := false |};
     {| st_step := 1; st_message := str "Filling email...";
        st_isError := false |};
     {| st_step := 1; st_message := str "Email filled ✓";
        st_isError := false |}] ∧
  inputs new = S (length email) ∧
  20 * length email + 500 ≤ total_delay new ≤ 69 * length email + 1000 ∧
  calls (rnd (snd run)) = calls (rnd s) + length email + 1.
Proof.
  intros Hp Hin. cbv zeta.
  apply (emails_of_sanitized (control page)) in Hin.
  set (finding := Report {| st_step := 1; st_message := str "Finding email field...";
                            st_isError := false |}).
  set (filling := Report {| st_step := 1; st_message := str "Filling email...";
                            st_isError := false |}).
  set (filled := Report {| st_step := 1; st_message := str "Email filled ✓";
                           st_isError := false |}).
  set (s1 := after page filling (after page finding s)).
  destruct (typeText_spec page email s1)
    as (new & s2 & E & Ht & _ & Hdp & Hr & Hdl & Hc & _ & Hv).
  specialize (Hv Hp). rewrite Hv, length_truthy, Hin in E.
  destruct (random_bind (800 - 300 + 1)
              (λ d, se_bind (delay page (d + 300))
                      (λ _, se_bind (updateStatus page 1 (str "Email filled ✓") false)
                              (λ _, se_ret true)))
              s2) as (d & Hd & Er); [lia|].
  set (s3 := after page filled (after page (Delay (d + 300)) (drawn s2))).
  assert (stepFillEmail page (Return tt) email s = (Return true, s3)) as Heq.
  { unfold stepFillEmail. rewrite updateStatus_bind. unfold se_try.
    unfold se_bind at 1. cbn [se_lift]. rewrite updateStatus_bind.
    fold finding filling s1.
    unfold se_bind at 1. rewrite E. cbn [negb].
    unfold randomDelay. rewrite bind_assoc, Er. reflexivity. }
  rewrite Heq. cbn [fst snd].
  assert (trace s3 = trace s ++ [finding; filling] ++ new ++
                     [Delay (d + 300); filled]) as Hts.
  { subst s3. cbn [after drawn trace]. rewrite Ht. subst s1.
    cbn [after trace]. by rewrite <- !app_assoc. }
  assert (value s3 = sanitize (control page) email) as Hval.
  { subst s3. rewrite !after_passive by done. exact Hv. }
  rewrite Hts, drop_app_length.
  split; [done|].
  split; [exact Hval|].
  split; [intros Hty Hn; rewrite Hval, Hty; by apply strip_newlines_id|].
  split; [rewrite !reports_app, Hr; reflexivity|].
  split.
  { unfold inputs. rewrite !dispatched_app, Hdp.
    change (dispatched [finding; filling]) with (@nil EventType).
    change (dispatched [Delay (d + 300); filled]) with (@nil EventType).
    rewrite app_nil_l, app_nil_r, List.filter_app, length_app.
    assert (∀ n, List.filter is_input (replicate n EvInput) = replicate n EvInput)
      as ->.
    { induction n as [|n IH]; [done|]. simpl. by rewrite IH. }
    rewrite length_replicate. simpl. lia. }
  split.
  { rewrite !total_delay_app.
    change (total_delay [finding; filling]) with 0.
    change (total_delay [Delay (d + 300); filled]) with (d + 300 + 0).
    lia. }
  subst s3. cbn [after drawn rnd calls]. rewrite Hc. subst s1.
  cbn [after rnd]. lia.
Qed.

Lemma stepFillEmail_fills_identifier_witness :
  let email := str "b@x" ++ ["013"%char] in
  let run := stepFillEmail email_control (Return tt) email start_state in
  let new := drop 0 (trace (snd run)) in
  email ∈ emails_of settings_crlf ∧
  fst run = Return true ∧
  value (snd run) = str "b@x" ∧
  inputs new = 5 ∧
  20 * 4 + 500 ≤ total_delay new ≤ 69 * 4 + 1000 ∧
  calls (rnd (snd run)) = 0 + 4 + 1.
Proof.
  assert (str "b@x" ++ ["013"%char] ∈ emails_of settings_crlf) as Hin.
  { vm_compute. apply list_elem_of_further, list_elem_of_here. }
  destruct (stepFillEmail_fills_identifier email_control settings_crlf
              (str "b@x" ++ ["013"%char]) start_state)
    as (H1 & H2 & _ & _ & H5 & H6 & H7).
  { intros a v. reflexivity. }
  { exact Hin. }
  repeat split; try assumption; apply H6.
Defined.

(** *** Step 2 *)

Lemma first_ready_or_none (obs : nat → ButtonObs) n :
  (∃ k, k < n ∧ ready (obs k) = true ∧ ∀ j, j < k → ready (obs j) = false) ∨
  (∀ j, j < n → ready (obs j) = false).
Proof.
  induction n as [|n [(k & Hk & Hr & Hf)|Hnone]].
  - right. intros j Hj. lia.
  - left. exists k. split; [lia|done].
  - destruct (ready (obs n)) eqn:E.
    + left. exists n. split; [lia|done].
    + right. intros j Hj. destruct (decide (j = n)) as [->|]; [done|].
      apply Hnone. lia.
Qed.

Lemma validation_loop_ready page obs k : ∀ remaining attempts s,
  k < remaining →
  (∀ j, j < k → ready (obs (attempts + j)) = false) →
  ready (obs (attempts + k)) = true →
  ∃ new s',
    validation_loop page obs attempts remaining s = (Return (attempts + k), s') ∧
    trace s' = trace s ++ new ∧
    total_delay new = 500 * k ∧ dispatched new = [] ∧
    length (reports new) = S k ∧
    Forall (λ st, st_step st = 2 ∧ st_isError st = false) (reports new) ∧
    rnd s' = rnd s.
Proof.
  induction k as [|k IH]; intros remaining attempts s Hlt Hf Hr;
    (destruct remaining as [|remaining]; [lia|]); cbn [validation_loop].
  - rewrite Nat.add_0_r in Hr |- *. fold (ready (obs attempts)). rewrite Hr.
    rewrite updateStatus_bind. eexists [_], _.
    split; [reflexivity|]. split; [reflexivity|].
    repeat split. repeat constructor.
  - fold (ready (obs attempts)). specialize (Hf 0 ltac:(lia)) as H0.
    rewrite Nat.add_0_r in H0. rewrite H0. cbv zeta.
    rewrite updateStatus_bind, delay_bind.
    set (s1 := after page (Delay 500) _).
    destruct (IH remaining (attempts + 1) s1) as (new & s' & E & Ht & Hd & Hdp & Hl & Hst & Hrn).
    + lia.
    + intros j Hj. replace (attempts + 1 + j) with (attempts + S j) by lia.
      apply Hf. lia.
    + by replace (attempts + 1 + k) with (attempts + S k) by lia.
    + replace (attempts + 1 + k) with (attempts + S k) in E by lia.
      eexists ([_; Delay 500] ++ new), s'. split; [exact E|].
      split; [rewrite Ht; subst s1; cbn [after trace]; by rewrite <- !app_assoc|].
      split; [rewrite total_delay_app, Hd; unfold total_delay; simpl; lia|].
      split; [rewrite dispatched_app, Hdp; reflexivity|].
      split; [rewrite reports_app, length_app, Hl; reflexivity|].
      split; [|rewrite Hrn; reflexivity].
      rewrite reports_app. apply Forall_app. split; [|done].
      repeat constructor.
Qed.

Lemma validation_loop_timeout page obs : ∀ remaining attempts s,
  (∀ j, j < remaining → ready (obs (attempts + j)) = false) →
  ∃ new s',
    validation_loop page obs attempts remaining s =
      (Return (attempts + remaining), s') ∧
    trace s' = trace s ++ new ∧
    total_delay new = 500 * remaining ∧ dispatched new = [] ∧
    length (reports new) = remaining ∧
    Forall (λ st, st_step st = 2 ∧ st_isError st = false) (reports new) ∧
    rnd s' = rnd s.
Proof.
  induction remaining as [|remaining IH]; intros attempts s Hf;
    cbn [validation_loop].
  - exists [], s. rewrite app_nil_r, Nat.add_0_r. repeat split. constructor.
  - fold (ready (obs attempts)). specialize (Hf 0 ltac:(lia)) as H0.
    rewrite Nat.add_0_r in H0. rewrite H0. cbv zeta.
    rewrite updateStatus_bind, delay_bind.
    set (s1 := after page (Delay 500) _).
    destruct (IH (attempts + 1) s1) as (new & s' & E & Ht & Hd & Hdp & Hl & Hst & Hrn).
    { intros j Hj. replace (attempts + 1 + j) with (attempts + S j) by lia.
      apply Hf. lia. }
    replace (attempts + 1 + remaining) with (attempts + S remaining) in E by lia.
    eexists ([_; Delay 500] ++ new), s'. split; [exact E|].
    split; [rewrite Ht; subst s1; cbn [after trace]; by rewrite <- !app_assoc|].
    split; [rewrite total_delay_app, Hd; unfold total_delay; simpl; lia|].
    split; [rewrite dispatched_app, Hdp; reflexivity|].
    split; [rewrite reports_app, length_app, Hl; reflexivity|].
    split; [|rewrite Hrn; reflexivity].
    rewrite reports_app. apply Forall_app. split; [|done].
    repeat constructor.
Qed.

Lemma clicked_tail page s :
  (delay page 300 ;; clickElement page ;; delay page 2000 ;;
   updateStatus page 2 (str "Continue clicked ✓") false ;; se_ret true) s =
  (Return true,
   after page (Report {| st_step := 2; st_message := str "Continue clicked ✓";
                         st_isError := false |})
     (after page (Delay 2000)
        (after page (Dispatch EvClick)
           (after page (Dispatch EvMouseUp)
              (after page (Delay 50)
                 (after page (Dispatch EvMouseDown)
                    (after page (Delay 200)
                       (after page ScrollIntoView
                          (after page (Delay 300) s))))))))).
Proof. reflexivity. Qed.

Lemma stepClickContinue_ready page obs k s :
  k < maxAttempts → ready (obs k) = true →
  (∀ j, j < k → ready (obs j) = false) →
  ∃ new s',
    stepClickContinue page (Return tt) obs s = (Return true, s') ∧
    trace s' = trace s ++ new ∧
    dispatched new = [EvMouseDown; EvMouseUp; EvClick] ∧
    total_delay new = 500 * k + 2550 ∧
    length (reports new) = k + 3 ∧
    last (reports new) =
      Some {| st_step := 2; st_message := str "Continue clicked ✓";
              st_isError := false |} ∧
    rnd s' = rnd s.
Proof.
  intros Hk Hr Hf.
  set (waiting := Report {| st_step := 2;
                            st_message := str "Waiting for email validation...";
                            st_isError := false |}).
  destruct (validation_loop_ready page obs k maxAttempts 0 (after page waiting s))
    as (new & s1 & E & Ht & Hd & Hdp & Hl & _ & Hrn); [done|done|done|].
  rewrite Nat.add_0_l in E.
  eexists ([waiting] ++ new ++
           [Delay 300; ScrollIntoView; Delay 200; Dispatch EvMouseDown; Delay 50;
            Dispatch EvMouseUp; Dispatch EvClick; Delay 2000; _]), _.
  split.
  { unfold stepClickContinue. rewrite updateStatus_bind. fold waiting.
    unfold se_try. unfold se_bind at 1. cbn [se_lift].
    unfold se_bind at 1. rewrite E.
    destruct (Nat.leb_spec maxAttempts k) as [Hge|_]; [lia|].
    rewrite clicked_tail. reflexivity. }
  split.
  { cbn [after trace]. rewrite Ht. cbn [after trace]. by rewrite <- !app_assoc. }
  split; [rewrite !dispatched_app, Hdp; reflexivity|].
  split.
  { rewrite !total_delay_app, Hd. unfold total_delay. simpl. lia. }
  split.
  { rewrite !reports_app, !length_app, Hl. simpl. lia. }
  split; [|cbn [after rnd]; by rewrite Hrn].
  rewrite !reports_app, !app_assoc.
  change (reports [Delay 300; ScrollIntoView; Delay 200; Dispatch EvMouseDown;
                   Delay 50; Dispatch EvMouseUp; Dispatch EvClick; Delay 2000;
                   Report {| st_step := 2; st_message := str "Continue clicked ✓";
                             st_isError := false |}])
    with [{| st_step := 2; st_message := str "Continue clicked ✓";
             st_isError := false |}].
  apply last_snoc.
Qed.

Lemma stepClickContinue_never_ready page obs s :
  (∀ j, j < maxAttempts → ready (obs j) = false) →
  ∃ new s',
    stepClickContinue page (Return tt) obs s = (Return false, s') ∧
    trace s' = trace s ++ new ∧
    dispatched new = [] ∧
    total_delay new = 500 * maxAttempts ∧
    length (reports new) = maxAttempts + 2 ∧
    last (reports new) =
      Some {| st_step := 2;
              st_message := str "Timeout waiting for email validation";
              st_isError := true |} ∧
    rnd s' = rnd s.
Proof.
  intros Hf.
  set (waiting := Report {| st_step := 2;
                            st_message := str "Waiting for email validation...";
                            st_isError := false |}).
  set (timed := {| st_step := 2;
                   st_message := str "Timeout waiting for email validation";
                   st_isError := true |}).
  destruct (validation_loop_timeout page obs maxAttempts 0 (after page waiting s))
    as (new & s1 & E & Ht & Hd & Hdp & Hl & _ & Hrn); [done|].
  rewrite Nat.add_0_l in E.
  exists ([waiting] ++ new ++ [Report timed]), (after page (Report timed) s1).
  split.
  { unfold stepClickContinue. rewrite updateStatus_bind. fold waiting.
    unfold se_try. unfold se_bind at 1. cbn [se_lift].
    unfold se_bind at 1. rewrite E. rewrite Nat.leb_refl.
    reflexivity. }
  split.
  { cbn [after trace]. rewrite Ht. cbn [after trace]. by rewrite <- !app_assoc. }
  split; [rewrite !dispatched_app, Hdp; reflexivity|].
  split.
  { rewrite !total_delay_app, Hd. unfold total_delay. simpl. lia. }
  split.
  { rewrite !reports_app, !length_app, Hl. simpl. lia. }
  split; [|cbn [after rnd]; by rewrite Hrn].
  rewrite !reports_app, !app_assoc.
  change (reports [Report timed]) with [timed].
  apply last_snoc.
Qed.

Lemma stepClickContinue_not_found page obs e s :
  stepClickContinue page (Throw e) obs s =
  (Return false,
   after page (Report {| st_step := 2; st_message := str "Error: " ++ e;
                         st_isError := true |})
     (after page (Report {| st_step := 2;
                            st_message := str "Waiting for email validation...";
                            st_isError := false |}) s)).
Proof. reflexivity. Qed.

(** X23. Step 2 never throws, and it clicks the button exactly when it
    says so: it returns true if and only if the button was found and one
    of the thirty passes found it enabled with the email not marked
    invalid; then one click is dispatched, otherwise none; and the last
    status it sends is an error status exactly when it returns false. *)
Theorem stepClickContinue_outcome (page : Listeners) (located : Exc unit)
    (obs : nat → ButtonObs) (s : StepState) :
  ∃ b new st,
    fst (stepClickContinue page located obs s) = Return b ∧
    trace (snd (stepClickContinue page located obs s)) = trace s ++ new ∧
    (b = true ↔
     located = Return tt ∧ ∃ k, k < maxAttempts ∧ ready (obs k) = true) ∧
    clicks new = (if b then 1 else 0) ∧
    last (reports new) = Some st ∧ st_step st = 2 ∧ st_isError st = negb b.
Proof.
  destruct located as [[]|e].
  - destruct (first_ready_or_none obs maxAttempts) as [(k & Hk & Hr & Hf)|Hnone].
    + destruct (stepClickContinue_ready page obs k s Hk Hr Hf)
        as (new & s' & E & Ht & Hdp & _ & _ & Hlast & _).
      eexists true, new, _. rewrite E. cbn [fst snd].
      split; [done|]. split; [done|].
      split; [split; [intros _; split; [done|eauto]|done]|].
      split; [unfold clicks; by rewrite Hdp|].
      split; [exact Hlast|done].
    + destruct (stepClickContinue_never_ready page obs s Hnone)
        as (new & s' & E & Ht & Hdp & _ & _ & Hlast & _).
      eexists false, new, _. rewrite E. cbn [fst snd].
      split; [done|]. split; [done|].
      split.
      { split; [done|]. intros (_ & k & Hk & Hr). rewrite Hnone in Hr; done. }
      split; [unfold clicks; by rewrite Hdp|].
      split; [exact Hlast|done].
  - rewrite stepClickContinue_not_found. cbn [fst snd after trace].
    eexists false, [_; _], _.
    split; [done|]. split; [by rewrite <- app_assoc|].
    split; [split; [done|by intros [? _]]|].
    split; [reflexivity|]. split; [reflexivity|done].
Qed.

(** X24. The wait of step 2: with the button found and first enabled
    at the pass [k] of the thirty, the step has waited 500 ms per pass
    before, 2550 ms around the click, and has sent [k + 3] statuses, the
    last one the clicked status; when none of the thirty passes finds it
    enabled the step gives up after 15000 ms with the timeout status
    and has dispatched nothing.  What the button looks like after the
    thirtieth pass is never read. *)
Theorem stepClickContinue_polls (page : Listeners) (obs : nat → ButtonObs)
    (s : StepState) :
  (∀ k, k < maxAttempts → ready (obs k) = true →
        (∀ j, j < k → ready (obs j) = false) →
     let run := stepClickContinue page (Return tt) obs s in
     let new := drop (length (trace s)) (trace (snd run)) in
     fst run = Return true ∧
     dispatched new = [EvMouseDown; EvMouseUp; EvClick] ∧
     total_delay new = 500 * k + 2550 ∧
     length (reports new) = k + 3 ∧
     last (reports new) =
       Some {| st_step := 2; st_message := str "Continue clicked ✓";
               st_isError := false |}) ∧
  ((∀ j, j < maxAttempts → ready (obs j) = false) →
     let run := stepClickContinue page (Return tt) obs s in
     let new := drop (length (trace s)) (trace (snd run)) in
     fst run = Return false ∧
     dispatched new = [] ∧
     total_delay new = 500 * 30 ∧
     length (reports new) = 32 ∧
     last (reports new) =
       Some {| st_step := 2;
               st_message := str "Timeout waiting for email validation";
               st_isError := true |}) ∧
  (∀ obs', (∀ j, j < maxAttempts → obs' j = obs j) →
     stepClickContinue page (Return tt) obs' s =
     stepClickContinue page (Return tt) obs s).
Proof.
  split; [|split].
  - intros k Hk Hr Hf. cbv zeta.
    destruct (stepClickContinue_ready page obs k s Hk Hr Hf)
      as (new & s' & E & Ht & Hdp & Hd & Hl & Hlast & _).
    rewrite E. cbn [fst snd]. by rewrite Ht, drop_app_length.
  - intros Hnone. cbv zeta.
    destruct (stepClickContinue_never_ready page obs s Hnone)
      as (new & s' & E & Ht & Hdp & Hd & Hl & Hlast & _).
    rewrite E. cbn [fst snd]. by rewrite Ht, drop_app_length.
  - intros obs' Hsame.
    assert (∀ remaining attempts s0, attempts + remaining ≤ maxAttempts →
              validation_loop page obs' attempts remaining s0 =
              validation_loop page obs attempts remaining s0) as Hloop.
    { induction remaining as [|remaining IH]; intros attempts s0 Hle; [done|].
      cbn [validation_loop]. rewrite Hsame by lia.
      destruct (_ && _); [done|]. cbv zeta.
      rewrite !updateStatus_bind, !delay_bind. apply IH. lia. }
    unfold stepClickContinue. rewrite !updateStatus_bind.
    unfold se_try. unfold se_bind at 1 3. cbn [se_lift].
    unfold se_bind at 1 3. by rewrite Hloop.
Qed.

Lemma stepClickContinue_polls_witness :
  (let run := stepClickContinue no_listeners (Return tt) obs_third start_state in
   let new := drop 0 (trace (snd run)) in
   fst run = Return true ∧
   dispatched new = [EvMouseDown; EvMouseUp; EvClick] ∧
   total_delay new = 500 * 2 + 2550 ∧
   length (reports new) = 2 + 3 ∧
   last (reports new) =
     Some {| st_step := 2; st_message := str "Continue clicked ✓";
             st_isError := false |}) ∧
  (let run := stepClickContinue no_listeners (Return tt) obs_late start_state in
   let new := drop 0 (trace (snd run)) in
   fst run = Return false ∧
   dispatched new = [] ∧
   total_delay new = 500 * 30 ∧
   length (reports new) = 32 ∧
   last (reports new) =
     Some {| st_step := 2;
             st_message := str "Timeout waiting for email validation";
             st_isError := true |}).
Proof.
  split.
  - destruct (stepClickContinue_polls no_listeners obs_third start_state)
      as (H & _ & _).
    apply (H 2); [unfold maxAttempts; lia|reflexivity|].
    intros j Hj. destruct j as [|[|j]]; [reflexivity|reflexivity|lia].
  - destruct (stepClickContinue_polls no_listeners obs_late start_state)
      as (_ & H & _).
    apply H. intros j Hj. unfold obs_late.
    destruct (Nat.ltb_spec j 30) as [_|Hge]; [reflexivity|].
    unfold maxAttempts in Hj. lia.
Defined.

End StepsFacts.
(** ** Step 3 and the order of the steps *)

Section FlowFacts.
Import Content ContentMore Step3 Step3More.

Lemma step3_panel_missing page cardNumber :
  panelActive page = false →
  stepFillPayment page cardNumber =
  (Return false,
   {| failedFields := []; allFieldsFilled := true;
      reported :=
        [{| st_step := 3; st_message := str "Waiting for payment form...";
            st_isError := false |};
         {| st_step := 3;
            st_message := str "Error: " ++ str "Element not found: " ++
                          paymentPanelSelector;
            st_isError := true |}];
      attempts := [] |}).
Proof.
  intros H. unfold stepFillPayment, stepFillPayment_body. rewrite H. reflexivity.
Qed.

Lemma step3_later_throw page cardNumber :
  panelActive page = true → no_later_throw page = false →
  ∃ st, fst (stepFillPayment page cardNumber) = Return false ∧
        head (reported (snd (stepFillPayment page cardNumber))) =
          Some {| st_step := 3; st_message := str "Waiting for payment form...";
                  st_isError := false |} ∧
        last (reported (snd (stepFillPayment page cardNumber))) = Some st ∧
        st_step st = 3 ∧ st_isError st = true.
Proof.
  destruct page as [p c e f l z]. simpl. intros -> Hno.
  destruct e as [|[| |?]]; [| | |];
    (destruct f as [|[| |?]]; [| | |]);
    (destruct l as [|[| |?]]; [| | |]);
    (destruct z as [|[| |?]]; try discriminate Hno);
    destruct c as [[| |?]|[[| |?]|]| |?];
    eexists; (split; [reflexivity|]); (split; [reflexivity|]);
    (split; [reflexivity|]); split; reflexivity.
Qed.

Lemma grows_ret {A} (a : A) : grows (se_ret a).
Proof. intros s. exists []. by rewrite app_nil_r. Qed.

Lemma grows_throw {A} e : grows (@se_throw Locals A e).
Proof. intros s. exists []. by rewrite app_nil_r. Qed.

Lemma grows_bind {A B} (m : SE Locals A) (k : A → SE Locals B) :
  grows m → (∀ a, grows (k a)) → grows (se_bind m k).
Proof.
  intros Hm Hk s. unfold se_bind. destruct (Hm s) as [r1 H1].
  destruct (m s) as [[a|e] s1]; cbn [snd] in *; [|eauto].
  destruct (Hk a s1) as [r2 H2]. exists (r1 ++ r2).
  by rewrite H2, H1, app_assoc.
Qed.

Lemma grows_try {A} (m : SE Locals A) (h : jsstring → SE Locals A) :
  grows m → (∀ e, grows (h e)) → grows (se_try m h).
Proof.
  intros Hm Hh s. unfold se_try. destruct (Hm s) as [r1 H1].
  destruct (m s) as [[a|e] s1]; cbn [snd] in *; [eauto|].
  destruct (Hh e s1) as [r2 H2]. exists (r1 ++ r2).
  by rewrite H2, H1, app_assoc.
Qed.

Lemma grows_updateStatus step message isError :
  grows (updateStatus step message isError).
Proof. intros s. eexists [_]. reflexivity. Qed.

Lemma grows_fail name : grows (fail name).
Proof. intros s. exists []. by rewrite app_nil_r. Qed.

Lemma grows_lookup f : grows (lookup_field f).
Proof. intros s. exists []. by rewrite app_nil_r. Qed.

Lemma grows_inject f : grows (inject f).
Proof. destruct f; [apply grows_ret|apply grows_ret|apply grows_throw]. Qed.

Lemma grows_fill_located field name l : grows (fill_located field name l).
Proof.
  apply grows_bind; [apply grows_lookup|]. intros _.
  destruct l; [apply grows_ret|].
  apply grows_bind; [apply grows_inject|].
  intros []; [apply grows_ret|apply grows_fail].
Qed.

Lemma step3_head page cardNumber :
  head (reported (snd (stepFillPayment page cardNumber))) =
  Some {| st_step := 3; st_message := str "Waiting for payment form...";
          st_isError := false |}.
Proof.
  unfold stepFillPayment, stepFillPayment_body.
  unfold se_bind at 1. cbn [updateStatus se_modify].
  match goal with
  | |- context [se_try ?m ?h ?s0] =>
      assert (grows (se_try m h)) as Hg; [|destruct (Hg s0) as [rest ->]; reflexivity]
  end.
  apply grows_try.
  - apply grows_bind; [destruct (panelActive page); [apply grows_ret|apply grows_throw]|].
    intros _. apply grows_bind.
    { apply grows_try; [|intros e; apply grows_fail].
      apply grows_bind; [apply grows_updateStatus|]. intros _.
      apply grows_bind; [apply grows_lookup|]. intros _.
      destruct (card page) as [f|[f|]| |e].
      - apply grows_bind; [apply grows_inject|].
        intros []; [apply grows_ret|apply grows_fail].
      - apply grows_bind; [apply grows_inject|].
        intros []; [apply grows_ret|apply grows_fail].
      - apply grows_ret.
      - apply grows_bind; [apply grows_updateStatus|]. intros _. apply grows_fail.
      - apply grows_throw. }
    intros _.
    repeat (apply grows_bind;
            [first [apply grows_updateStatus|apply grows_fill_located]|intros _]).
    apply grows_bind; [intros s; exists []; by rewrite app_nil_r|].
    intros l. destruct (negb _);
      (apply grows_bind; [apply grows_updateStatus|intros _; apply grows_ret]).
  - intros e. apply grows_bind; [apply grows_updateStatus|intros _; apply grows_ret].
Qed.

(** X25. Step 3 never throws and its answer can be read off the page:
    it returns true if and only if the payment panel is active, no
    injection after the card number throws, and no field is reported,
    that is, every control the step reached was left with a value; a
    control that was not found does not count.  The first status is the
    waiting status, the last one is an error status exactly when the
    step returns false, and with the panel not active no field is looked
    up at all. *)
Theorem stepFillPayment_success_iff (page : PaymentPage) (cardNumber : jsstring) :
  let run := stepFillPayment page cardNumber in
  ∃ b st,
    fst run = Return b ∧
    (b = true ↔ panelActive page = true ∧ no_later_throw page = true ∧
                reported_failures page = []) ∧
    head (reported (snd run)) =
      Some {| st_step := 3; st_message := str "Waiting for payment form...";
              st_isError := false |} ∧
    last (reported (snd run)) = Some st ∧
    st_step st = 3 ∧ st_isError st = negb b ∧
    (panelActive page = false →
     attempts (snd run) = [] ∧
     st_message st = str "Error: Element not found: " ++ paymentPanelSelector).
Proof.
  cbv zeta. destruct (panelActive page) eqn:Hp.
  - destruct (no_later_throw page) eqn:Hno.
    + destruct (step3_report page cardNumber Hp Hno) as [_ H].
      pose proof (step3_head page cardNumber) as Hhead.
      destruct (reported_failures page) as [|n ns] eqn:Hf.
      * destruct H as [E Hl]. eexists true, _. rewrite E.
        split; [done|]. split; [done|]. split; [exact Hhead|].
        split; [exact Hl|]. done.
      * destruct H as [E Hl]. eexists false, _. rewrite E.
        split; [done|]. split; [split; [done|by intros (_ & _ & ?)]|].
        split; [exact Hhead|]. split; [exact Hl|]. done.
    + destruct (step3_later_throw page cardNumber Hp Hno)
        as (st & E & Hh & Hl & Hs & He).
      exists false, st. rewrite E.
      split; [done|]. split; [split; [done|by intros (_ & ? & _)]|].
      split; [exact Hh|]. split; [exact Hl|]. done.
  - rewrite (step3_panel_missing page cardNumber Hp). cbn [fst snd reported attempts].
    eexists false, _.
    split; [done|]. split; [split; [done|by intros (? & _)]|].
    split; [reflexivity|]. split; [reflexivity|]. done.
Qed.

(** *** The order of the steps *)

(** X26. Every run calls at least one step, the steps are called in the
    order 1, 2, 3 without repetition, and the success recorded is what
    the last step called returned.  Step 1 is called exactly when the
    email panel is active and step 2 exactly when step 1 then returned
    true; step 3 is left out only when the email panel is active, step 1
    or step 2 failed and the payment panel is not active, so with no
    panel active at all step 3 is called straight away.  The run sends
    its own ready status exactly when step 3 returned a truthy value. *)
Theorem last_step_decides i (page : Page) (iso : jsstring) (w : World) settings
    idx e cardData formData :
  tasks w !! i = Some (InSteps settings idx e cardData formData) →
  let w' := handle (StepsDone i page iso) w in
  ∃ called final result,
    steps_run w' = steps_run w ++ called ∧
    called `sublist_of` [StepFillEmail; StepClickContinue; StepFillPayment] ∧
    last called = Some final ∧
    tasks w' !! i = Some (AwaitResults settings idx result) ∧
    success result = step_outcome page final ∧
    (StepFillEmail ∈ called ↔ emailPanel page = true) ∧
    (StepClickContinue ∈ called ↔
       emailPanel page = true ∧ fillEmail page = true) ∧
    (StepFillPayment ∉ called ↔
       emailPanel page = true ∧ paymentPanel page = false ∧
       (fillEmail page = false ∨ clickContinue page = false)) ∧
    statuses w' = statuses w ++
      (if result_truthy (success result) then [ready_status] else []) ∧
    (result_truthy (success result) = true → final = StepFillPayment).
Proof.
  intros Ht. cbv zeta.
  destruct (steps_spec i page iso w _ _ _ _ _ Ht) as (_ & _ & _ & Htasks).
  assert (i < length (tasks w)) as Hi by (by eapply lookup_lt_Some).
  cbn [handle] in *. rewrite Ht in *. unfold runAutomation_steps in *.
  unfold run_success in Htasks.
  destruct (emailPanel page) eqn:E1, (fillEmail page) eqn:E2,
    (clickContinue page) eqn:E3, (paymentPanel page) eqn:E4;
    cbn [orb result_truthy of_bool] in *.
  all: try (destruct (fillPayment page) eqn:E5; cbn [result_truthy] in *).
  all: eexists _, _, _.
  all: (split; [cbn [call_step steps_run Content.updateStatus set_isRunning set_task];
                rewrite <- ?app_assoc; reflexivity|]).
  all: cbn [app].
  all: (split; [repeat first [apply sublist_skip|apply sublist_cons|apply sublist_nil]|]).
  all: (split; [reflexivity|]).
  all: (split; [rewrite Htasks; by apply list_lookup_insert_eq|]).
  all: (split; [cbn [success step_outcome]; by rewrite ?E2, ?E3, ?E5|]).
  all: clear Htasks Ht Hi.
  all: (split; [rewrite ?elem_of_cons, ?elem_of_nil; intuition congruence|]).
  all: (split; [rewrite ?elem_of_cons, ?elem_of_nil; intuition congruence|]).
  all: (split; [rewrite ?elem_of_cons, ?elem_of_nil; intuition congruence|]).
  all: (split; [|cbn [success result_truthy]; done]).
  all: cbn [call_step statuses Content.updateStatus set_isRunning set_task success
            result_truthy];
       rewrite ?app_nil_r; reflexivity.
Qed.

Lemma last_step_decides_witness :
  let w := in_steps Samples.env0 Samples.world_abc in
  let page := Samples.page_failed in
  let w' := handle (StepsDone 0 page Samples.iso0) w in
  ∃ called final result,
    steps_run w' = steps_run w ++ called ∧
    called `sublist_of` [StepFillEmail; StepClickContinue; StepFillPayment] ∧
    last called = Some final ∧
    tasks w' !! 0 =
      Some (AwaitResults (default empty_settings
                            (adobeAutoSettings (storage Samples.world_abc)))
                         0 result) ∧
    success result = step_outcome page final ∧
    (StepFillEmail ∈ called ↔ emailPanel page = true) ∧
    (StepClickContinue ∈ called ↔
       emailPanel page = true ∧ fillEmail page = true) ∧
    (StepFillPayment ∉ called ↔
       emailPanel page = true ∧ paymentPanel page = false ∧
       (fillEmail page = false ∨ clickContinue page = false)) ∧
    statuses w' = statuses w ++
      (if result_truthy (success result) then [ready_status] else []) ∧
    (result_truthy (success result) = true → final = StepFillPayment).
Proof.
  eapply (last_step_decides 0 Samples.page_failed Samples.iso0
            (in_steps Samples.env0 Samples.world_abc)).
  reflexivity.
Defined.

End FlowFacts.

(** ** The Waiter: waiting for a condition *)

Section WaiterMore.
Import Waiter.

Lemma run_wait_app w s1 s2 :
  run_wait w (s1 ++ s2) = run_wait (run_wait w s1) s2.
Proof. apply fold_left_app. Qed.

Lemma condition_pending conditionFn (documents : list DOM) :
  (∀ d, d ∈ documents → conditionFn d = false) →
  run_wait (Pending (ForCondition conditionFn)) (Mutation <$> documents) =
  Pending (ForCondition conditionFn).
Proof.
  induction documents as [|d ds IH]; intros Hn; [done|].
  cbn [fmap list_fmap run_wait fold_left react on_mutation check].
  rewrite (Hn d) by apply list_elem_of_here.
  apply IH. intros d' Hd. apply Hn. by apply list_elem_of_further.
Qed.

(** X27. [waitForCondition] is decided by what comes first.  While the
    condition is false on the document at the call and on every mutation
    seen, the wait is pending; the first mutation on which the condition
    holds resolves it with true, and the timer firing first rejects it
    with its timeout error.  Once settled the wait keeps its outcome: a
    timer that fires after the condition held, or a condition that holds
    after the timer fired, changes nothing.  A condition that holds at
    the call settles the wait without any signal. *)
Theorem waitForCondition_first_wins (conditionFn : DOM → bool)
    (document : DOM) (before : list DOM) (d : DOM) (after : list Signal) :
  (∀ x, x ∈ document :: before → conditionFn x = false) →
  conditionFn d = true →
  let w := waitForCondition conditionFn document in
  run_wait w (Mutation <$> before) = Pending (ForCondition conditionFn) ∧
  run_wait w ((Mutation <$> before) ++ Mutation d :: after) =
    Settled ResolvedTrue ∧
  run_wait w ((Mutation <$> before) ++ Timeout :: after) =
    Settled (Rejected (str "Timeout waiting for condition")) ∧
  run_wait (waitForCondition conditionFn d) after = Settled ResolvedTrue.
Proof.
  intros Hn Hd. cbv zeta.
  assert (waitForCondition conditionFn document =
          Pending (ForCondition conditionFn)) as ->.
  { unfold waitForCondition, start, check.
    by rewrite (Hn document) by apply list_elem_of_here. }
  assert (run_wait (Pending (ForCondition conditionFn)) (Mutation <$> before) =
          Pending (ForCondition conditionFn)) as Hp.
  { apply condition_pending. intros x Hx. apply Hn.
    by apply list_elem_of_further. }
  split; [done|]. rewrite !run_wait_app, Hp.
  split; [|split].
  - cbn [run_wait fold_left react on_mutation check]. rewrite Hd.
    apply run_wait_settled.
  - cbn [run_wait fold_left react on_timeout]. apply run_wait_settled.
  - unfold waitForCondition, start, check. rewrite Hd. apply run_wait_settled.
Qed.

Lemma waitForCondition_first_wins_witness :
  let conditionFn := λ x : DOM, 1 <? length x in
  let w := waitForCondition conditionFn [] in
  run_wait w (Mutation <$> [[]; []]) = Pending (ForCondition conditionFn) ∧
  run_wait w ((Mutation <$> [[]; []]) ++
               Mutation Samples.dom_shown :: [Timeout; Mutation Samples.dom_shown]) =
    Settled ResolvedTrue ∧
  run_wait w ((Mutation <$> [[]; []]) ++
               Timeout :: [Timeout; Mutation Samples.dom_shown]) =
    Settled (Rejected (str "Timeout waiting for condition")) ∧
  run_wait (waitForCondition conditionFn Samples.dom_shown)
    [Timeout; Mutation Samples.dom_shown] =
    Settled ResolvedTrue.
Proof.
  apply (waitForCondition_first_wins (λ x : DOM, 1 <? length x) [] [[]; []]
           Samples.dom_shown).
  - intros x Hx. repeat (apply elem_of_cons in Hx as [->|Hx]; [reflexivity|]).
    by apply elem_of_nil in Hx.
  - reflexivity.
Defined.

End WaiterMore.
